(** * Pose controller and expression layers of the avatar renderer

    A shallow embedding of [src/lib/avatar/animation/PoseController.ts], of the
    easing library it imports and of the speech mouth layer, together with the
    properties of the specification that were checked against them.

    Numbers.  A JavaScript [number] is modelled as a real number of the
    Standard Library ([R]): [Math.sin], [Math.cos], [Math.exp], [Math.PI],
    [Math.max], [Math.min] and [Math.abs] are [sin], [cos], [exp], [PI],
    [Rmax], [Rmin] and [Rabs].  Rounding, [NaN] and the infinities of IEEE
    doubles are outside this model; the one place where the source passes
    [Infinity] (the default [maxSpeed] of [smoothDamp]) is an [option].
    Where the source can divide by zero or take a power of a negative base
    the real-valued definition is faithful only off that input, which its
    comment names ([smoothDamp]: a positive time step; [updateSpring]: a mass
    other than zero; the mouth target: a threshold below [1]); the theorems
    carry these conditions as hypotheses, and the mouth layer has a second
    reading of its output on numbers with [NaN].

    Objects.  A [Record<string, T>] or a [Map<string, T>] is a [gmap string T];
    a [for ... of Object.entries(m)] loop is a left fold over [map_to_list m].
    An exception escaping a method is the [Throw] result of that method. *)

From Stdlib Require Import Reals Lra.
From stdpp Require Import base option list strings gmap fin_maps.

#[local] Open Scope R_scope.

(** ** Comparisons of numbers as booleans *)

#[global] Instance Rlt_decision : RelDecision Rlt := Rlt_dec.
#[global] Instance Rle_decision : RelDecision Rle := Rle_dec.
#[global] Instance Rgt_decision : RelDecision Rgt := Rgt_dec.
#[global] Instance Rge_decision : RelDecision Rge := Rge_dec.
#[global] Instance Req_decision : EqDecision R := Req_dec_T.

(** [a || d] on numbers: [undefined] and [0] are falsy. *)
Definition num_or (a : option R) (d : R) : R :=
  match a with
  | Some v => if decide (v = 0) then d else v
  | None => d
  end.

(** [Math.trunc], and the remainder [a % b] (sign of the dividend). *)
Definition Rtrunc (x : R) : R :=
  if decide (0 <= x) then IZR (Int_part x) else - IZR (Int_part (- x)).

Definition js_rem (a b : R) : R := a - b * Rtrunc (a / b).

(** ** Easing library (easing.ts) *)

Module Easing.

Definition linear (t : R) : R := t.

Definition easeInSine (t : R) : R := 1 - cos ((t * PI) / 2).
Definition easeOutSine (t : R) : R := sin ((t * PI) / 2).
Definition easeInOutSine (t : R) : R := - (cos (PI * t) - 1) / 2.

Definition easeInQuad (t : R) : R := t * t.
Definition easeOutQuad (t : R) : R := 1 - (1 - t) * (1 - t).

(** [Math.pow(b, 3)] is the cube [b ^ 3]. *)
Definition easeInOutCubic (t : R) : R :=
  if decide (t < 0.5) then 4 * t * t * t else 1 - (-2 * t + 2) ^ 3 / 2.

(** The body of [smoothDamp] up to the overshoot test: the pair of the
    tentative output and of the velocity stored in [currentVelocityRef]. *)
Definition smoothDamp_integrate
    (current target velocity smoothTime deltaTime : R) (maxSpeed : option R) : R * R :=
  let smoothTime := Rmax 0.0001 smoothTime in
  let omega := 2 / smoothTime in
  let x := omega * deltaTime in
  let exp := 1 / (1 + x + 0.48 * x * x + 0.235 * x * x * x) in
  let change := current - target in
  let change :=
    match maxSpeed with
    | Some maxSpeed =>
        let maxChange := maxSpeed * smoothTime in
        Rmax (- maxChange) (Rmin maxChange change)
    | None => change
    end in
  let target := current - change in
  let temp := (velocity + omega * change) * deltaTime in
  let velocity := (velocity - omega * temp) * exp in
  let output := target + (change + temp) * exp in
  (output, velocity).

(** [originalTo - current > 0 === output > originalTo] *)
Definition overshoots (current originalTo output : R) : bool :=
  Bool.eqb (bool_decide (originalTo - current > 0)) (bool_decide (output > originalTo)).

(** [smoothDamp]: the returned number and the new [currentVelocityRef.value].
    The overshoot branch divides by [deltaTime]: for [deltaTime = 0] the
    source stores [0 / 0], which is [NaN], so this definition is the source
    for [deltaTime > 0]. *)
Definition smoothDamp
    (current target velocity smoothTime deltaTime : R) (maxSpeed : option R) : R * R :=
  let originalTo := target in
  let '(output, velocity) :=
    smoothDamp_integrate current target velocity smoothTime deltaTime maxSpeed in
  if overshoots current originalTo output
  then let output := originalTo in (output, (output - originalTo) / deltaTime)
  else (output, velocity).

Definition organicOscillation (time baseFrequency : R) : R :=
  let primary := sin (time * baseFrequency * PI * 2) in
  let harmonic1 := sin (time * baseFrequency * 1.5 * PI * 2) * 0.2 in
  let harmonic2 := sin (time * baseFrequency * 0.7 * PI * 2) * 0.15 in
  (primary + harmonic1 + harmonic2) / 1.35.

Definition breathingPhase (time breathsPerMinute : R) : R :=
  let cyclesPerSecond := breathsPerMinute / 60 in
  js_rem (time * cyclesPerSecond) 1.

Definition breathingCurve (time breathsPerMinute : R) : R :=
  let phase := breathingPhase time breathsPerMinute in
  if decide (phase < 0.4)
  then easeOutSine (phase / 0.4)
  else 1 - easeInSine ((phase - 0.4) / 0.6).

Record MicroMovement := { yaw : R; pitch : R; roll : R }.

Definition headMicroMovement (time : R) : MicroMovement :=
  {| yaw := organicOscillation time 0.1 * 0.5 + organicOscillation time 0.17 * 0.3;
     pitch := organicOscillation time 0.08 * 0.3 + organicOscillation time 0.13 * 0.2;
     roll := organicOscillation time 0.05 * 0.15 |}.

(** *** The remaining curves of easing.ts *)

(** [Math.pow(b, 2)] and [Math.pow(b, 3)] are [b ^ 2] and [b ^ 3];
    [Math.pow(2, y)] is [Rpower 2 y]. *)
Definition easeInOutQuad (t : R) : R :=
  if decide (t < 0.5) then 2 * t * t else 1 - (-2 * t + 2) ^ 2 / 2.

Definition easeInCubic (t : R) : R := t * t * t.
Definition easeOutCubic (t : R) : R := 1 - (1 - t) ^ 3.

Definition easeInExpo (t : R) : R :=
  if decide (t = 0) then 0 else Rpower 2 (10 * t - 10).

Definition easeOutExpo (t : R) : R :=
  if decide (t = 1) then 1 else 1 - Rpower 2 (-10 * t).

Definition easeInOutExpo (t : R) : R :=
  if decide (t = 0) then 0
  else if decide (t = 1) then 1
  else if decide (t < 0.5) then Rpower 2 (20 * t - 10) / 2
  else (2 - Rpower 2 (-20 * t + 10)) / 2.

Definition easeInBack (t : R) : R :=
  let c1 := 1.70158 in
  let c3 := c1 + 1 in
  c3 * t * t * t - c1 * t * t.

Definition easeOutBack (t : R) : R :=
  let c1 := 1.70158 in
  let c3 := c1 + 1 in
  1 + c3 * (t - 1) ^ 3 + c1 * (t - 1) ^ 2.

Definition easeInOutBack (t : R) : R :=
  let c1 := 1.70158 in
  let c2 := c1 * 1.525 in
  if decide (t < 0.5)
  then ((2 * t) ^ 2 * ((c2 + 1) * 2 * t - c2)) / 2
  else ((2 * t - 2) ^ 2 * ((c2 + 1) * (t * 2 - 2) + c2) + 2) / 2.

Definition easeInElastic (t : R) : R :=
  let c4 := (2 * PI) / 3 in
  if decide (t = 0) then 0
  else if decide (t = 1) then 1
  else - Rpower 2 (10 * t - 10) * sin ((t * 10 - 10.75) * c4).

Definition easeOutElastic (t : R) : R :=
  let c4 := (2 * PI) / 3 in
  if decide (t = 0) then 0
  else if decide (t = 1) then 1
  else Rpower 2 (-10 * t) * sin ((t * 10 - 0.75) * c4) + 1.

(** In [n1 * (t -= c) * t + k] the assignment is evaluated first, so both
    factors are the decreased [t]. *)
Definition easeOutBounce (t : R) : R :=
  let n1 := 7.5625 in
  let d1 := 2.75 in
  if decide (t < 1 / d1) then n1 * t * t
  else if decide (t < 2 / d1) then
    let t := t - 1.5 / d1 in n1 * t * t + 0.75
  else if decide (t < 2.5 / d1) then
    let t := t - 2.25 / d1 in n1 * t * t + 0.9375
  else
    let t := t - 2.625 / d1 in n1 * t * t + 0.984375.

Record SpringConfig := { stiffness : R; damping : R; mass : R }.

Record SpringState := { position : R; spring_velocity : R }.

(** The acceleration is a quotient by the mass: for a mass of zero the
    source yields [NaN] or an infinity, so this definition is the source for
    [mass config <> 0]. *)
Definition updateSpring (state : SpringState) (target : R) (config : SpringConfig)
    (deltaTime : R) : SpringState :=
  let displacement := position state - target in
  let springForce := - stiffness config * displacement in
  let dampingForce := - damping config * spring_velocity state in
  let acceleration := (springForce + dampingForce) / mass config in
  let newVelocity := spring_velocity state + acceleration * deltaTime in
  let newPosition := position state + newVelocity * deltaTime in
  {| position := newPosition; spring_velocity := newVelocity |}.

(** The thresholds default to [0.001] at the call. *)
Definition isSpringSettled (state : SpringState) (target : R)
    (positionThreshold velocityThreshold : R) : bool :=
  bool_decide (Rabs (position state - target) < positionThreshold)
  && bool_decide (Rabs (spring_velocity state) < velocityThreshold).

Definition exponentialSmooth (current target smoothing deltaTime : R) : R :=
  let factor := 1 - Rpower smoothing (deltaTime * 60) in
  current + (target - current) * factor.

Definition interpolate (from to t : R) (easing : R -> R) : R :=
  let easedT := easing (Rmax 0 (Rmin 1 t)) in
  from + (to - from) * easedT.

End Easing.


(** ** Data model (config/poses.ts and the types of PoseController.ts) *)

(** A rotation triple [[x, y, z]] in degrees: a three-element array. *)
Record Vec3 := vec3 { at0 : R; at1 : R; at2 : R }.

(** [BoneRotation]: the [{x, y, z}] of a bone node or of a bone state. *)
Record BoneRotation := rot { rot_x : R; rot_y : R; rot_z : R }.

Record BoneState := {
  current : BoneRotation;
  target : BoneRotation;
  velocity : BoneRotation;
}.

Definition set_target (t : BoneRotation) (st : BoneState) : BoneState :=
  {| current := current st; target := t; velocity := velocity st |}.

Record PoseTransition := {
  fromPose : gmap string Vec3;
  toPose : gmap string Vec3;
  startTime : R;
  duration : R;
  easing : R -> R;
}.

Record PosePreset := {
  pose_id : string;
  bones : gmap string Vec3;
}.

(** A bone whose entry in [bones] is [undefined] is absent from [kf_bones]:
    the gesture player skips the one and never sees the other. *)
Record Keyframe := {
  time : R;
  kf_bones : gmap string Vec3;
}.

Record BodyGesture := {
  gesture_id : string;
  gesture_duration : R;
  loop : bool;
  keyframes : list Keyframe;
}.

Inductive MotionType := MBreathing | MSway | MBounce | MFloat | MWalk | MCustom.

Record MotionParams := {
  amplitude : option R;
  strideLength : option R;
  armSwing : option R;
}.

Record BodyMotion := {
  speed : R;
  intensity : R;
  type : MotionType;
  params : option MotionParams;
}.

Inductive HandSelector := HandLeft | HandRight | HandBoth.
Inductive Side := SideLeft | SideRight.

(** [fingers] is given by its [Object.entries]; an entry whose value is
    [undefined] carries [None]. *)
Record HandGesture := {
  hand : HandSelector;
  fingers : list (string * option R);
}.

Record GestureAnimation := {
  gesture : BodyGesture;
  ga_startTime : R;
  isPlaying : bool;
}.

(** The rig.  [humanoid] maps a VRM bone name to the rotation of its
    normalized bone node ([getNormalizedBoneNode] returns [null] for a bone
    the model lacks); [scene] is [scene.position.y]. *)
Record VRM := {
  humanoid : option (gmap string BoneRotation);
  scene : option R;
}.

Definition degToRad (degrees : R) : R := degrees * (PI / 180).

(** [{ ...a, ...b }] *)
Definition spread {A} (a b : gmap string A) : gmap string A := b ∪ a.

Definition BONE_MAP_entries : list (string * string) :=
  [ ("spine", "spine"); ("chest", "chest"); ("neck", "neck"); ("head", "head");
    ("leftUpperArm", "leftUpperArm"); ("leftLowerArm", "leftLowerArm");
    ("leftHand", "leftHand");
    ("rightUpperArm", "rightUpperArm"); ("rightLowerArm", "rightLowerArm");
    ("rightHand", "rightHand");
    ("leftUpperLeg", "leftUpperLeg"); ("leftLowerLeg", "leftLowerLeg");
    ("leftFoot", "leftFoot");
    ("rightUpperLeg", "rightUpperLeg"); ("rightLowerLeg", "rightLowerLeg");
    ("rightFoot", "rightFoot");
    ("hips", "hips") ]%string.

Definition BONE_MAP : gmap string string := list_to_map BONE_MAP_entries.

Definition DEFAULT_RELAXED_POSE : gmap string Vec3 :=
  list_to_map
    [ ("leftUpperArm"%string, vec3 20 0 (-70));
      ("rightUpperArm"%string, vec3 20 0 70);
      ("leftLowerArm"%string, vec3 0 0 (-15));
      ("rightLowerArm"%string, vec3 0 0 15);
      ("spine"%string, vec3 2 0 0);
      ("chest"%string, vec3 0 0 0);
      ("neck"%string, vec3 0 0 0);
      ("head"%string, vec3 0 0 0) ].

(** What a method call leaves behind: it returns, or a [TypeError] escapes
    it; either way the controller is in the state carried. *)
Inductive Completion (A : Type) :=
  | Normal (s : A)
  | Throw (s : A).
Arguments Normal {A} s.
Arguments Throw {A} s.

Definition state_of {A} (c : Completion A) : A :=
  match c with Normal s | Throw s => s end.

Definition and_then {A} (c : Completion A) (k : A -> Completion A) : Completion A :=
  match c with
  | Normal s => k s
  | Throw s => Throw s
  end.

(** ** The pose controller (PoseController.ts) *)

Module PoseController.

Import Easing.

Record State := {
  vrm : option VRM;
  basePose : gmap string Vec3;
  boneStates : gmap string BoneState;
  poseTransition : option PoseTransition;
  currentMotion : option BodyMotion;
  gestureAnimation : option GestureAnimation;
  motionTime : R;
  elapsedTime : R;
  basePosition : Vec3;
  currentPositionY : R;
  positionVelocityY : R;
  transitionDuration : R;
  smoothTime : R;
}.

(** Field assignments [this.f = v]. *)
Definition set_vrm (v : option VRM) (s : State) : State :=
  {| vrm := v; basePose := basePose s; boneStates := boneStates s;
     poseTransition := poseTransition s; currentMotion := currentMotion s;
     gestureAnimation := gestureAnimation s; motionTime := motionTime s;
     elapsedTime := elapsedTime s; basePosition := basePosition s;
     currentPositionY := currentPositionY s; positionVelocityY := positionVelocityY s;
     transitionDuration := transitionDuration s; smoothTime := smoothTime s |}.

Definition set_basePose (v : gmap string Vec3) (s : State) : State :=
  {| vrm := vrm s; basePose := v; boneStates := boneStates s;
     poseTransition := poseTransition s; currentMotion := currentMotion s;
     gestureAnimation := gestureAnimation s; motionTime := motionTime s;
     elapsedTime := elapsedTime s; basePosition := basePosition s;
     currentPositionY := currentPositionY s; positionVelocityY := positionVelocityY s;
     transitionDuration := transitionDuration s; smoothTime := smoothTime s |}.

Definition set_boneStates (v : gmap string BoneState) (s : State) : State :=
  {| vrm := vrm s; basePose := basePose s; boneStates := v;
     poseTransition := poseTransition s; currentMotion := currentMotion s;
     gestureAnimation := gestureAnimation s; motionTime := motionTime s;
     elapsedTime := elapsedTime s; basePosition := basePosition s;
     currentPositionY := currentPositionY s; positionVelocityY := positionVelocityY s;
     transitionDuration := transitionDuration s; smoothTime := smoothTime s |}.

Definition set_poseTransition (v : option PoseTransition) (s : State) : State :=
  {| vrm := vrm s; basePose := basePose s; boneStates := boneStates s;
     poseTransition := v; currentMotion := currentMotion s;
     gestureAnimation := gestureAnimation s; motionTime := motionTime s;
     elapsedTime := elapsedTime s; basePosition := basePosition s;
     currentPositionY := currentPositionY s; positionVelocityY := positionVelocityY s;
     transitionDuration := transitionDuration s; smoothTime := smoothTime s |}.

Definition set_currentMotion (v : option BodyMotion) (s : State) : State :=
  {| vrm := vrm s; basePose := basePose s; boneStates := boneStates s;
     poseTransition := poseTransition s; currentMotion := v;
     gestureAnimation := gestureAnimation s; motionTime := motionTime s;
     elapsedTime := elapsedTime s; basePosition := basePosition s;
     currentPositionY := currentPositionY s; positionVelocityY := positionVelocityY s;
     transitionDuration := transitionDuration s; smoothTime := smoothTime s |}.

Definition set_gestureAnimation (v : option GestureAnimation) (s : State) : State :=
  {| vrm := vrm s; basePose := basePose s; boneStates := boneStates s;
     poseTransition := poseTransition s; currentMotion := currentMotion s;
     gestureAnimation := v; motionTime := motionTime s;
     elapsedTime := elapsedTime s; basePosition := basePosition s;
     currentPositionY := currentPositionY s; positionVelocityY := positionVelocityY s;
     transitionDuration := transitionDuration s; smoothTime := smoothTime s |}.

Definition set_times (mt et : R) (s : State) : State :=
  {| vrm := vrm s; basePose := basePose s; boneStates := boneStates s;
     poseTransition := poseTransition s; currentMotion := currentMotion s;
     gestureAnimation := gestureAnimation s; motionTime := mt;
     elapsedTime := et; basePosition := basePosition s;
     currentPositionY := currentPositionY s; positionVelocityY := positionVelocityY s;
     transitionDuration := transitionDuration s; smoothTime := smoothTime s |}.

Definition set_positionY (cur vel : R) (s : State) : State :=
  {| vrm := vrm s; basePose := basePose s; boneStates := boneStates s;
     poseTransition := poseTransition s; currentMotion := currentMotion s;
     gestureAnimation := gestureAnimation s; motionTime := motionTime s;
     elapsedTime := elapsedTime s; basePosition := basePosition s;
     currentPositionY := cur; positionVelocityY := vel;
     transitionDuration := transitionDuration s; smoothTime := smoothTime s |}.

(** [this.vrm?.humanoid] *)
Definition the_humanoid (s : State) : option (gmap string BoneRotation) :=
  v ← vrm s; humanoid v.

(** Writing the bone nodes back into the rig held by the controller. *)
Definition set_humanoid (h : gmap string BoneRotation) (s : State) : State :=
  match vrm s with
  | Some v => set_vrm (Some {| humanoid := Some h; scene := scene v |}) s
  | None => s
  end.

(** The controller as its field initialisers leave it. *)
Definition fresh : State :=
  {| vrm := None; basePose := DEFAULT_RELAXED_POSE; boneStates := ∅;
     poseTransition := None; currentMotion := None; gestureAnimation := None;
     motionTime := 0; elapsedTime := 0; basePosition := vec3 0 0 0;
     currentPositionY := 0; positionVelocityY := 0;
     transitionDuration := 0.4; smoothTime := 0.15 |}.

Definition initializeBoneStates (s : State) : State :=
  match the_humanoid s with
  | None => s
  | Some h =>
      let states :=
        foldl (fun (acc : gmap string BoneState) '(boneName, vrmBoneName) =>
                 match h !! vrmBoneName with
                 | Some bone =>
                     <[boneName := {| current := bone; target := bone;
                                      velocity := rot 0 0 0 |}]> acc
                 | None => acc
                 end)
              (boneStates s) BONE_MAP_entries in
      set_boneStates states s
  end.

Definition applyPoseImmediate (pose : gmap string Vec3) (s : State) : State :=
  match the_humanoid s with
  | None => s
  | Some h =>
      let '(h, states) :=
        foldl (fun '(h, states) '(boneName, rotation) =>
                 match BONE_MAP !! boneName with
                 | None => (h, states)
                 | Some vrmBoneName =>
                     match (h : gmap string BoneRotation) !! vrmBoneName with
                     | None => (h, states)
                     | Some _ =>
                         let r := rot (degToRad (at0 rotation)) (degToRad (at1 rotation))
                                      (degToRad (at2 rotation)) in
                         let h := <[vrmBoneName := r]> h in
                         match (states : gmap string BoneState) !! boneName with
                         | Some _ =>
                             (h, <[boneName := {| current := r; target := r;
                                                  velocity := rot 0 0 0 |}]> states)
                         | None => (h, states)
                         end
                     end
                 end)
              (h, boneStates s) (map_to_list pose) in
      set_basePose pose (set_boneStates states (set_humanoid h s))
  end.

Definition init (v : VRM) (s : State) : State :=
  let s := set_vrm (Some v) s in
  let s := set_times 0 0 s in
  let s := set_boneStates ∅ s in
  let s := set_poseTransition None s in
  let s := set_positionY 0 0 s in
  let s := initializeBoneStates s in
  applyPoseImmediate DEFAULT_RELAXED_POSE s.

(** [state.current] in degrees, as [applyPose] and [getCurrentPose] build it. *)
Definition current_degrees (state : BoneState) : Vec3 :=
  vec3 (rot_x (current state) / (PI / 180))
       (rot_y (current state) / (PI / 180))
       (rot_z (current state) / (PI / 180)).

(** The starting value [applyPose] records for one bone. *)
Definition fromPose_entry (s : State) (boneName : string) : Vec3 :=
  match boneStates s !! boneName with
  | Some state => current_degrees state
  | None => default (vec3 0 0 0) (basePose s !! boneName)
  end.

Definition applyPose (pose : PosePreset) (s : State) : State :=
  match the_humanoid s with
  | None => s
  | Some _ =>
      let fromPose :=
        foldl (fun (fromPose : gmap string Vec3) '(boneName, _) =>
                 <[boneName := fromPose_entry s boneName]> fromPose)
              ∅ (map_to_list (spread (basePose s) (bones pose))) in
      let s' := set_poseTransition
                  (Some {| fromPose := fromPose;
                           toPose := spread (basePose s) (bones pose);
                           startTime := elapsedTime s;
                           duration := transitionDuration s;
                           easing := easeInOutCubic |}) s in
      set_basePose (spread (basePose s) (bones pose)) s'
  end.

Definition playBodyGesture (g : BodyGesture) (s : State) : State :=
  set_gestureAnimation
    (Some {| gesture := g; ga_startTime := elapsedTime s * 1000; isPlaying := true |}) s.

Definition stopBodyGesture (s : State) : State := set_gestureAnimation None s.

Definition setBodyMotion (m : BodyMotion) (s : State) : State :=
  set_currentMotion (Some m) s.

(** [from + (to - from) * t] on each component, converted to radians: the
    three assignments to [state.target]. *)
Definition lerp_target (fromRotation toRotation : Vec3) (t : R) : BoneRotation :=
  rot (degToRad (at0 fromRotation + (at0 toRotation - at0 fromRotation) * t))
      (degToRad (at1 fromRotation + (at1 toRotation - at1 fromRotation) * t))
      (degToRad (at2 fromRotation + (at2 toRotation - at2 fromRotation) * t)).

(** One pass of a loop [for (const [boneName, to] of Object.entries(toMap))]
    that writes [state.target] of the bones which have a state. *)
Definition write_targets (fromMap toMap : gmap string Vec3) (t : R)
    (states : gmap string BoneState) : gmap string BoneState :=
  foldl (fun (states : gmap string BoneState) '(boneName, toRotation) =>
           let fromRotation := default (vec3 0 0 0) (fromMap !! boneName) in
           match states !! boneName with
           | Some state =>
               <[boneName := set_target (lerp_target fromRotation toRotation t) state]> states
           | None => states
           end)
        states (map_to_list toMap).

Definition updatePoseTransition (s : State) : State :=
  match poseTransition s, the_humanoid s with
  | Some tr, Some _ =>
      let elapsed := elapsedTime s - startTime tr in
      let progress := Rmin (elapsed / duration tr) 1 in
      let easedProgress := easing tr progress in
      let s := set_boneStates
                 (write_targets (fromPose tr) (toPose tr) easedProgress (boneStates s)) s in
      if decide (progress >= 1) then set_poseTransition None s else s
  | _, _ => s
  end.

(** The search loop of [updateGestureAnimation]: the first adjacent pair
    [keyframes[i], keyframes[i + 1]] with
    [progress >= keyframes[i].time && progress < keyframes[i + 1].time]. *)
Fixpoint find_bracket (progress : R) (kfs : list Keyframe) : option (Keyframe * Keyframe) :=
  match kfs with
  | [] => None
  | k :: rest =>
      match rest with
      | [] => None
      | k' :: _ =>
          if bool_decide (progress >= time k) && bool_decide (progress < time k')
          then Some (k, k')
          else find_bracket progress rest
      end
  end.

(** The part of [updateGestureAnimation] after the test of [progress >= 1].
    [keyframes[0]] of an empty list is [undefined], and reading
    [nextKeyframe.time] then raises a [TypeError]. *)
Definition interpolateKeyframes (g : BodyGesture) (progress : R) (s : State)
    : Completion State :=
  let keyframes := keyframes g in
  let prevKeyframe := keyframes !! 0%nat in
  let nextKeyframe :=
    match keyframes !! 1%nat with Some k => Some k | None => keyframes !! 0%nat end in
  let '(prevKeyframe, nextKeyframe) :=
    match find_bracket progress keyframes with
    | Some (p, n) => (Some p, Some n)
    | None => (prevKeyframe, nextKeyframe)
    end in
  match nextKeyframe, prevKeyframe with
  | Some nextKeyframe, Some prevKeyframe =>
      let keyframeDuration := time nextKeyframe - time prevKeyframe in
      let rawT :=
        if decide (keyframeDuration > 0)
        then (progress - time prevKeyframe) / keyframeDuration
        else 0 in
      let t := easeInOutSine rawT in
      Normal (set_boneStates
                (write_targets (kf_bones prevKeyframe) (kf_bones nextKeyframe) t
                   (boneStates s)) s)
  | _, _ => Throw s
  end.

Definition updateGestureAnimation (s : State) : Completion State :=
  match gestureAnimation s, the_humanoid s with
  | Some ga, Some _ =>
      if negb (isPlaying ga) then Normal s
      else
        let elapsed := elapsedTime s * 1000 - ga_startTime ga in
        let progress := elapsed / gesture_duration (gesture ga) in
        if decide (progress >= 1) then
          if loop (gesture ga) then
            let s := set_gestureAnimation
                       (Some {| gesture := gesture ga;
                                ga_startTime := elapsedTime s * 1000;
                                isPlaying := isPlaying ga |}) s in
            interpolateKeyframes (gesture ga) 0 s
          else Normal (set_gestureAnimation None s)
        else interpolateKeyframes (gesture ga) progress s
  | _, _ => Normal s
  end.

(** [offsets[name] = offsets[name] || [0, 0, 0]] followed by updates of its
    components. *)
Definition bump (name : string) (f : Vec3 -> Vec3) (offsets : gmap string Vec3)
    : gmap string Vec3 :=
  <[name := f (default (vec3 0 0 0) (offsets !! name))]> offsets.

Definition calculateBreathingOffsets (time amplitude : R) (offsets : gmap string Vec3)
    : gmap string Vec3 :=
  let breathValue := breathingCurve time 14 in
  let offsets := <["chest"%string := vec3 (breathValue * amplitude * 0.4) 0 0]> offsets in
  let offsets := <["spine"%string := vec3 (breathValue * amplitude * 0.2) 0 0]> offsets in
  let offsets :=
    <["leftUpperArm"%string :=
        vec3 (- breathValue * amplitude * 0.1) 0 (- breathValue * amplitude * 0.15)]> offsets in
  <["rightUpperArm"%string :=
      vec3 (- breathValue * amplitude * 0.1) 0 (breathValue * amplitude * 0.15)]> offsets.

Definition calculateSwayOffsets (time amplitude : R) (offsets : gmap string Vec3)
    : gmap string Vec3 :=
  let swayValue := organicOscillation time 0.15 in
  let offsets :=
    bump "spine" (fun v => vec3 (at0 v) (at1 v) (at2 v + swayValue * amplitude)) offsets in
  bump "head"
    (fun v => vec3 (at0 v) (at1 v + swayValue * amplitude * 0.2)
                   (at2 v + swayValue * amplitude * 0.3)) offsets.

Definition calculateHeadMicroMovement (time intensity : R) (offsets : gmap string Vec3)
    : gmap string Vec3 :=
  let movement := headMicroMovement time in
  let offsets :=
    bump "head"
      (fun v => vec3 (at0 v + pitch movement * intensity)
                     (at1 v + yaw movement * intensity)
                     (at2 v + roll movement * intensity)) offsets in
  bump "neck"
    (fun v => vec3 (at0 v + pitch movement * intensity * 0.3)
                   (at1 v + yaw movement * intensity * 0.2)
                   (at2 v)) offsets.

(** [params || {}] of the caller is [default no_params params]. *)
Definition no_params : MotionParams :=
  {| amplitude := None; strideLength := None; armSwing := None |}.

Definition calculateWalkingOffsets (time : R) (params : MotionParams) (intensity : R)
    (offsets : gmap string Vec3) : gmap string Vec3 :=
  let strideLength := num_or (strideLength params) 25 * intensity in
  let armSwing := num_or (armSwing params) 30 * intensity in
  let bodyBob := num_or (amplitude params) 3 * intensity in
  let walkCycle := time * PI * 2 in
  let legPhase := sin walkCycle in
  let legPhaseOffset := sin (walkCycle + PI) in
  let kneePhase := Rmax 0 (sin walkCycle) * 0.5 in
  let kneePhaseOffset := Rmax 0 (sin (walkCycle + PI)) * 0.5 in
  let offsets := <["leftUpperLeg"%string := vec3 (legPhase * strideLength) 0 0]> offsets in
  let offsets :=
    <["rightUpperLeg"%string := vec3 (legPhaseOffset * strideLength) 0 0]> offsets in
  let leftKneeBend := Rmax 0 legPhase * strideLength * 0.8 + kneePhase * 20 in
  let rightKneeBend := Rmax 0 legPhaseOffset * strideLength * 0.8 + kneePhaseOffset * 20 in
  let offsets := <["leftLowerLeg"%string := vec3 leftKneeBend 0 0]> offsets in
  let offsets := <["rightLowerLeg"%string := vec3 rightKneeBend 0 0]> offsets in
  let offsets :=
    <["leftUpperArm"%string := vec3 (- legPhaseOffset * armSwing * 0.6) 0 0]> offsets in
  let offsets :=
    <["rightUpperArm"%string := vec3 (- legPhase * armSwing * 0.6) 0 0]> offsets in
  let offsets :=
    <["leftLowerArm"%string := vec3 (Rmax 0 (- legPhaseOffset) * armSwing * 0.3) 0 0]>
      offsets in
  let offsets :=
    <["rightLowerArm"%string := vec3 (Rmax 0 (- legPhase) * armSwing * 0.3) 0 0]> offsets in
  let doubleBounce := Rabs (sin (walkCycle * 2)) in
  let offsets :=
    <["spine"%string :=
        vec3 (bodyBob * 0.5) (legPhase * bodyBob * 0.3) (legPhase * bodyBob * 0.2)]> offsets in
  let offsets :=
    <["chest"%string :=
        vec3 (doubleBounce * bodyBob * 0.2) (- legPhase * bodyBob * 0.2) 0]> offsets in
  let offsets :=
    <["head"%string :=
        vec3 (- doubleBounce * bodyBob * 0.1) (legPhase * bodyBob * 0.1) 0]> offsets in
  let offsets := <["neck"%string := vec3 0 (- legPhase * bodyBob * 0.15) 0]> offsets in
  <["hips"%string := vec3 0 (legPhase * bodyBob * 0.5) (legPhase * bodyBob * 0.3)]> offsets.

(** The common tail of [updateBouncePosition] and [updateFloatPosition]. *)
Definition dampPositionY (targetY smoothTime delta : R) (s : State) : State :=
  match vrm s with
  | Some v =>
      let '(y, vel) :=
        smoothDamp (currentPositionY s) targetY (positionVelocityY s) smoothTime delta None in
      set_vrm (Some {| humanoid := humanoid v; scene := Some y |}) (set_positionY y vel s)
  | None => s
  end.

Definition updateBouncePosition (time amplitude delta : R) (s : State) : State :=
  match v ← vrm s; scene v with
  | None => s
  | Some _ =>
      let bounceValue := Rabs (sin (time * PI * 2)) * amplitude in
      let targetY := at1 (basePosition s) + bounceValue in
      dampPositionY targetY 0.08 delta s
  end.

Definition updateFloatPosition (time amplitude delta : R) (s : State) : State :=
  match v ← vrm s; scene v with
  | None => s
  | Some _ =>
      let floatValue := sin (time * PI * 0.5) * amplitude in
      let targetY := at1 (basePosition s) + floatValue in
      dampPositionY targetY 0.3 delta s
  end.

(** The offsets of the rotating motion types; [None] for bounce and float,
    which move the root instead. *)
Definition motionOffsets (m : BodyMotion) (time amplitude : R) : option (gmap string Vec3) :=
  match type m with
  | MBreathing => Some (calculateBreathingOffsets time amplitude ∅)
  | MSway => Some (calculateSwayOffsets time amplitude ∅)
  | MBounce | MFloat => None
  | MWalk =>
      Some (calculateWalkingOffsets time (default no_params (params m)) (intensity m) ∅)
  | MCustom =>
      let offsets := calculateBreathingOffsets time (amplitude * 0.6) ∅ in
      let offsets := calculateSwayOffsets (time * 0.7) (amplitude * 0.3) offsets in
      Some (calculateHeadMicroMovement time (intensity m) offsets)
  end.

(** The last loop of [updateBodyMotion]: base pose plus offset, for the bones
    with a state, and only when no pose transition is pending. *)
Definition applyOffsets (offsets : gmap string Vec3) (s : State) : State :=
  set_boneStates
    (foldl (fun (states : gmap string BoneState) '(boneName, offset) =>
              let basePoseRotation := default (vec3 0 0 0) (basePose s !! boneName) in
              match states !! boneName, poseTransition s with
              | Some state, None =>
                  <[boneName :=
                      set_target
                        (rot (degToRad (at0 basePoseRotation + at0 offset))
                             (degToRad (at1 basePoseRotation + at1 offset))
                             (degToRad (at2 basePoseRotation + at2 offset))) state]> states
              | _, _ => states
              end)
           (boneStates s) (map_to_list offsets)) s.

Definition is_custom (t : MotionType) : bool :=
  match t with MCustom => true | _ => false end.

(** [this.gestureAnimation?.isPlaying] *)
Definition gesture_playing (s : State) : bool :=
  from_option isPlaying false (gestureAnimation s).

Definition updateBodyMotion (delta : R) (s : State) : State :=
  match currentMotion s, the_humanoid s with
  | Some m, Some _ =>
      if bool_decide (intensity m = 0)
         || (is_custom (type m) && negb (bool_decide (is_Some (params m))))
      then s
      else if gesture_playing s then s
      else
        let time := motionTime s * speed m in
        let amplitude := num_or (p ← params m; amplitude p) 2 * intensity m in
        match type m with
        | MBounce => updateBouncePosition time amplitude delta s
        | MFloat => updateFloatPosition time amplitude delta s
        | _ =>
            match motionOffsets m time amplitude with
            | Some offsets => applyOffsets offsets s
            | None => s
            end
        end
  | _, _ => s
  end.

(** The three [smoothDamp] calls of [applyBoneRotations] on one bone state. *)
Definition dampBone (smoothTime delta : R) (state : BoneState) : BoneState :=
  let '(cx, vx) := smoothDamp (rot_x (current state)) (rot_x (target state))
                     (rot_x (velocity state)) smoothTime delta None in
  let '(cy, vy) := smoothDamp (rot_y (current state)) (rot_y (target state))
                     (rot_y (velocity state)) smoothTime delta None in
  let '(cz, vz) := smoothDamp (rot_z (current state)) (rot_z (target state))
                     (rot_z (velocity state)) smoothTime delta None in
  {| current := rot cx cy cz; target := target state; velocity := rot vx vy vz |}.

Definition applyBoneRotations (delta : R) (s : State) : State :=
  match the_humanoid s with
  | None => s
  | Some h =>
      let '(h, states) :=
        foldl (fun '(h, states) '(boneName, state) =>
                 match BONE_MAP !! boneName with
                 | None => (h, states)
                 | Some vrmBoneName =>
                     match (h : gmap string BoneRotation) !! vrmBoneName with
                     | None => (h, states)
                     | Some _ =>
                         let state := dampBone (smoothTime s) delta state in
                         (<[vrmBoneName := current state]> h,
                          <[boneName := state]> (states : gmap string BoneState))
                     end
                 end)
              (h, boneStates s) (map_to_list (boneStates s)) in
      set_boneStates states (set_humanoid h s)
  end.

Definition update (delta : R) (s : State) : Completion State :=
  match the_humanoid s with
  | None => Normal s
  | Some _ =>
      let s := set_times (motionTime s + delta) (elapsedTime s + delta) s in
      let s := updatePoseTransition s in
      and_then (updateGestureAnimation s) (fun s =>
        let s := updateBodyMotion delta s in
        Normal (applyBoneRotations delta s))
  end.

(** The [fingerBones] table of [applyFingerPose]: finger name, its three
    joints from the palm outwards, and [isThumb]. *)
Definition side_prefix (side : Side) : string :=
  match side with SideLeft => "left" | SideRight => "right" end.

Definition fingerBones (side : Side) : list (string * (list string * bool)) :=
  let prefix := side_prefix side in
  [ ("thumb", ([prefix +:+ "ThumbMetacarpal"; prefix +:+ "ThumbProximal";
                prefix +:+ "ThumbDistal"], true));
    ("index", ([prefix +:+ "IndexProximal"; prefix +:+ "IndexIntermediate";
                prefix +:+ "IndexDistal"], false));
    ("middle", ([prefix +:+ "MiddleProximal"; prefix +:+ "MiddleIntermediate";
                 prefix +:+ "MiddleDistal"], false));
    ("ring", ([prefix +:+ "RingProximal"; prefix +:+ "RingIntermediate";
               prefix +:+ "RingDistal"], false));
    ("pinky", ([prefix +:+ "LittleProximal"; prefix +:+ "LittleIntermediate";
                prefix +:+ "LittleDistal"], false)) ]%string.

Definition curlDistribution (isThumb : bool) : list R :=
  if isThumb then [0.3; 0.4; 0.3] else [0.5; 0.35; 0.15].

(** The assignments to [bone.rotation] for joint [i] of a finger. *)
Definition curlJoint (side : Side) (isThumb : bool) (i : nat) (jointCurl : R)
    (bone : BoneRotation) : BoneRotation :=
  if isThumb then
    match i with
    | O =>
        rot (rot_x bone)
            (match side with SideLeft => jointCurl * 0.5 | SideRight => - jointCurl * 0.5 end)
            (match side with SideLeft => jointCurl * 0.3 | SideRight => - jointCurl * 0.3 end)
    | _ =>
        rot (rot_x bone) (rot_y bone)
            (match side with SideLeft => jointCurl * 0.8 | SideRight => - jointCurl * 0.8 end)
    end
  else rot jointCurl (rot_y bone) (rot_z bone).

Definition applyFinger (side : Side) (bones : list string) (isThumb : bool) (curl : R)
    (h : gmap string BoneRotation) : gmap string BoneRotation :=
  let maxCurl := PI / 2 in
  foldl (fun (h : gmap string BoneRotation) '(i, boneName) =>
           match h !! boneName with
           | Some bone =>
               let jointCurl :=
                 curl * maxCurl * default 0 (curlDistribution isThumb !! i) * 2.5 in
               <[boneName := curlJoint side isThumb i jointCurl bone]> h
           | None => h
           end)
        h (imap (fun i boneName => (i, boneName)) bones).

Definition applyFingerPose (side : Side) (fingers : list (string * option R)) (s : State)
    : State :=
  match the_humanoid s with
  | None => s
  | Some h =>
      let h :=
        foldl (fun (h : gmap string BoneRotation) '(fingerName, curl) =>
                 match curl with
                 | None => h
                 | Some curl =>
                     match (list_to_map (fingerBones side)
                              : gmap string (list string * bool)) !! fingerName with
                     | None => h
                     | Some (bones, isThumb) => applyFinger side bones isThumb curl h
                     end
                 end)
              h fingers in
      set_humanoid h s
  end.

Definition applyHandGesture (g : HandGesture) (s : State) : State :=
  match the_humanoid s with
  | None => s
  | Some _ =>
      let s :=
        match hand g with
        | HandLeft | HandBoth => applyFingerPose SideLeft (fingers g) s
        | HandRight => s
        end in
      match hand g with
      | HandRight | HandBoth => applyFingerPose SideRight (fingers g) s
      | HandLeft => s
      end
  end.

(** The rotation the rig holds for a VRM bone. *)
Definition rig_rotation (s : State) (vrmBoneName : string) : option BoneRotation :=
  h ← the_humanoid s; h !! vrmBoneName.

(** [state.target] of a bone. *)
Definition target_of (s : State) (boneName : string) : option BoneRotation :=
  target <$> boneStates s !! boneName.

(** A name no entry of [BONE_MAP] maps to. *)
Definition outside_BONE_MAP (name : string) : Prop :=
  forall boneName, BONE_MAP !! boneName <> Some name.

(** The first half of a tick: the clock, then the pose transition, then the
    gesture player; [update] continues with the body motion and the damping. *)
Definition tick_prefix (delta : R) (s : State) : Completion State :=
  updateGestureAnimation
    (updatePoseTransition (set_times (motionTime s + delta) (elapsedTime s + delta) s)).

(** The joints of the [fingerBones] table of a hand; the first three are
    the thumb's. *)
Definition finger_joints (side : Side) : list string :=
  flat_map (fun entry : string * (list string * bool) => entry.2.1) (fingerBones side).

Definition non_thumb_joints (side : Side) : list string :=
  flat_map (fun entry : string * (list string * bool) =>
              if entry.2.2 then [] else entry.2.1) (fingerBones side).

(** A joint that is not one of the three thumb joints of [side]. *)
Definition not_thumb_of (side : Side) (joint : string) : Prop :=
  joint ∉ [side_prefix side +:+ "ThumbMetacarpal"; side_prefix side +:+ "ThumbProximal";
           side_prefix side +:+ "ThumbDistal"]%string.

(** The y and z rotations of a rig bone, when the rig has it. *)
Definition yz_of (h : gmap string BoneRotation) (name : string) : option (R * R) :=
  (fun r => (rot_y r, rot_z r)) <$> h !! name.

(** The lower-leg x offsets of the two legs are non-negative. *)
Definition knees_never_bend_backward (time intensity : R) (params : MotionParams) : Prop :=
  forall l r : Vec3,
    calculateWalkingOffsets time params intensity ∅ !! "leftLowerLeg"%string = Some l ->
    calculateWalkingOffsets time params intensity ∅ !! "rightLowerLeg"%string = Some r ->
    at0 l >= 0 /\ at0 r >= 0.

(** A rig with a spine only, and a controller on it: one bone state, the
    subtle breathing motion, and a pose transition started at time [0]. *)
Definition spine_rig : VRM :=
  {| humanoid := Some {["spine"%string := rot 0 0 0]}; scene := None |}.

Definition spine_state : BoneState :=
  {| current := rot 0 0 0; target := rot 0 0 0; velocity := rot 0 0 0 |}.

Definition breathingSubtle : BodyMotion :=
  {| speed := 1; intensity := 0.3; type := MBreathing;
     params := Some {| amplitude := Some 1; strideLength := None; armSwing := None |} |}.

Definition spine_controller : State :=
  {| vrm := Some spine_rig; basePose := DEFAULT_RELAXED_POSE;
     boneStates := {["spine"%string := spine_state]};
     poseTransition := None; currentMotion := Some breathingSubtle;
     gestureAnimation := None;
     motionTime := 0; elapsedTime := 0; basePosition := vec3 0 0 0;
     currentPositionY := 0; positionVelocityY := 0;
     transitionDuration := 0.4; smoothTime := 0.15 |}.

Definition lean_forward : PosePreset :=
  {| pose_id := "lean"; bones := {["spine"%string := vec3 10 0 0]} |}.

(** The nod of the gesture table, and a gesture without keyframes. *)
Definition nod : BodyGesture :=
  {| gesture_id := "nod"; gesture_duration := 600; loop := false;
     keyframes :=
       [ {| time := 0; kf_bones := {["head"%string := vec3 0 0 0]} |};
         {| time := 0.3; kf_bones := {["head"%string := vec3 15 0 0]} |};
         {| time := 0.6; kf_bones := {["head"%string := vec3 (-5) 0 0]} |};
         {| time := 1; kf_bones := {["head"%string := vec3 0 0 0]} |} ] |}.

Definition no_keyframes : BodyGesture :=
  {| gesture_id := "empty"; gesture_duration := 1000; loop := false; keyframes := [] |}.

(** A rig with hips only and the controller [init] builds on it; the
    default base pose does not name the hips. *)
Definition hips_rig : VRM :=
  {| humanoid := Some {["hips"%string := rot 0 0 0]}; scene := None |}.

Definition hips_controller : State :=
  {| vrm := Some hips_rig;
     basePose := DEFAULT_RELAXED_POSE;
     boneStates := {["hips"%string := spine_state]};
     poseTransition := None; currentMotion := None; gestureAnimation := None;
     motionTime := 0; elapsedTime := 0; basePosition := vec3 0 0 0;
     currentPositionY := 0; positionVelocityY := 0;
     transitionDuration := 0.4; smoothTime := 0.15 |}.

(** The transition [applyPose] installs starts every bone that has a bone
    state from that bone's current rotation in degrees. *)
Definition restarts_from_current (pose : PosePreset) (s : State) : Prop :=
  forall boneName state,
    boneStates s !! boneName = Some state ->
    exists tr, poseTransition (applyPose pose s) = Some tr /\
      fromPose tr !! boneName = Some (current_degrees state).

(** The progress [updateGestureAnimation] computes for a playing gesture. *)
Definition gesture_progress (s : State) (ga : GestureAnimation) : R :=
  (elapsedTime s * 1000 - ga_startTime ga) / gesture_duration (gesture ga).

(** The fist of the hand-gesture table, and a controller whose rig also has
    the first joint of the left index finger. *)
Definition fist : HandGesture :=
  {| hand := HandBoth;
     fingers := [ ("thumb", Some 1); ("index", Some 1); ("middle", Some 1);
                  ("ring", Some 1); ("pinky", Some 1) ]%string |}.

Definition finger_controller : State :=
  set_vrm
    (Some {| humanoid := Some (<["leftIndexProximal"%string := rot 0 0 0]>
                                 {["spine"%string := rot 0 0 0]});
             scene := None |})
    spine_controller.

(** *** The remaining methods of the controller *)

Definition setBasePosition (position : Vec3) (s : State) : State :=
  {| vrm := vrm s; basePose := basePose s; boneStates := boneStates s;
     poseTransition := poseTransition s; currentMotion := currentMotion s;
     gestureAnimation := gestureAnimation s; motionTime := motionTime s;
     elapsedTime := elapsedTime s; basePosition := position;
     currentPositionY := currentPositionY s; positionVelocityY := positionVelocityY s;
     transitionDuration := transitionDuration s; smoothTime := smoothTime s |}.

Definition setTransitionDuration (duration : R) (s : State) : State :=
  {| vrm := vrm s; basePose := basePose s; boneStates := boneStates s;
     poseTransition := poseTransition s; currentMotion := currentMotion s;
     gestureAnimation := gestureAnimation s; motionTime := motionTime s;
     elapsedTime := elapsedTime s; basePosition := basePosition s;
     currentPositionY := currentPositionY s; positionVelocityY := positionVelocityY s;
     transitionDuration := duration; smoothTime := smoothTime s |}.

Definition getCurrentPose (s : State) : gmap string Vec3 :=
  foldl (fun (pose : gmap string Vec3) '(boneName, state) =>
           <[boneName := current_degrees state]> pose)
        ∅ (map_to_list (boneStates s)).

Definition dispose (s : State) : State :=
  let s := set_vrm None s in
  let s := set_basePose DEFAULT_RELAXED_POSE s in
  let s := set_currentMotion None s in
  let s := set_gestureAnimation None s in
  let s := set_boneStates ∅ s in
  set_poseTransition None s.

(** [createPoseController]: a new controller. *)
Definition createPoseController : State := fresh.

(** Every bone state rests on its target: [current] is [target] and the
    velocity is zero. *)
Definition at_rest (state : BoneState) : Prop :=
  current state = target state /\ velocity state = rot 0 0 0.

(** The rig shows the bone states: a tracked bone the rig has is rotated as
    its state's [current]. *)
Definition rig_in_sync (s : State) : Prop :=
  forall boneName state vrmBoneName,
    boneStates s !! boneName = Some state ->
    BONE_MAP !! boneName = Some vrmBoneName ->
    is_Some (rig_rotation s vrmBoneName) ->
    rig_rotation s vrmBoneName = Some (current state).

(** The finger joints [applyHandGesture] may write for a hand selector. *)
Definition selected_joints (h : HandSelector) : list string :=
  match h with
  | HandLeft => finger_joints SideLeft
  | HandRight => finger_joints SideRight
  | HandBoth => finger_joints SideLeft ++ finger_joints SideRight
  end.

(** What a tick has no business changing: the base pose, the motion, the
    configuration, and which bones are tracked. *)
Definition same_setup (s' s : State) : Prop :=
  basePose s' = basePose s /\ currentMotion s' = currentMotion s /\
  smoothTime s' = smoothTime s /\ transitionDuration s' = transitionDuration s /\
  basePosition s' = basePosition s /\
  forall b, is_Some (boneStates s' !! b) <-> is_Some (boneStates s !! b).

(** The hands a selector covers. *)
Definition selects (h : HandSelector) (side : Side) : Prop :=
  match h, side with
  | HandLeft, SideLeft | HandRight, SideRight | HandBoth, _ => True
  | _, _ => False
  end.

(** [fingerBones[fingerName]] *)
Definition fingerConfig (side : Side) (fingerName : string) : option (list string * bool) :=
  (list_to_map (fingerBones side) : gmap string (list string * bool)) !! fingerName.

(** [curl * maxCurl * curlDistribution[i] * 2.5] *)
Definition jointCurl (isThumb : bool) (i : nat) (curl : R) : R :=
  curl * (PI / 2) * default 0 (curlDistribution isThumb !! i) * 2.5.

(** *** After a gesture

    The [offsets] record that the motion step of a tick fills in state [s]:
    empty when the step returns before its last loop (no motion, no rig, a
    motion that is switched off, a playing gesture, bounce and float). *)
Definition tick_offsets (s : State) : gmap string Vec3 :=
  match currentMotion s, the_humanoid s with
  | Some m, Some _ =>
      if bool_decide (intensity m = 0)
         || (is_custom (type m) && negb (bool_decide (is_Some (params m))))
      then ∅
      else if gesture_playing s then ∅
      else
        default ∅ (motionOffsets m (motionTime s * speed m)
                     (num_or (p ← params m; amplitude p) 2 * intensity m))
  | _, _ => ∅
  end.

(** Base pose plus [offset], in radians. *)
Definition base_plus (s : State) (boneName : string) (offset : Vec3) : BoneRotation :=
  let basePoseRotation := default (vec3 0 0 0) (basePose s !! boneName) in
  rot (degToRad (at0 basePoseRotation + at0 offset))
      (degToRad (at1 basePoseRotation + at1 offset))
      (degToRad (at2 basePoseRotation + at2 offset)).

(** The target the motion step in state [s] leaves on a bone whose target
    was [old]: base pose plus offset for a bone of [offsets], and [old] for
    every other bone. *)
Definition resumed_target (s : State) (boneName : string) (old : BoneRotation)
    : BoneRotation :=
  match tick_offsets s !! boneName with
  | Some offset => base_plus s boneName offset
  | None => old
  end.

(** The last clause of the boundary rule as the specification words it: in
    the tick after the one that cleared the gesture, every bone that the
    gesture names and the controller tracks has base pose plus motion offset
    as its target, a bone without an offset having the base pose. *)
Definition resumes_after_gesture (g : BodyGesture) (delta : R) (ended : State) : Prop :=
  let resumed := set_times (motionTime ended + delta) (elapsedTime ended + delta) ended in
  forall keyframe boneName,
    keyframe ∈ keyframes g -> is_Some (kf_bones keyframe !! boneName) ->
    is_Some (boneStates ended !! boneName) ->
    target_of (state_of (update delta ended)) boneName =
    Some (base_plus resumed boneName
            (default (vec3 0 0 0) (tick_offsets resumed !! boneName))).

(** A rig with a head, and the controller on it with the subtle breathing
    motion, 0.09 s into the nod. *)
Definition head_rig : VRM :=
  {| humanoid := Some {["head"%string := rot 0 0 0]}; scene := None |}.

Definition head_controller : State :=
  playBodyGesture nod (setBodyMotion breathingSubtle (init head_rig fresh)).

Definition nodding : State := state_of (update 0.09 head_controller).

End PoseController.

(** ** The speech mouth layer *)

Module SpeechMouthLayer.

Import Easing.

Record MouthAnimationConfig := {
  morphTargetName : string;
  smoothing : R;
  threshold : R;
  maxOpen : R;
  sensitivity : R;
}.

Record AnimationContext := {
  ctx_amplitude : R;
  ctx_isPlaying : bool;
}.

(** The face of the rig: the weights of the expression manager by channel
    name, and the morph-target influences of each mesh of the scene by
    morph-target name.  The expression manager belongs to the rig library,
    not to this repository: [setValue] on a channel the manager lacks writes
    nothing, and whether it also raises is the manager's business.
    three-vrm's manager returns silently ([setValueRaises] is [false]); the
    [catch] blocks of the source are written for a manager that raises
    ([setValueRaises] is [true]). *)
Record FaceVRM := {
  expressionManager : option (gmap string R);
  setValueRaises : bool;
  meshes : list (gmap string R);
}.

(** [expressionManager.setValue(name, weight)] on the weights of the rig
    [v]: the new weights, or [None] when the call raises.  (three-vrm's
    manager also saturates the weight to [[0, 1]]; for non-negative time
    steps the weights the layers leave on a channel are within that range.) *)
Definition setValue (v : FaceVRM) (name : string) (weight : R) (weights : gmap string R)
    : option (gmap string R) :=
  match weights !! name with
  | Some _ => Some (<[name := weight]> weights)
  | None => if setValueRaises v then None else Some weights
  end.

Record State := {
  vrm : option FaceVRM;
  enabled : bool;
  currentValue : R;
  velocity : R;
  peakValue : R;
  peakDecay : R;
  config : MouthAnimationConfig;
}.

Definition mouthTargets : list string :=
  [ "mouth_open"; "mouthOpen"; "aa"; "A"; "vrc.v_aa" ]%string.

(** The callback of [scene.traverse] on one mesh: the first known alias
    present in the mesh receives the value. *)
Definition setFirstTarget (value : R) (mesh : gmap string R) : gmap string R :=
  match list_find (fun targetName => is_Some (mesh !! targetName)) mouthTargets with
  | Some (_, targetName) => <[targetName := value]> mesh
  | None => mesh
  end.

Definition applyMorphTargetFallback (value : R) (v : FaceVRM) : FaceVRM :=
  {| expressionManager := expressionManager v;
     setValueRaises := setValueRaises v;
     meshes := setFirstTarget value <$> meshes v |}.

(** The [try] block calls [setValue]; the [catch] block runs the fallback. *)
Definition applyMouthValue (cfg : MouthAnimationConfig) (value : R) (v : FaceVRM) : FaceVRM :=
  match expressionManager v with
  | None => v
  | Some weights =>
      let clampedValue := Rmax 0 (Rmin 1 value) in
      match setValue v (morphTargetName cfg) clampedValue weights with
      | Some weights =>
          {| expressionManager := Some weights;
             setValueRaises := setValueRaises v;
             meshes := meshes v |}
      | None => applyMorphTargetFallback clampedValue v
      end
  end.

(** [targetValue] as [update] computes it.  [Math.pow] of a positive base is
    [Rpower]; the base [normalized] is positive exactly when the threshold is
    below [1] (the amplitude exceeds the threshold on this branch).  For a
    threshold above [1] the base is negative and [Math.pow] returns [NaN]:
    that case is [targetValue_js] below, and every property of [targetValue]
    carries the hypothesis [threshold cfg < 1]. *)
Definition targetValue (cfg : MouthAnimationConfig) (ctx : AnimationContext) : R :=
  if ctx_isPlaying ctx && bool_decide (ctx_amplitude ctx > threshold cfg) then
    let normalized := (ctx_amplitude ctx - threshold cfg) / (1 - threshold cfg) in
    Rmin (Rpower normalized 0.8 * sensitivity cfg) (maxOpen cfg)
  else 0.

Definition easedValue (currentValue : R) : R :=
  if decide (currentValue < 0.5)
  then easeOutQuad (currentValue * 2) / 2
  else 0.5 + easeInQuad ((currentValue - 0.5) * 2) / 2.

Definition update (delta : R) (ctx : AnimationContext) (s : State) : State :=
  match vrm s with
  | None => s
  | Some v =>
      if negb (enabled s) then s
      else
        let cfg := config s in
        let targetValue := targetValue cfg ctx in
        let '(peakValue, peakDecay) :=
          if ctx_isPlaying ctx && bool_decide (ctx_amplitude ctx > threshold cfg)
             && bool_decide (targetValue > peakValue s)
          then (targetValue, 0)
          else (peakValue s, peakDecay s) in
        let peakDecay := peakDecay + delta * 3 in
        let peakValue := Rmax targetValue (peakValue * exp (- peakDecay)) in
        let smoothTime :=
          if decide (targetValue > currentValue s) then smoothing cfg * 0.5
          else if negb (ctx_isPlaying ctx) then smoothing cfg * 1.5
          else smoothing cfg in
        let '(currentValue, velocity) :=
          smoothDamp (currentValue s) targetValue (velocity s) smoothTime delta None in
        {| vrm := Some (applyMouthValue cfg (easedValue currentValue) v);
           enabled := enabled s;
           currentValue := currentValue;
           velocity := velocity;
           peakValue := peakValue;
           peakDecay := peakDecay;
           config := cfg |}
  end.

(** *** The value handed to the rig, on numbers with [NaN]

    A number is [Some x] for a finite [x] and [None] for [NaN]: arithmetic,
    [Math.min] and [Math.max] on [NaN] give [NaN], a comparison with [NaN] is
    [false].  With a threshold other than [1] and a positive time step every
    divisor below is nonzero, so no infinity arises. *)
Definition js_op (f : R -> R -> R) (a b : option R) : option R :=
  a ← a; b ← b; Some (f a b).

Definition js_gt (a b : option R) : bool :=
  match a, b with
  | Some a, Some b => bool_decide (a > b)
  | _, _ => false
  end.

Definition js_lt (a b : option R) : bool :=
  match a, b with
  | Some a, Some b => bool_decide (a < b)
  | _, _ => false
  end.

(** [Math.pow(base, exponent)] for the positive, non-integer [exponent] of
    the source: [NaN] on a negative base. *)
Definition Math_pow (base exponent : R) : option R :=
  if decide (0 < base) then Some (Rpower base exponent)
  else if decide (base = 0) then Some 0
  else None.

Definition targetValue_js (cfg : MouthAnimationConfig) (ctx : AnimationContext)
    : option R :=
  if ctx_isPlaying ctx && bool_decide (ctx_amplitude ctx > threshold cfg) then
    let normalized := (ctx_amplitude ctx - threshold cfg) / (1 - threshold cfg) in
    js_op Rmin (js_op Rmult (Math_pow normalized 0.8) (Some (sensitivity cfg)))
               (Some (maxOpen cfg))
  else Some 0.

(** [smoothDamp] with the default [maxSpeed]: [maxChange] is [Infinity], and
    clamping to it returns [change], or [NaN] for [NaN]. *)
Definition smoothDamp_js (current target velocity : option R) (smoothTime deltaTime : R)
    : option R * option R :=
  let smoothTime := Rmax 0.0001 smoothTime in
  let omega := 2 / smoothTime in
  let x := omega * deltaTime in
  let exp := 1 / (1 + x + 0.48 * x * x + 0.235 * x * x * x) in
  let change := js_op Rminus current target in
  let originalTo := target in
  let target := js_op Rminus current change in
  let temp := js_op Rmult (js_op Rplus velocity (js_op Rmult (Some omega) change))
                          (Some deltaTime) in
  let velocity := js_op Rmult (js_op Rminus velocity (js_op Rmult (Some omega) temp))
                              (Some exp) in
  let output := js_op Rplus target (js_op Rmult (js_op Rplus change temp) (Some exp)) in
  if Bool.eqb (js_gt (js_op Rminus originalTo current) (Some 0)) (js_gt output originalTo)
  then let output := originalTo in
       (output, js_op Rdiv (js_op Rminus output originalTo) (Some deltaTime))
  else (output, velocity).

Definition easedValue_js (currentValue : option R) : option R :=
  if js_lt currentValue (Some 0.5)
  then (fun c => easeOutQuad (c * 2) / 2) <$> currentValue
  else (fun c => 0.5 + easeInQuad ((c - 0.5) * 2) / 2) <$> currentValue.

(** The [clampedValue] that a tick of the enabled layer passes to
    [setValue], from a state of finite numbers. *)
Definition writtenValue_js (delta : R) (ctx : AnimationContext) (s : State) : option R :=
  let cfg := config s in
  let targetValue := targetValue_js cfg ctx in
  let smoothTime :=
    if js_gt targetValue (Some (currentValue s)) then smoothing cfg * 0.5
    else if negb (ctx_isPlaying ctx) then smoothing cfg * 1.5
    else smoothing cfg in
  let '(currentValue, _) :=
    smoothDamp_js (Some (currentValue s)) targetValue (Some (velocity s)) smoothTime delta in
  js_op Rmax (Some 0) (js_op Rmin (Some 1) (easedValue_js currentValue)).

(** The target mouth-open value in the words of the specification. *)
Definition spec_targetValue (amplitude threshold sensitivity maxOpen : R) (isPlaying : bool)
    : R :=
  if isPlaying then
    if decide (amplitude > threshold)
    then Rmin (Rpower ((amplitude - threshold) / (1 - threshold)) 0.8 * sensitivity) maxOpen
    else 0
  else 0.

End SpeechMouthLayer.

(** ** Pose interpolation helpers of easing.ts *)

Module PoseInterpolation.

Import Easing.

Definition interpolateVec3 (from to : Vec3) (t : R) (easing : R -> R) : Vec3 :=
  let easedT := easing (Rmax 0 (Rmin 1 t)) in
  vec3 (at0 from + (at0 to - at0 from) * easedT)
       (at1 from + (at1 to - at1 from) * easedT)
       (at2 from + (at2 to - at2 from) * easedT).

Record Evaluation := { pose : gmap string Vec3; complete : bool }.

(** [new Set([...Object.keys(fromPose), ...Object.keys(toPose)])] *)
Definition allBones (transition : PoseTransition) : list string :=
  remove_dups ((map_to_list (fromPose transition)).*1 ++ (map_to_list (toPose transition)).*1).

Definition evaluatePoseTransition (transition : PoseTransition) (currentTime : R)
    : Evaluation :=
  let elapsed := currentTime - startTime transition in
  let progress := Rmin (elapsed / duration transition) 1 in
  let easedProgress := easing transition progress in
  let result :=
    foldl (fun (result : gmap string Vec3) bone =>
             let from := default (vec3 0 0 0) (fromPose transition !! bone) in
             let to := default (vec3 0 0 0) (toPose transition !! bone) in
             <[bone := vec3 (at0 from + (at0 to - at0 from) * easedProgress)
                            (at1 from + (at1 to - at1 from) * easedProgress)
                            (at2 from + (at2 to - at2 from) * easedProgress)]> result)
          ∅ (allBones transition) in
  {| pose := result; complete := bool_decide (progress >= 1) |}.

End PoseInterpolation.

(** ** applyPoseToVRM of config/poses.ts *)

Module Poses.

Definition boneMapping_entries : list (string * string) :=
  [ ("spine", "spine"); ("chest", "chest"); ("neck", "neck"); ("head", "head");
    ("leftUpperArm", "leftUpperArm"); ("leftLowerArm", "leftLowerArm");
    ("rightUpperArm", "rightUpperArm"); ("rightLowerArm", "rightLowerArm");
    ("leftUpperLeg", "leftUpperLeg"); ("leftLowerLeg", "leftLowerLeg");
    ("rightUpperLeg", "rightUpperLeg"); ("rightLowerLeg", "rightLowerLeg") ]%string.

Definition boneMapping : gmap string string := list_to_map boneMapping_entries.

Definition applyPoseToVRM (vrm : VRM) (pose : PosePreset) : VRM :=
  match humanoid vrm with
  | None => vrm
  | Some h =>
      let h :=
        foldl (fun (h : gmap string BoneRotation) '(boneName, rotation) =>
                 match boneMapping !! boneName with
                 | None => h
                 | Some vrmBoneName =>
                     match h !! vrmBoneName with
                     | Some _ =>
                         <[vrmBoneName := rot (degToRad (at0 rotation))
                                              (degToRad (at1 rotation))
                                              (degToRad (at2 rotation))]> h
                     | None => h
                     end
                 end)
              h (map_to_list (bones pose)) in
      {| humanoid := Some h; scene := scene vrm |}
  end.

End Poses.

(** ** The idle layer: blinking *)

Module IdleBodyLayer.

Import Easing SpeechMouthLayer.

Record State := {
  vrm : option FaceVRM;
  enabled : bool;
  elapsed : R;
  nextBlinkTime : R;
  blinkProgress : R;
  isBlinking : bool;
}.

(** [getNextBlinkTime]; [random] is the value [Math.random()] returns. *)
Definition getNextBlinkTime (random : R) (s : State) : R := elapsed s + 2 + random * 4.

Definition init (v : FaceVRM) (random : R) (s : State) : State :=
  {| vrm := Some v; enabled := enabled s; elapsed := 0;
     nextBlinkTime := 0 + 2 + random * 4;
     blinkProgress := 0; isBlinking := false |}.

(** The nested [try] blocks that write a blink value: [setValue] on the
    combined channel and, when that call raises, on the left and then the
    right one; a call that raises ends the block it is in.  With a manager
    that returns silently the inner block is never entered. *)
Definition setBlink (v : FaceVRM) (value : R) (weights : gmap string R) : gmap string R :=
  match setValue v "blink" value weights with
  | Some weights => weights
  | None =>
      match setValue v "blinkLeft" value weights with
      | None => weights
      | Some weights =>
          match setValue v "blinkRight" value weights with
          | Some weights => weights
          | None => weights
          end
      end
  end.

Definition blinkValue (blinkProgress : R) : R :=
  if decide (blinkProgress < 0.5)
  then easeInQuad (blinkProgress * 2)
  else 1 - easeOutQuad ((blinkProgress - 0.5) * 2).

(** [updateBlink], on the state whose [elapsed] is already advanced. *)
Definition updateBlink (delta random : R) (s : State) : State :=
  match v ← vrm s; weights ← expressionManager v; Some (v, weights) with
  | None => s
  | Some (v, weights) =>
      let '(isBlinking, blinkProgress) :=
        if negb (isBlinking s) && bool_decide (elapsed s >= nextBlinkTime s)
        then (true, 0)
        else (isBlinking s, blinkProgress s) in
      if isBlinking then
        let blinkDuration := 0.15 in
        let blinkProgress := blinkProgress + delta / blinkDuration in
        let weights := setBlink v (blinkValue blinkProgress) weights in
        let finished := bool_decide (blinkProgress >= 1) in
        let weights := if finished then setBlink v 0 weights else weights in
        {| vrm := Some {| expressionManager := Some weights;
                          setValueRaises := setValueRaises v;
                          meshes := meshes v |};
           enabled := enabled s; elapsed := elapsed s;
           nextBlinkTime := if finished then getNextBlinkTime random s else nextBlinkTime s;
           blinkProgress := blinkProgress;
           isBlinking := negb finished |}
      else
        {| vrm := vrm s; enabled := enabled s; elapsed := elapsed s;
           nextBlinkTime := nextBlinkTime s; blinkProgress := blinkProgress;
           isBlinking := isBlinking |}
  end.

Definition update (delta random : R) (s : State) : State :=
  match vrm s with
  | None => s
  | Some _ =>
      if negb (enabled s) then s
      else
        updateBlink delta random
          {| vrm := vrm s; enabled := enabled s; elapsed := elapsed s + delta;
             nextBlinkTime := nextBlinkTime s; blinkProgress := blinkProgress s;
             isBlinking := isBlinking s |}
  end.

Definition dispose (s : State) : State :=
  {| vrm := None; enabled := enabled s; elapsed := 0;
     nextBlinkTime := nextBlinkTime s; blinkProgress := blinkProgress s;
     isBlinking := isBlinking s |}.

(** The weight of the combined blink channel of the rig. *)
Definition blink_weight (s : State) : option R :=
  weights ← (v ← vrm s; expressionManager v);
  weights !! "blink"%string.

End IdleBodyLayer.
(** * Verified properties *)

(** ** The remainder on non-negative numbers *)

Section RemainderFacts.

Lemma Int_part_shift (a : R) : Int_part (a + 1) = (Int_part a + 1)%Z.
Proof.
  symmetry. apply Int_part_spec.
  destruct (base_Int_part a) as [Hle Hgt].
  rewrite plus_IZR. simpl. lra.
Qed.

Lemma Int_part_small (a : R) : 0 <= a < 1 -> Int_part a = 0%Z.
Proof.
  intros [H0 H1]. symmetry. apply Int_part_spec. simpl. lra.
Qed.

Lemma js_rem_one_nonneg (a : R) : 0 <= a -> js_rem a 1 = a - IZR (Int_part a).
Proof.
  intros Ha. unfold js_rem, Rtrunc.
  replace (a / 1) with a by field.
  destruct (decide (0 <= a)); [lra | contradiction].
Qed.

Lemma js_rem_one_shift (a : R) : 0 <= a -> js_rem (a + 1) 1 = js_rem a 1.
Proof.
  intros Ha. rewrite !js_rem_one_nonneg by lra.
  rewrite Int_part_shift, plus_IZR. simpl. lra.
Qed.

End RemainderFacts.

(** ** Easing library *)

Section EasingFacts.

Import Easing.

Lemma overshoots_left (current target output : R) :
  current < target -> overshoots current target output = bool_decide (output > target).
Proof.
  intros H. unfold overshoots.
  rewrite (bool_decide_eq_true_2 (target - current > 0)) by lra.
  by destruct (bool_decide (output > target)).
Qed.

Lemma overshoots_right (current target output : R) :
  current >= target -> overshoots current target output = negb (bool_decide (output > target)).
Proof.
  intros H. unfold overshoots.
  rewrite (bool_decide_eq_false_2 (target - current > 0)) by lra.
  by destruct (bool_decide (output > target)).
Qed.

(** C4. With the default [maxSpeed] (infinity), a positive smoothing time
    and a positive time step, one [smoothDamp] step does not cross the target:
    from below the result is at most the target, from above it is at least
    the target; and whenever the overshoot test fires, the result is the
    target itself and the stored velocity is [(output - target) / deltaTime]. *)
Theorem smoothDamp_no_overshoot (current target velocity smoothTime deltaTime : R) :
  smoothTime > 0 -> deltaTime > 0 ->
  let tentative :=
    (smoothDamp_integrate current target velocity smoothTime deltaTime None).1 in
  let result := smoothDamp current target velocity smoothTime deltaTime None in
  (current < target -> result.1 <= target) /\
  (current > target -> result.1 >= target) /\
  (overshoots current target tentative = true ->
   result.1 = target /\ result.2 = (result.1 - target) / deltaTime).
Proof.
  intros _ _. cbv zeta. unfold smoothDamp.
  destruct (smoothDamp_integrate current target velocity smoothTime deltaTime None)
    as [output vel]. cbn [fst snd].
  repeat split.
  - intros Hlt. rewrite (overshoots_left _ _ _ Hlt).
    case_bool_decide; cbn [fst]; lra.
  - intros Hgt. rewrite overshoots_right by lra.
    case_bool_decide; cbn [negb fst]; lra.
  - by rewrite H.
  - by rewrite H.
Qed.

Lemma smoothDamp_no_overshoot_witness :
  let result := smoothDamp 0 1 0 0.15 (1 / 60) None in
  (0 < 1 -> result.1 <= 1) /\
  (0 > 1 -> result.1 >= 1) /\
  (overshoots 0 1 (smoothDamp_integrate 0 1 0 0.15 (1 / 60) None).1 = true ->
   result.1 = 1 /\ result.2 = (result.1 - 1) / (1 / 60)).
Proof. apply (smoothDamp_no_overshoot 0 1 0 0.15 (1 / 60)); lra. Defined.

Lemma breathingPhase_period (t bpm : R) :
  bpm > 0 -> t >= 0 -> breathingPhase (t + 60 / bpm) bpm = breathingPhase t bpm.
Proof.
  intros Hb Ht. unfold breathingPhase.
  replace ((t + 60 / bpm) * (bpm / 60)) with (t * (bpm / 60) + 1) by (field; lra).
  apply js_rem_one_shift.
  apply Rmult_le_pos; [lra |].
  apply Rlt_le, Rdiv_lt_0_compat; lra.
Qed.

Lemma breathingPhase_at_peak (bpm : R) :
  bpm > 0 -> breathingPhase (0.4 * 60 / bpm) bpm = 0.4.
Proof.
  intros Hb. unfold breathingPhase.
  replace (0.4 * 60 / bpm * (bpm / 60)) with 0.4 by (field; lra).
  rewrite js_rem_one_nonneg by lra.
  rewrite (Int_part_small 0.4) by lra. simpl. lra.
Qed.

(** C6. For a positive breathing rate, [breathingCurve] has period
    [60 / bpm] on non-negative times, is [0] at time [0], and is [1] where the
    phase is [0.4], at time [0.4 * 60 / bpm]. *)
Theorem breathingCurve_period (bpm : R) :
  bpm > 0 ->
  (forall t, t >= 0 -> breathingCurve (t + 60 / bpm) bpm = breathingCurve t bpm) /\
  breathingCurve 0 bpm = 0 /\
  breathingCurve (0.4 * 60 / bpm) bpm = 1.
Proof.
  intros Hb. repeat split.
  - intros t Ht. unfold breathingCurve. by rewrite breathingPhase_period.
  - unfold breathingCurve, breathingPhase.
    rewrite Rmult_0_l, js_rem_one_nonneg by lra.
    rewrite (Int_part_small 0) by lra. simpl.
    rewrite decide_True by lra. unfold easeOutSine.
    replace ((0 - 0) / 0.4 * PI / 2) with 0 by lra. apply sin_0.
  - unfold breathingCurve. rewrite breathingPhase_at_peak by done.
    rewrite decide_False by lra. unfold easeInSine.
    replace ((0.4 - 0.4) / 0.6 * PI / 2) with 0 by lra.
    rewrite cos_0. lra.
Qed.

Lemma breathingCurve_period_witness :
  (forall t, t >= 0 -> breathingCurve (t + 60 / 14) 14 = breathingCurve t 14) /\
  breathingCurve 0 14 = 0 /\
  breathingCurve (0.4 * 60 / 14) 14 = 1.
Proof. apply (breathingCurve_period 14); lra. Defined.

End EasingFacts.

(** ** Walking offsets *)

Section WalkingFacts.

Import PoseController.

#[local] Ltac walk_lookup :=
  unfold calculateWalkingOffsets; cbv zeta;
  repeat (rewrite lookup_insert_ne by discriminate);
  rewrite lookup_insert_eq.

Lemma walking_leftUpperLeg time params intensity offsets :
  calculateWalkingOffsets time params intensity offsets !! "leftUpperLeg"%string =
  Some (vec3 (sin (time * PI * 2) * (num_or (strideLength params) 25 * intensity)) 0 0).
Proof. by walk_lookup. Qed.

Lemma walking_rightUpperLeg time params intensity offsets :
  calculateWalkingOffsets time params intensity offsets !! "rightUpperLeg"%string =
  Some (vec3 (sin (time * PI * 2 + PI) * (num_or (strideLength params) 25 * intensity)) 0 0).
Proof. by walk_lookup. Qed.

Lemma walking_leftLowerLeg time params intensity offsets :
  calculateWalkingOffsets time params intensity offsets !! "leftLowerLeg"%string =
  Some (vec3 (Rmax 0 (sin (time * PI * 2)) * (num_or (strideLength params) 25 * intensity) * 0.8
              + Rmax 0 (sin (time * PI * 2)) * 0.5 * 20) 0 0).
Proof. by walk_lookup. Qed.

Lemma walking_rightLowerLeg time params intensity offsets :
  calculateWalkingOffsets time params intensity offsets !! "rightLowerLeg"%string =
  Some (vec3 (Rmax 0 (sin (time * PI * 2 + PI))
                * (num_or (strideLength params) 25 * intensity) * 0.8
              + Rmax 0 (sin (time * PI * 2 + PI)) * 0.5 * 20) 0 0).
Proof. by walk_lookup. Qed.

(** C7. Whatever the time, the intensity, the walk parameters and the
    offsets computed before, the walking offsets of the two upper legs are
    [[l, 0, 0]] and [[-l, 0, 0]]: opposite on the x axis, equal in magnitude,
    and zero on the y and z axes. *)
Theorem walking_upper_legs_opposite (time intensity : R) (params : MotionParams)
    (offsets : gmap string Vec3) :
  exists l r : Vec3,
    calculateWalkingOffsets time params intensity offsets !! "leftUpperLeg"%string = Some l /\
    calculateWalkingOffsets time params intensity offsets !! "rightUpperLeg"%string = Some r /\
    at0 l = sin (time * PI * 2) * (num_or (strideLength params) 25 * intensity) /\
    at0 r = sin (time * PI * 2 + PI) * (num_or (strideLength params) 25 * intensity) /\
    at0 r = - at0 l /\ Rabs (at0 r) = Rabs (at0 l) /\
    at1 l = 0 /\ at2 l = 0 /\ at1 r = 0 /\ at2 r = 0.
Proof.
  eexists _, _.
  split; [apply walking_leftUpperLeg |].
  split; [apply walking_rightUpperLeg |].
  cbn [at0 at1 at2]. rewrite neg_sin.
  repeat split; try reflexivity; try lra.
  rewrite <- Rabs_Ropp. f_equal. lra.
Qed.

(** A walk motion of intensity [1] whose stride-length parameter is [-25]:
    a quarter of a cycle in, the left knee offset is [-10]. *)
Lemma knee_bends_backward_negative_stride :
  0 <= 1 <= 1 /\
  ~ knees_never_bend_backward (1 / 4) 1
      {| amplitude := None; strideLength := Some (-25); armSwing := None |}.
Proof.
  split; [lra |]. intros H.
  destruct (H _ _ (walking_leftLowerLeg _ _ _ _) (walking_rightLowerLeg _ _ _ _))
    as [Hl _].
  cbn [at0 strideLength num_or] in Hl.
  rewrite decide_False in Hl by lra.
  replace (1 / 4 * PI * 2) with (PI / 2) in Hl by lra.
  rewrite sin_PI2 in Hl.
  rewrite Rmax_right in Hl by lra. lra.
Qed.

(** C9 (amended). For an intensity in [[0, 1]] and a stride-length parameter
    that is absent or non-negative, the lower-leg x offsets of both legs are
    non-negative at every time. *)
Theorem knees_never_bend_backward_nonneg_stride (time intensity : R)
    (params : MotionParams) :
  0 <= intensity <= 1 ->
  from_option (fun stride => 0 <= stride) True (strideLength params) ->
  knees_never_bend_backward time intensity params.
Proof.
  intros [Hi _] Hs l r.
  rewrite walking_leftLowerLeg, walking_rightLowerLeg.
  intros [= <-] [= <-]. cbn [at0].
  assert (0 <= num_or (strideLength params) 25 * intensity) as Hstride.
  { apply Rmult_le_pos; [| done]. unfold num_or.
    destruct (strideLength params) as [v|]; [| lra].
    cbn in Hs. case_decide; lra. }
  set (stride := num_or (strideLength params) 25 * intensity) in *.
  pose proof (Rmax_l 0 (sin (time * PI * 2))) as Hl.
  pose proof (Rmax_l 0 (sin (time * PI * 2 + PI))) as Hr.
  split; apply Rle_ge.
  - apply Rplus_le_le_0_compat; [| lra].
    apply Rmult_le_pos; [| lra]. by apply Rmult_le_pos.
  - apply Rplus_le_le_0_compat; [| lra].
    apply Rmult_le_pos; [| lra]. by apply Rmult_le_pos.
Qed.

Lemma knees_never_bend_backward_nonneg_stride_witness :
  knees_never_bend_backward (1 / 4) 0.7
    {| amplitude := Some 3; strideLength := Some 25; armSwing := Some 30 |}.
Proof.
  apply knees_never_bend_backward_nonneg_stride; [lra | cbn; lra].
Defined.

End WalkingFacts.

(** ** Speech mouth layer *)

Section MouthFacts.

Import Easing SpeechMouthLayer.

Lemma targetValue_spec (cfg : MouthAnimationConfig) (ctx : AnimationContext) :
  targetValue cfg ctx =
  spec_targetValue (ctx_amplitude ctx) (threshold cfg) (sensitivity cfg) (maxOpen cfg)
    (ctx_isPlaying ctx).
Proof.
  unfold targetValue, spec_targetValue.
  destruct (ctx_isPlaying ctx); cbn [andb]; [| done].
  by case_bool_decide; [rewrite decide_True | rewrite decide_False].
Qed.

Lemma clamp_unit (value : R) : 0 <= Rmax 0 (Rmin 1 value) <= 1.
Proof.
  split; [apply Rmax_l |].
  apply Rmax_lub; [lra | apply Rmin_l].
Qed.

Lemma setFirstTarget_lookup (value : R) (mesh : gmap string R) (n : string) (x : R) :
  setFirstTarget value mesh !! n = Some x -> mesh !! n = Some x \/ x = value.
Proof.
  unfold setFirstTarget.
  destruct (list_find _ mouthTargets) as [[i targetName]|]; [| by left].
  destruct (decide (targetName = n)) as [->|Hne].
  - rewrite lookup_insert_eq. intros [= <-]. by right.
  - rewrite lookup_insert_ne by done. by left.
Qed.

(** What [applyMouthValue] leaves in the rig: every weight and every
    influence is the one that was there or the clamped value. *)
Lemma applyMouthValue_writes (cfg : MouthAnimationConfig) (value : R) (v : FaceVRM) :
  let written := Rmax 0 (Rmin 1 value) in
  let v' := applyMouthValue cfg value v in
  (forall w', expressionManager v' = Some w' ->
     exists w, expressionManager v = Some w /\
       forall n x, w' !! n = Some x -> w !! n = Some x \/ x = written) /\
  (forall i m', meshes v' !! i = Some m' ->
     exists m, meshes v !! i = Some m /\
       forall n x, m' !! n = Some x -> m !! n = Some x \/ x = written) /\
  (forall w, expressionManager v = Some w -> is_Some (w !! morphTargetName cfg) ->
     (w' ← expressionManager v'; w' !! morphTargetName cfg) = Some written).
Proof.
  cbv zeta. unfold applyMouthValue, setValue.
  destruct (expressionManager v) as [w|] eqn:Hw.
  - destruct (w !! morphTargetName cfg) as [old|] eqn:Hold;
      [| destruct (setValueRaises v)].
    + cbn [expressionManager meshes]. repeat split.
      * intros w' [= <-]. exists w. split; [done |]. intros n x.
        destruct (decide (morphTargetName cfg = n)) as [<-|Hne].
        -- rewrite lookup_insert_eq. intros [= <-]. by right.
        -- rewrite lookup_insert_ne by done. by left.
      * intros i m' Hm'. exists m'. split; [done |]. intros n x Hx. by left.
      * intros w0 [= <-] _. cbn. by rewrite lookup_insert_eq.
    + unfold applyMorphTargetFallback. cbn [expressionManager meshes]. repeat split.
      * intros w' Hw'. exists w. rewrite Hw in Hw'. injection Hw' as <-.
        split; [done |]. intros n x Hx. by left.
      * intros i m'. rewrite list_lookup_fmap.
        destruct (meshes v !! i) as [m|]; [| done]. cbn. intros [= <-].
        exists m. split; [done |]. apply setFirstTarget_lookup.
      * intros w0 [= <-] [? Hsome]. congruence.
    + cbn [expressionManager meshes]. repeat split.
      * intros w' [= <-]. exists w. split; [done |]. intros n x Hx. by left.
      * intros i m' Hm'. exists m'. split; [done |]. intros n x Hx. by left.
      * intros w0 [= <-] [? Hsome]. congruence.
  - repeat split.
    + intros w'. rewrite Hw. done.
    + intros i m' Hm'. exists m'. split; [done |]. intros n x Hx. by left.
    + intros w0 [=].
Qed.

(** On finite numbers and below the unit threshold the reading with [NaN]
    is the real-valued one. *)
Lemma targetValue_js_finite (cfg : MouthAnimationConfig) (ctx : AnimationContext) :
  threshold cfg < 1 -> targetValue_js cfg ctx = Some (targetValue cfg ctx).
Proof.
  intros Hth. unfold targetValue_js, targetValue.
  destruct (ctx_isPlaying ctx); cbn [andb]; [| done].
  case_bool_decide as Ha; [| done]. cbv zeta.
  assert (0 < (ctx_amplitude ctx - threshold cfg) / (1 - threshold cfg)) as Hpos.
  { apply Rdiv_lt_0_compat; lra. }
  unfold Math_pow. by rewrite decide_True.
Qed.

Lemma smoothDamp_js_finite (current target velocity smoothTime deltaTime : R) :
  smoothDamp_js (Some current) (Some target) (Some velocity) smoothTime deltaTime =
  (Some (smoothDamp current target velocity smoothTime deltaTime None).1,
   Some (smoothDamp current target velocity smoothTime deltaTime None).2).
Proof.
  unfold smoothDamp_js, smoothDamp, smoothDamp_integrate, overshoots, js_op, js_gt.
  cbn [mbind option_bind]. cbv zeta.
  by destruct (Bool.eqb _ _).
Qed.

Lemma easedValue_js_finite (currentValue : R) :
  easedValue_js (Some currentValue) = Some (easedValue currentValue).
Proof.
  unfold easedValue_js, easedValue, js_lt.
  case_bool_decide; [by rewrite decide_True | by rewrite decide_False].
Qed.

Lemma writtenValue_js_finite (delta : R) (ctx : AnimationContext) (s : State)
    (v : FaceVRM) :
  vrm s = Some v -> enabled s = true -> threshold (config s) < 1 ->
  writtenValue_js delta ctx s =
  Some (Rmax 0 (Rmin 1 (easedValue (currentValue (update delta ctx s))))).
Proof.
  intros Hv He Hth. unfold writtenValue_js. cbv zeta.
  rewrite targetValue_js_finite by done.
  unfold update. rewrite Hv, He. cbn [negb].
  set (tv := targetValue (config s) ctx).
  assert ((if js_gt (Some tv) (Some (currentValue s)) then smoothing (config s) * 0.5
           else if negb (ctx_isPlaying ctx) then smoothing (config s) * 1.5
                else smoothing (config s)) =
          (if decide (tv > currentValue s) then smoothing (config s) * 0.5
           else if negb (ctx_isPlaying ctx) then smoothing (config s) * 1.5
                else smoothing (config s))) as ->.
  { unfold js_gt. case_bool_decide; [by rewrite decide_True | by rewrite decide_False]. }
  set (st := if decide (tv > currentValue s) then _ else _).
  rewrite smoothDamp_js_finite.
  destruct (ctx_isPlaying ctx && bool_decide (ctx_amplitude ctx > threshold (config s))
            && bool_decide (tv > peakValue s)).
  all: destruct (smoothDamp (currentValue s) tv (velocity s) st delta None) as [c vel].
  all: cbn [currentValue fst snd].
  all: by rewrite easedValue_js_finite.
Qed.




End MouthFacts.

(** ** Loops over the entries of an object *)

Section EntryLoops.

Context {A : Type}.

(** A loop whose body rewrites the state of the entry's bone, when the bone
    has one, touches each bone once. *)
Lemma foldl_entries_lookup
    (step : gmap string BoneState -> string * A -> gmap string BoneState)
    (g : string -> A -> BoneState -> BoneState) (l : list (string * A)) :
  (forall states k a,
     step states (k, a) =
     match states !! k with Some st => <[k := g k a st]> states | None => states end) ->
  NoDup l.*1 ->
  forall (states : gmap string BoneState) (b : string),
    foldl step states l !! b =
    match (list_to_map l : gmap string A) !! b with
    | Some a => g b a <$> states !! b
    | None => states !! b
    end.
Proof.
  intros Hstep. induction l as [|[k a] l IH]; intros Hnd states b.
  - done.
  - apply NoDup_cons in Hnd as [Hk Hnd]. cbn [foldl].
    rewrite IH by done. rewrite Hstep. cbn [list_to_map foldr uncurry].
    destruct (decide (k = b)) as [->|Hne].
    + rewrite lookup_insert_eq.
      rewrite (not_elem_of_list_to_map_1 l b Hk).
      destruct (states !! b) as [st|] eqn:Hb; [by rewrite lookup_insert_eq | by rewrite Hb].
    + rewrite (lookup_insert_ne _ k b) by done.
      destruct (states !! k) as [st|]; [by rewrite lookup_insert_ne | done].
Qed.

Lemma entries_lookup
    (step : gmap string BoneState -> string * A -> gmap string BoneState)
    (g : string -> A -> BoneState -> BoneState) (m : gmap string A) :
  (forall states k a,
     step states (k, a) =
     match states !! k with Some st => <[k := g k a st]> states | None => states end) ->
  forall (states : gmap string BoneState) (b : string),
    foldl step states (map_to_list m) !! b =
    match m !! b with
    | Some a => g b a <$> states !! b
    | None => states !! b
    end.
Proof.
  intros Hstep states b.
  rewrite (foldl_entries_lookup step g _ Hstep (NoDup_fst_map_to_list m)).
  by rewrite list_to_map_to_list.
Qed.

(** A property of the accumulator that every iteration keeps holds after
    the loop. *)
Lemma foldl_invariant {S : Type} (P : S -> Prop) (step : S -> A -> S) (l : list A) :
  (forall acc x, x ∈ l -> P acc -> P (step acc x)) ->
  forall acc, P acc -> P (foldl step acc l).
Proof.
  induction l as [|x l IH]; intros Hstep acc Hacc; [done |].
  cbn [foldl]. apply IH.
  - intros acc' y Hy. apply Hstep. by right.
  - apply Hstep; [by left | done].
Qed.

End EntryLoops.

(** ** The pose controller: what each step of a tick may change *)

Section ControllerFrames.

Import Easing PoseController.

Lemma write_targets_lookup (fromMap toMap : gmap string Vec3) (t : R)
    (states : gmap string BoneState) (b : string) :
  write_targets fromMap toMap t states !! b =
  match toMap !! b with
  | Some toRotation =>
      set_target (lerp_target (default (vec3 0 0 0) (fromMap !! b)) toRotation t)
        <$> states !! b
  | None => states !! b
  end.
Proof.
  unfold write_targets.
  by rewrite (entries_lookup _
    (fun k a st => set_target (lerp_target (default (vec3 0 0 0) (fromMap !! k)) a t) st)).
Qed.

Lemma applyOffsets_boneStates_pending (offsets : gmap string Vec3) (s : State) :
  is_Some (poseTransition s) -> boneStates (applyOffsets offsets s) = boneStates s.
Proof.
  intros [tr Htr]. unfold applyOffsets, set_boneStates. cbn [boneStates]. rewrite Htr.
  apply map_eq. intros b.
  rewrite (entries_lookup _ (fun _ _ st => st)).
  - destruct (offsets !! b); [| done]. by destruct (boneStates s !! b).
  - intros states k a. destruct (states !! k) as [st|] eqn:Hk; [| done].
    by rewrite insert_id.
Qed.

Lemma applyOffsets_lookup (offsets : gmap string Vec3) (s : State) (b : string) :
  poseTransition s = None ->
  boneStates (applyOffsets offsets s) !! b =
  match offsets !! b with
  | Some offset =>
      let basePoseRotation := default (vec3 0 0 0) (basePose s !! b) in
      set_target (rot (degToRad (at0 basePoseRotation + at0 offset))
                      (degToRad (at1 basePoseRotation + at1 offset))
                      (degToRad (at2 basePoseRotation + at2 offset)))
        <$> boneStates s !! b
  | None => boneStates s !! b
  end.
Proof.
  intros Htr. unfold applyOffsets, set_boneStates. cbn [boneStates]. rewrite Htr.
  by rewrite (entries_lookup _
    (fun k offset st =>
       set_target (rot (degToRad (at0 (default (vec3 0 0 0) (basePose s !! k)) + at0 offset))
                       (degToRad (at1 (default (vec3 0 0 0) (basePose s !! k)) + at1 offset))
                       (degToRad (at2 (default (vec3 0 0 0) (basePose s !! k)) + at2 offset)))
         st)).
Qed.

(** The guard on gesture playback: the motion step returns before anything
    is computed. *)
Lemma updateBodyMotion_gesture_guard (delta : R) (s : State) :
  gesture_playing s = true -> updateBodyMotion delta s = s.
Proof.
  intros Hg. unfold updateBodyMotion.
  destruct (currentMotion s) as [m|]; [| done].
  destruct (the_humanoid s); [| done].
  rewrite Hg. by destruct (_ || _).
Qed.

(** The guard on a pending pose transition: the computed offsets reach no
    bone state. *)
Lemma updateBodyMotion_transition_guard (delta : R) (s : State) :
  is_Some (poseTransition s) -> boneStates (updateBodyMotion delta s) = boneStates s.
Proof.
  intros Htr. unfold updateBodyMotion.
  destruct (currentMotion s) as [m|]; [| done].
  destruct (the_humanoid s); [| done].
  destruct (_ || _); [done |].
  destruct (gesture_playing s); [done |].
  unfold updateBouncePosition, updateFloatPosition, dampPositionY.
  destruct (type m) eqn:Hty; unfold motionOffsets; rewrite ?Hty;
    try (by apply applyOffsets_boneStates_pending);
    destruct (vrm s) as [v|]; cbn [mbind option_bind]; try done;
    destruct (scene v); try done; by destruct (smoothDamp _ _ _ _ _ _).
Qed.

Lemma dampPositionY_frame (targetY st delta : R) (s : State) :
  let s' := dampPositionY targetY st delta s in
  poseTransition s' = poseTransition s /\ gestureAnimation s' = gestureAnimation s /\
  boneStates s' = boneStates s /\ the_humanoid s' = the_humanoid s /\
  basePose s' = basePose s.
Proof.
  cbv zeta. unfold dampPositionY, the_humanoid.
  destruct (vrm s) as [v|] eqn:Hv; [| by rewrite Hv].
  by destruct (smoothDamp _ _ _ _ _ _).
Qed.

Lemma updateBodyMotion_frame (delta : R) (s : State) :
  let s' := updateBodyMotion delta s in
  poseTransition s' = poseTransition s /\ gestureAnimation s' = gestureAnimation s /\
  the_humanoid s' = the_humanoid s /\ basePose s' = basePose s.
Proof.
  cbv zeta. unfold updateBodyMotion.
  destruct (currentMotion s) as [m|]; [| done].
  destruct (the_humanoid s) eqn:Hh; [| done].
  destruct (_ || _); [done |].
  destruct (gesture_playing s); [done |].
  unfold updateBouncePosition, updateFloatPosition.
  destruct (type m) eqn:Hty; unfold motionOffsets; rewrite ?Hty; try done;
    destruct (_ ← vrm s; _); try done;
    match goal with
    | |- context [dampPositionY ?a ?b ?c s] =>
        destruct (dampPositionY_frame a b c s) as (? & ? & ? & ? & ?)
    end; repeat split; congruence.
Qed.

End ControllerFrames.

Section DampingFrames.

Import Easing PoseController.

Lemma dampBone_target (st delta : R) (state : BoneState) :
  target (dampBone st delta state) = target state.
Proof.
  unfold dampBone. by repeat destruct (smoothDamp _ _ _ _ _ _).
Qed.

(** The damping loop of [applyBoneRotations]: the targets stay, and the rig
    changes only at bones of [BONE_MAP]. *)
Lemma applyBoneRotations_loop (delta : R) (s : State) (h : gmap string BoneRotation) :
  let step := fun '(h, states) '(boneName, state) =>
    match BONE_MAP !! boneName with
    | None => (h, states)
    | Some vrmBoneName =>
        match (h : gmap string BoneRotation) !! vrmBoneName with
        | None => (h, states)
        | Some _ =>
            let state := dampBone (smoothTime s) delta state in
            (<[vrmBoneName := current state]> h,
             <[boneName := state]> (states : gmap string BoneState))
        end
    end in
  let result := foldl step (h, boneStates s) (map_to_list (boneStates s)) in
  (forall b, target <$> result.2 !! b = target <$> boneStates s !! b) /\
  (forall name, outside_BONE_MAP name -> result.1 !! name = h !! name).
Proof.
  cbv zeta.
  apply (foldl_invariant
    (fun acc : gmap string BoneRotation * gmap string BoneState =>
       (forall b, target <$> acc.2 !! b = target <$> boneStates s !! b) /\
       (forall name, outside_BONE_MAP name -> acc.1 !! name = h !! name))); [| done].
  intros [h' states] [boneName state] Hin [Htargets Hrig].
  apply elem_of_map_to_list in Hin.
  destruct (BONE_MAP !! boneName) as [vrmBoneName|] eqn:Hmap; [| done].
  destruct (h' !! vrmBoneName); [| done].
  cbn [fst snd] in *. split.
  - intros bn. destruct (decide (boneName = bn)) as [<-|Hne].
    + by rewrite lookup_insert_eq, Hin; cbn; rewrite dampBone_target.
    + by rewrite lookup_insert_ne.
  - intros name Hout. rewrite lookup_insert_ne; [by apply Hrig |].
    intros ->. by apply (Hout boneName).
Qed.

Lemma the_humanoid_set_humanoid (h h' : gmap string BoneRotation) (s : State) :
  the_humanoid s = Some h -> the_humanoid (set_humanoid h' s) = Some h'.
Proof.
  unfold the_humanoid, set_humanoid.
  destruct (vrm s) as [v|]; [done | by intros [=]].
Qed.

Lemma set_humanoid_frame (h' : gmap string BoneRotation) (s : State) :
  let s' := set_humanoid h' s in
  poseTransition s' = poseTransition s /\ gestureAnimation s' = gestureAnimation s /\
  boneStates s' = boneStates s /\ basePose s' = basePose s.
Proof. cbv zeta. unfold set_humanoid. by destruct (vrm s). Qed.

Lemma applyBoneRotations_frame (delta : R) (s : State) :
  let s' := applyBoneRotations delta s in
  poseTransition s' = poseTransition s /\ gestureAnimation s' = gestureAnimation s /\
  basePose s' = basePose s /\
  (forall b, target_of s' b = target_of s b) /\
  (forall name, outside_BONE_MAP name -> rig_rotation s' name = rig_rotation s name).
Proof.
  cbv zeta. unfold applyBoneRotations, target_of, rig_rotation.
  destruct (the_humanoid s) as [h|] eqn:Hh; [| by rewrite Hh].
  pose proof (applyBoneRotations_loop delta s h) as Hloop. cbv zeta in Hloop.
  destruct (foldl _ _ _) as [h' states]. cbn [fst snd] in Hloop.
  destruct Hloop as [Htargets Hrig].
  destruct (set_humanoid_frame h' s) as (Ht & Hg & _ & Hb).
  cbn [poseTransition gestureAnimation basePose boneStates set_boneStates].
  repeat split; try done.
  intros name Hout.
  change (the_humanoid (set_boneStates states (set_humanoid h' s)))
    with (the_humanoid (set_humanoid h' s)).
  rewrite (the_humanoid_set_humanoid h h' s Hh). cbn. by apply Hrig.
Qed.

Lemma updatePoseTransition_humanoid (s : State) :
  the_humanoid (updatePoseTransition s) = the_humanoid s.
Proof.
  unfold updatePoseTransition.
  destruct (poseTransition s); [| done].
  destruct (the_humanoid s) eqn:Hh; [| done].
  by case_decide.
Qed.

Lemma interpolateKeyframes_humanoid (g : BodyGesture) (progress : R) (s : State) :
  the_humanoid (state_of (interpolateKeyframes g progress s)) = the_humanoid s.
Proof.
  unfold interpolateKeyframes.
  destruct (find_bracket progress (keyframes g)) as [[p n]|]; [done |].
  destruct (keyframes g !! 1%nat); destruct (keyframes g !! 0%nat); done.
Qed.

Lemma updateGestureAnimation_humanoid (s : State) :
  the_humanoid (state_of (updateGestureAnimation s)) = the_humanoid s.
Proof.
  unfold updateGestureAnimation.
  destruct (gestureAnimation s) as [ga|]; [| done].
  destruct (the_humanoid s) eqn:Hh; [| done].
  destruct (isPlaying ga); cbn [negb]; [| done].
  case_decide; [destruct (loop (gesture ga)) |];
    by rewrite ?interpolateKeyframes_humanoid.
Qed.

(** A tick moves no bone of the rig outside [BONE_MAP], whether it returns
    or raises. *)
Lemma update_rig_frame (delta : R) (s : State) (name : string) :
  outside_BONE_MAP name ->
  rig_rotation (state_of (update delta s)) name = rig_rotation s name.
Proof.
  intros Hout. unfold update.
  destruct (the_humanoid s) as [h|] eqn:Hh; [| done].
  set (s0 := set_times _ _ s).
  assert (the_humanoid s0 = the_humanoid s) as H0 by done.
  pose proof (updatePoseTransition_humanoid s0) as H1.
  pose proof (updateGestureAnimation_humanoid (updatePoseTransition s0)) as H2.
  destruct (updateGestureAnimation (updatePoseTransition s0)) as [s2|s2];
    cbn [and_then state_of] in *.
  - destruct (applyBoneRotations_frame delta (updateBodyMotion delta s2))
      as (_ & _ & _ & _ & Hrig).
    rewrite (Hrig name Hout). unfold rig_rotation.
    destruct (updateBodyMotion_frame delta s2) as (_ & _ & -> & _). congruence.
  - unfold rig_rotation. congruence.
Qed.

End DampingFrames.

(** ** Priority of transitions and gestures over continuous motion *)

Section MotionPriority.

Import Easing PoseController.

Lemma updatePoseTransition_frame (s : State) :
  let s' := updatePoseTransition s in
  gestureAnimation s' = gestureAnimation s /\ elapsedTime s' = elapsedTime s /\
  currentMotion s' = currentMotion s /\ basePose s' = basePose s /\
  motionTime s' = motionTime s.
Proof.
  cbv zeta. unfold updatePoseTransition.
  destruct (poseTransition s); [| done].
  destruct (the_humanoid s); [| done].
  by case_decide.
Qed.

Lemma updatePoseTransition_pending (s : State) (tr : PoseTransition) :
  poseTransition s = Some tr -> is_Some (the_humanoid s) ->
  (elapsedTime s - startTime tr) / duration tr < 1 ->
  poseTransition (updatePoseTransition s) = Some tr.
Proof.
  intros Htr [h Hh] Hlt. unfold updatePoseTransition. rewrite Htr, Hh.
  rewrite decide_False; [done |].
  rewrite Rmin_left by lra. lra.
Qed.

Lemma updateGestureAnimation_idle (s : State) :
  gestureAnimation s = None -> updateGestureAnimation s = Normal s.
Proof. intros Hg. unfold updateGestureAnimation. by rewrite Hg. Qed.

Lemma update_unfold (delta : R) (s : State) :
  is_Some (the_humanoid s) ->
  update delta s =
  and_then (tick_prefix delta s)
    (fun s => Normal (applyBoneRotations delta (updateBodyMotion delta s))).
Proof. intros [h Hh]. unfold update, tick_prefix. by rewrite Hh. Qed.

(** C2. In every controller state, the body-motion step of a tick applies
    no offset while a gesture is playing (it returns before computing any)
    or while a pose transition is pending (no bone state is written).  Hence
    in a tick whose transition or gesture is still active when that step
    runs, every bone target at the end of the tick is the one the transition
    and gesture steps left. *)
Theorem motion_suspended_by_transition_or_gesture (delta : R) (s : State) :
  (gesture_playing s = true -> updateBodyMotion delta s = s) /\
  (is_Some (poseTransition s) ->
   boneStates (updateBodyMotion delta s) = boneStates s) /\
  (forall s1, is_Some (the_humanoid s) -> tick_prefix delta s = Normal s1 ->
     is_Some (poseTransition s1) \/ gesture_playing s1 = true ->
     exists s', update delta s = Normal s' /\
       poseTransition s' = poseTransition s1 /\
       gestureAnimation s' = gestureAnimation s1 /\
       forall b, target_of s' b = target_of s1 b).
Proof.
  split; [apply updateBodyMotion_gesture_guard |].
  split; [apply updateBodyMotion_transition_guard |].
  intros s1 Hh Hpre Hactive.
  rewrite (update_unfold _ _ Hh), Hpre. cbn [and_then].
  eexists. split; [reflexivity |].
  destruct (applyBoneRotations_frame delta (updateBodyMotion delta s1))
    as (Ht & Hg & _ & Htargets & _).
  destruct (updateBodyMotion_frame delta s1) as (Ht' & Hg' & _ & _).
  split; [congruence |]. split; [congruence |].
  intros b. rewrite Htargets. unfold target_of.
  destruct Hactive as [Hactive | Hactive].
  - by rewrite (updateBodyMotion_transition_guard _ _ Hactive).
  - by rewrite (updateBodyMotion_gesture_guard _ _ Hactive).
Qed.

Lemma spine_transition_pending :
  let s := applyPose lean_forward spine_controller in
  exists s1, tick_prefix (1 / 10) s = Normal s1 /\ is_Some (poseTransition s1).
Proof.
  cbv zeta. unfold tick_prefix.
  set (s0 := set_times _ _ _).
  assert (exists tr, poseTransition s0 = Some tr /\ startTime tr = 0 /\ duration tr = 0.4)
    as (tr & Htr & Hstart & Hdur) by (eexists; split; [reflexivity | done]).
  assert (poseTransition (updatePoseTransition s0) = Some tr) as Hpending.
  { apply updatePoseTransition_pending; [done | by eexists |].
    rewrite Hstart, Hdur. cbn [s0 elapsedTime set_times].
    replace (elapsedTime (applyPose lean_forward spine_controller)) with 0 by done.
    lra. }
  eexists. split.
  - apply updateGestureAnimation_idle.
    by destruct (updatePoseTransition_frame s0) as (-> & _).
  - by rewrite Hpending.
Qed.

Lemma motion_suspended_by_transition_or_gesture_witness :
  let s := applyPose lean_forward spine_controller in
  exists s1 s', tick_prefix (1 / 10) s = Normal s1 /\
    is_Some (poseTransition s1) /\
    update (1 / 10) s = Normal s' /\
    forall b, target_of s' b = target_of s1 b.
Proof.
  cbv zeta.
  destruct spine_transition_pending as (s1 & Hpre & Hpending).
  destruct (proj2 (proj2 (motion_suspended_by_transition_or_gesture (1 / 10)
              (applyPose lean_forward spine_controller))) s1)
    as (s' & Hupd & _ & _ & Htargets); [by eexists | done | by left |].
  by exists s1, s'.
Defined.

End MotionPriority.

(** ** Finger joints *)

Section FingerFacts.

Import Easing PoseController.

Lemma BONE_MAP_values (boneName vrmBoneName : string) :
  BONE_MAP !! boneName = Some vrmBoneName -> vrmBoneName ∈ BONE_MAP_entries.*2.
Proof.
  intros H. apply elem_of_list_to_map_2 in H.
  apply list_elem_of_fmap. by exists (boneName, vrmBoneName).
Qed.

Lemma finger_joints_outside (side : Side) :
  Forall (fun joint => (joint ∉ BONE_MAP_entries.*2) /\ BONE_MAP !! joint = None)
    (finger_joints side).
Proof.
  rewrite Forall_forall. intros joint Hin. split.
  - destruct side; cbn in Hin; set_unfold in Hin;
      repeat destruct Hin as [-> | Hin]; try done;
      apply (bool_decide_unpack _); by vm_compute.
  - destruct side; cbn in Hin; set_unfold in Hin;
      repeat destruct Hin as [-> | Hin]; try done; by vm_compute.
Qed.

Lemma non_thumb_not_thumb (side side' : Side) (joint : string) :
  joint ∈ non_thumb_joints side -> not_thumb_of side' joint.
Proof.
  intros Hin. unfold not_thumb_of.
  destruct side, side'; cbn in Hin; set_unfold in Hin;
    repeat destruct Hin as [-> | Hin]; try done;
    apply (bool_decide_unpack _); by vm_compute.
Qed.

Lemma applyFinger_yz (side : Side) (bones : list string) (isThumb : bool) (curl : R)
    (h : gmap string BoneRotation) (joint : string) :
  (isThumb = true -> joint ∉ bones) ->
  yz_of (applyFinger side bones isThumb curl h) joint = yz_of h joint.
Proof.
  intros Hthumb. unfold applyFinger.
  apply (foldl_invariant (fun acc => yz_of acc joint = yz_of h joint)); [| done].
  intros acc [i boneName] Hin Hacc.
  destruct (acc !! boneName) as [bone|] eqn:Hbone; [| done].
  rewrite <- Hacc. unfold yz_of.
  destruct (decide (boneName = joint)) as [->|Hne]; [| by rewrite lookup_insert_ne].
  rewrite lookup_insert_eq, Hbone. cbn.
  destruct isThumb; [| done].
  exfalso. apply Hthumb; [done |].
  apply list_elem_of_lookup_2 with i.
  apply list_elem_of_lookup in Hin as [n Hn].
  rewrite list_lookup_imap in Hn.
  destruct (bones !! n) eqn:Hb; cbn in Hn; [| done]. by injection Hn as -> ->.
Qed.

Lemma fingerBones_thumb (side : Side) (fingerName : string) (bones : list string) :
  (list_to_map (fingerBones side) : gmap string (list string * bool)) !! fingerName
    = Some (bones, true) ->
  bones = [side_prefix side +:+ "ThumbMetacarpal"; side_prefix side +:+ "ThumbProximal";
           side_prefix side +:+ "ThumbDistal"]%string.
Proof.
  intros H. apply elem_of_list_to_map_2 in H.
  unfold fingerBones in H. rewrite !elem_of_cons in H.
  set_unfold. repeat destruct H as [H | H]; try done; by injection H.
Qed.

Lemma applyFingerPose_yz (side : Side) (fingers : list (string * option R)) (s : State)
    (joint : string) :
  not_thumb_of side joint ->
  (yz_of <$> the_humanoid (applyFingerPose side fingers s)) ≫= (fun f => f joint) =
  (yz_of <$> the_humanoid s) ≫= (fun f => f joint).
Proof.
  intros Hnt. unfold applyFingerPose.
  destruct (the_humanoid s) as [h|] eqn:Hh; [| by rewrite Hh].
  rewrite (the_humanoid_set_humanoid h _ s Hh). cbn.
  apply (foldl_invariant (fun acc => yz_of acc joint = yz_of h joint)); [| done].
  intros acc [fingerName [curl|]] _ Hacc; [| done].
  destruct (_ !! fingerName) as [[bones isThumb]|] eqn:Hf; [| done].
  rewrite applyFinger_yz; [done |].
  intros ->. by rewrite (fingerBones_thumb _ _ _ Hf).
Qed.

Lemma applyHandGesture_yz (g : HandGesture) (s : State) (joint : string) :
  not_thumb_of SideLeft joint -> not_thumb_of SideRight joint ->
  (yz_of <$> the_humanoid (applyHandGesture g s)) ≫= (fun f => f joint) =
  (yz_of <$> the_humanoid s) ≫= (fun f => f joint).
Proof.
  intros Hl Hr. unfold applyHandGesture.
  destruct (the_humanoid s) eqn:Hh; [| by rewrite Hh].
  rewrite <- Hh.
  destruct (hand g); by rewrite ?(applyFingerPose_yz SideRight), ?(applyFingerPose_yz SideLeft).
Qed.

(** C10. No finger joint is a bone of [BONE_MAP], so no tick changes the
    rotation the rig holds for a finger joint: it stays as [applyHandGesture]
    left it, undamped.  And on the joints of the four non-thumb fingers
    [applyHandGesture] leaves the y and z rotations as they were. *)
Theorem finger_joints_bypass_smoothing (side : Side) (joint : string) :
  joint ∈ finger_joints side ->
  BONE_MAP !! joint = None /\ outside_BONE_MAP joint /\
  (forall delta s, rig_rotation (state_of (update delta s)) joint = rig_rotation s joint) /\
  (joint ∈ non_thumb_joints side ->
   forall g s,
     rot_y <$> rig_rotation (applyHandGesture g s) joint = rot_y <$> rig_rotation s joint /\
     rot_z <$> rig_rotation (applyHandGesture g s) joint = rot_z <$> rig_rotation s joint).
Proof.
  intros Hin.
  pose proof (finger_joints_outside side) as Hall.
  rewrite Forall_forall in Hall. destruct (Hall joint Hin) as [Hnot Hnone].
  assert (outside_BONE_MAP joint) as Hout.
  { intros boneName Hb. by apply Hnot, (BONE_MAP_values boneName). }
  split; [done |]. split; [done |].
  split; [intros delta s; by apply update_rig_frame |].
  intros Hnt g s.
  pose proof (applyHandGesture_yz g s joint
                (non_thumb_not_thumb _ _ _ Hnt) (non_thumb_not_thumb _ _ _ Hnt)) as Hyz.
  unfold rig_rotation, yz_of in *.
  destruct (the_humanoid (applyHandGesture g s)) as [h'|];
    destruct (the_humanoid s) as [h|]; cbn in *;
    try destruct (h' !! joint); try destruct (h !! joint); cbn in *;
    try done; by injection Hyz as -> ->.
Qed.

Lemma finger_joints_bypass_smoothing_witness :
  rig_rotation (state_of (update (1 / 60) (applyHandGesture fist finger_controller)))
    "leftIndexProximal" =
  rig_rotation (applyHandGesture fist finger_controller) "leftIndexProximal".
Proof.
  assert ("leftIndexProximal"%string ∈ finger_joints SideLeft) as Hin.
  { apply (bool_decide_unpack _). by vm_compute. }
  exact (proj1 (proj2 (proj2 (finger_joints_bypass_smoothing SideLeft _ Hin))) _ _).
Defined.

End FingerFacts.

(** ** The gesture player *)

Section GestureFacts.

Import Easing PoseController.

Lemma interpolateKeyframes_empty (g : BodyGesture) (progress : R) (s : State) :
  keyframes g = [] -> interpolateKeyframes g progress s = Throw s.
Proof. intros Hk. unfold interpolateKeyframes. by rewrite Hk. Qed.

Lemma updateGestureAnimation_playing (s : State) (ga : GestureAnimation) :
  gestureAnimation s = Some ga -> is_Some (the_humanoid s) -> isPlaying ga = true ->
  updateGestureAnimation s =
  if decide (gesture_progress s ga >= 1) then
    if loop (gesture ga) then
      interpolateKeyframes (gesture ga) 0
        (set_gestureAnimation
           (Some {| gesture := gesture ga; ga_startTime := elapsedTime s * 1000;
                    isPlaying := isPlaying ga |}) s)
    else Normal (set_gestureAnimation None s)
  else interpolateKeyframes (gesture ga) (gesture_progress s ga) s.
Proof.
  intros Hg [h Hh] Hp. unfold updateGestureAnimation. by rewrite Hg, Hh, Hp.
Qed.

(** C1 (the code at the failing input). On an initialised controller, a
    gesture without keyframes that has been started and is still below
    progress [1] makes the next tick raise: the [TypeError] of
    [updateGestureAnimation] escapes [update]. *)
Theorem update_throws_on_empty_keyframes (delta : R) (s : State) (g : BodyGesture) :
  is_Some (the_humanoid s) -> keyframes g = [] -> delta >= 0 ->
  ~ ((elapsedTime s + delta) * 1000 - elapsedTime s * 1000) / gesture_duration g >= 1 ->
  exists s', update delta (playBodyGesture g s) = Throw s'.
Proof.
  intros Hh Hk _ Hprogress.
  rewrite update_unfold by done. unfold tick_prefix.
  set (s0 := set_times _ _ _).
  destruct (updatePoseTransition_frame s0) as (Hg & He & _).
  rewrite (updateGestureAnimation_playing _
             {| gesture := g; ga_startTime := elapsedTime s * 1000; isPlaying := true |});
    [| by rewrite Hg | by rewrite updatePoseTransition_humanoid | done].
  unfold gesture_progress. rewrite He. cbn [gesture ga_startTime gesture_duration].
  rewrite decide_False by done.
  rewrite interpolateKeyframes_empty by done. by eexists.
Qed.

Lemma update_throws_on_empty_keyframes_witness :
  exists s', update 0.016 (playBodyGesture no_keyframes (init spine_rig fresh)) = Throw s'.
Proof.
  assert (elapsedTime (init spine_rig fresh) = 0) as Hzero by reflexivity.
  apply (update_throws_on_empty_keyframes 0.016 (init spine_rig fresh) no_keyframes).
  - eexists. reflexivity.
  - reflexivity.
  - lra.
  - rewrite Hzero. cbn [gesture_duration no_keyframes]. lra.
Defined.

End GestureFacts.

Section GestureBoundary.

Import Easing PoseController.

Lemma update_keeps_gesture_cleared (delta : R) (s : State) :
  gestureAnimation s = None -> gestureAnimation (state_of (update delta s)) = None.
Proof.
  intros Hg. unfold update.
  destruct (the_humanoid s); [| done].
  set (s0 := set_times _ _ s).
  destruct (updatePoseTransition_frame s0) as (Hg1 & _).
  rewrite updateGestureAnimation_idle by (rewrite Hg1; exact Hg).
  cbn [and_then state_of].
  destruct (applyBoneRotations_frame delta (updateBodyMotion delta (updatePoseTransition s0)))
    as (_ & -> & _).
  destruct (updateBodyMotion_frame delta (updatePoseTransition s0)) as (_ & -> & _).
  rewrite Hg1. exact Hg.
Qed.

(** The targets the motion step leaves, bone by bone. *)
Lemma updateBodyMotion_targets (delta : R) (s : State) (b : string) :
  poseTransition s = None ->
  target_of (updateBodyMotion delta s) b = resumed_target s b <$> target_of s b.
Proof.
  intros Htr.
  assert (forall s', boneStates s' = boneStates s ->
            target_of s' b = (fun old : BoneRotation => old) <$> target_of s b) as Hsame.
  { intros s' Hs'. unfold target_of. rewrite Hs'. by destruct (boneStates s !! b). }
  unfold resumed_target, tick_offsets, updateBodyMotion.
  destruct (currentMotion s) as [m|]; [| rewrite lookup_empty; by apply Hsame].
  destruct (the_humanoid s) eqn:Hh; [| rewrite lookup_empty; by apply Hsame].
  destruct (_ || _); [rewrite lookup_empty; by apply Hsame |].
  destruct (gesture_playing s); [rewrite lookup_empty; by apply Hsame |].
  unfold updateBouncePosition, updateFloatPosition.
  destruct (type m) eqn:Hty; unfold motionOffsets; rewrite Hty;
    unfold default; cbn [from_option]; unfold Datatypes.id;
    first
      [ unfold target_of; rewrite applyOffsets_lookup by done;
        match goal with
        | |- context [match ?offsets !! ?k with Some _ => _ | None => _ end] =>
            destruct (offsets !! k)
        end;
        by destruct (boneStates s !! b)
      | rewrite lookup_empty; apply Hsame; destruct (_ ← vrm s; _); [| done];
        match goal with
        | |- context [dampPositionY ?a ?c ?d ?s0] =>
            by destruct (dampPositionY_frame a c d s0) as (_ & _ & ? & _)
        end ].
Qed.

(** The targets a tick leaves when no gesture is loaded and no pose
    transition is pending. *)
Lemma update_targets_idle (delta : R) (s : State) (b : string) :
  gestureAnimation s = None -> poseTransition s = None ->
  target_of (state_of (update delta s)) b =
  resumed_target (set_times (motionTime s + delta) (elapsedTime s + delta) s) b
    <$> target_of s b.
Proof.
  intros Hg Htr. unfold update.
  destruct (the_humanoid s) as [h|] eqn:Hh.
  - set (s0 := set_times _ _ s).
    assert (updatePoseTransition s0 = s0) as ->.
    { unfold updatePoseTransition.
      change (poseTransition s0) with (poseTransition s). by rewrite Htr. }
    rewrite updateGestureAnimation_idle by done. cbn [and_then state_of].
    destruct (applyBoneRotations_frame delta (updateBodyMotion delta s0))
      as (_ & _ & _ & -> & _).
    by rewrite updateBodyMotion_targets.
  - cbn [state_of]. unfold resumed_target, tick_offsets.
    change (the_humanoid (set_times (motionTime s + delta) (elapsedTime s + delta) s))
      with (the_humanoid s).
    rewrite Hh. destruct (currentMotion _); rewrite lookup_empty;
      unfold target_of; by destruct (boneStates s !! b).
Qed.

End GestureBoundary.

(** ** Pose transitions *)

Section TransitionFacts.

Import Easing PoseController.

(** The loop of [applyPose] that fills [fromPose]: one entry per key. *)
Lemma fromPose_loop_lookup {A} (f : string -> Vec3) (l : list (string * A))
    (acc : gmap string Vec3) (b : string) :
  foldl (fun (fromPose : gmap string Vec3) '(boneName, _) => <[boneName := f boneName]> fromPose)
    acc l !! b =
  if decide (b ∈ l.*1) then Some (f b) else acc !! b.
Proof.
  revert acc. induction l as [|[k a] l IH]; intros acc; [done |].
  cbn [foldl fmap list_fmap fst]. rewrite IH.
  destruct (decide (b ∈ l.*1)) as [Hin|Hnin].
  - rewrite decide_True; [done | by right].
  - destruct (decide (k = b)) as [->|Hne].
    + rewrite decide_True by left. by rewrite lookup_insert_eq.
    + rewrite decide_False; [by rewrite lookup_insert_ne |].
      rewrite elem_of_cons. intros [Heq|Hin]; [by apply Hne | by apply Hnin].
Qed.

Lemma applyPose_transition (pose : PosePreset) (s : State) :
  is_Some (the_humanoid s) ->
  exists tr, poseTransition (applyPose pose s) = Some tr /\
    toPose tr = spread (basePose s) (bones pose) /\
    startTime tr = elapsedTime s /\ duration tr = transitionDuration s /\
    easing tr = easeInOutCubic /\
    forall b, fromPose tr !! b =
      if decide (is_Some (spread (basePose s) (bones pose) !! b))
      then Some (fromPose_entry s b) else None.
Proof.
  intros [h Hh]. unfold applyPose. rewrite Hh.
  eexists. split; [reflexivity |]. cbn [toPose startTime duration easing fromPose].
  repeat split. intros b. rewrite fromPose_loop_lookup.
  assert (b ∈ (map_to_list (spread (basePose s) (bones pose))).*1
          <-> is_Some (spread (basePose s) (bones pose) !! b)) as Hkeys.
  { rewrite list_elem_of_fmap. split.
    - intros ([k v] & -> & Hin). apply elem_of_map_to_list in Hin. by eexists.
    - intros [v Hv]. exists (b, v). split; [done |]. by apply elem_of_map_to_list. }
  destruct (decide (b ∈ _)) as [Hin|Hnin].
  - rewrite decide_True; [done | by apply Hkeys].
  - rewrite decide_False; [done |]. intros Hs. by apply Hnin, Hkeys.
Qed.

Lemma degToRad_degrees (x : R) : degToRad (x / (PI / 180)) = x.
Proof. unfold degToRad. field. pose proof PI_RGT_0. lra. Qed.

Lemma easeInOutCubic_0 : easeInOutCubic 0 = 0.
Proof. unfold easeInOutCubic. rewrite decide_True by lra. lra. Qed.

Lemma hips_controller_init : init hips_rig fresh = hips_controller.
Proof. by vm_compute. Qed.

(** A controller initialised on a rig with hips only, then two [applyPose]
    calls, the second while the first transition is pending: the hips have a
    bone state, but neither the base pose nor the preset names them, and
    [fromPose] has no entry for them. *)
Lemma untouched_bone_not_restarted :
  let s := applyPose lean_forward (init hips_rig fresh) in
  is_Some (poseTransition s) /\ ~ restarts_from_current lean_forward s.
Proof.
  cbv zeta. rewrite hips_controller_init. split; [by eexists |].
  intros Hevery.
  destruct (Hevery "hips"%string spine_state) as (tr & Htr & Hfrom); [done |].
  destruct (applyPose_transition lean_forward (applyPose lean_forward hips_controller))
    as (tr' & Htr' & _ & _ & _ & _ & Hlookup); [by eexists |].
  rewrite Htr in Htr'. injection Htr' as <-.
  rewrite Hlookup in Hfrom.
  rewrite decide_False in Hfrom; [done |].
  intros [v Hv]. by vm_compute in Hv.
Qed.

(** C3 (amended). [applyPose] on an initialised controller, whether or not
    a transition is pending, installs a transition whose [toPose] is the
    merge of the base pose and the preset and whose [fromPose] has an entry
    exactly for the bones of that merge: the current rotation in degrees for
    a bone with a bone state.  The new transition owes nothing to the one it
    supersedes, [applyPose] changes no bone state, and the first targets the
    new transition writes, at progress [0], are the current rotations. *)
Theorem applyPose_restarts_from_current (pose : PosePreset) (s : State) :
  is_Some (the_humanoid s) ->
  let merged := spread (basePose s) (bones pose) in
  exists tr, poseTransition (applyPose pose s) = Some tr /\
    toPose tr = merged /\ basePose (applyPose pose s) = merged /\
    (forall boneName, is_Some (fromPose tr !! boneName) <-> is_Some (merged !! boneName)) /\
    (forall boneName state,
       boneStates s !! boneName = Some state -> is_Some (merged !! boneName) ->
       fromPose tr !! boneName = Some (current_degrees state)) /\
    (forall superseded,
       applyPose pose (set_poseTransition superseded s) = applyPose pose s) /\
    boneStates (applyPose pose s) = boneStates s /\
    (forall boneName state,
       boneStates s !! boneName = Some state -> is_Some (merged !! boneName) ->
       target_of (updatePoseTransition (applyPose pose s)) boneName = Some (current state)).
Proof.
  intros Hh. cbv zeta.
  destruct (applyPose_transition pose s Hh) as (tr & Htr & Hto & Hstart & Hdur & Hease & Hfrom).
  assert (forall boneName state,
            boneStates s !! boneName = Some state ->
            is_Some (spread (basePose s) (bones pose) !! boneName) ->
            fromPose tr !! boneName = Some (current_degrees state)) as Hcur.
  { intros b st Hst Hin. rewrite Hfrom, decide_True by done.
    unfold fromPose_entry. by rewrite Hst. }
  assert (boneStates (applyPose pose s) = boneStates s
          /\ the_humanoid (applyPose pose s) = the_humanoid s
          /\ elapsedTime (applyPose pose s) = elapsedTime s) as (Hbs & Hhum & Hel).
  { unfold applyPose. destruct (the_humanoid s) eqn:E; [| by rewrite E]. by rewrite <- E. }
  exists tr. repeat split; try done.
  - unfold applyPose. by destruct Hh as [h ->].
  - rewrite Hfrom. case_decide; [done | by intros []].
  - intros Hs. rewrite Hfrom, decide_True by done. by eexists.
  - intros superseded. unfold applyPose.
    change (the_humanoid (set_poseTransition superseded s)) with (the_humanoid s).
    by destruct Hh as [h ->].
  - intros b st Hst [to Hin].
    destruct Hh as [h Hh]. unfold updatePoseTransition, target_of.
    rewrite Htr, Hhum, Hh.
    assert (boneStates
              (set_boneStates
                 (write_targets (fromPose tr) (toPose tr)
                    (easing tr (Rmin ((elapsedTime (applyPose pose s) - startTime tr)
                                      / duration tr) 1))
                    (boneStates (applyPose pose s))) (applyPose pose s)) !! b
            = Some (set_target (current st) st)) as Hwritten.
    { cbn [boneStates set_boneStates]. rewrite write_targets_lookup.
      rewrite Hto, Hin, Hbs, Hst, (Hcur b st Hst) by by eexists. cbn.
      rewrite Hel, Hstart, Hease. unfold Rdiv. rewrite Rminus_diag, Rmult_0_l.
      rewrite Rmin_left by lra. rewrite easeInOutCubic_0.
      unfold lerp_target, current_degrees. cbn [at0 at1 at2].
      rewrite !Rmult_0_r, !Rplus_0_r. fold (Rdiv (rot_x (current st)) (PI * / 180)).
      f_equal. f_equal. destruct (current st) as [x y z]. cbn.
      change (PI * / 180) with (PI / 180).
      by rewrite !degToRad_degrees. }
    case_decide; cbn [boneStates set_poseTransition]; by rewrite Hwritten.
Qed.

Lemma applyPose_restarts_from_current_witness :
  let s := applyPose lean_forward spine_controller in
  exists tr, poseTransition (applyPose lean_forward s) = Some tr /\
    fromPose tr !! "spine"%string = Some (current_degrees spine_state).
Proof.
  intros s.
  destruct (applyPose_restarts_from_current lean_forward s)
    as (tr & Htr & _ & _ & _ & Hcur & _); [by eexists |].
  exists tr. split; [done |].
  apply Hcur; [done |]. eexists. by vm_compute.
Defined.

End TransitionFacts.

(** * Further properties of the easing library *)

Section OscillatorBounds.

Import Easing.

Lemma organicOscillation_within (time baseFrequency : R) :
  -1 <= organicOscillation time baseFrequency <= 1.
Proof.
  unfold organicOscillation. cbv zeta.
  pose proof (SIN_bound (time * baseFrequency * PI * 2)).
  pose proof (SIN_bound (time * baseFrequency * 1.5 * PI * 2)).
  pose proof (SIN_bound (time * baseFrequency * 0.7 * PI * 2)).
  lra.
Qed.

(** X1. [organicOscillation] stays within [[-1, 1]] at every time and base
    frequency, as its comment promises. *)
Theorem organicOscillation_bounded (time baseFrequency : R) :
  -1 <= organicOscillation time baseFrequency <= 1.
Proof. apply organicOscillation_within. Qed.

Lemma js_rem_one_range (a : R) : 0 <= a -> 0 <= js_rem a 1 < 1.
Proof.
  intros Ha. rewrite js_rem_one_nonneg by done.
  destruct (base_Int_part a). lra.
Qed.

Lemma breathingPhase_range (t bpm : R) :
  bpm > 0 -> t >= 0 -> 0 <= breathingPhase t bpm < 1.
Proof.
  intros Hb Ht. unfold breathingPhase. apply js_rem_one_range.
  apply Rmult_le_pos; [lra |]. apply Rlt_le, Rdiv_lt_0_compat; lra.
Qed.

(** X2. For a positive breathing rate and a non-negative time the breathing
    curve stays within [[0, 1]]. *)
Theorem breathingCurve_range (t bpm : R) :
  bpm > 0 -> t >= 0 -> 0 <= breathingCurve t bpm <= 1.
Proof.
  intros Hb Ht. unfold breathingCurve.
  pose proof (breathingPhase_range t bpm Hb Ht) as [H0 H1].
  pose proof PI_RGT_0 as Hpi.
  set (phase := breathingPhase t bpm) in *.
  case_decide as Hphase.
  - unfold easeOutSine.
    assert (0 <= phase / 0.4 * PI / 2 <= PI) as [Hlo Hhi] by (split; nra).
    split; [by apply sin_ge_0 | apply SIN_bound].
  - unfold easeInSine.
    assert (0 <= (phase - 0.4) / 0.6 * PI / 2 <= PI / 2) as [Hlo Hhi] by (split; nra).
    pose proof (COS_bound ((phase - 0.4) / 0.6 * PI / 2)) as [_ Hc].
    assert (0 <= cos ((phase - 0.4) / 0.6 * PI / 2)) by (apply cos_ge_0; lra).
    lra.
Qed.

Lemma breathingCurve_range_witness : 0 <= breathingCurve 1 14 <= 1.
Proof. apply breathingCurve_range; lra. Defined.

(** X3. The head micro-movement is small: the yaw stays within [0.8], the
    pitch within [0.5] and the roll within [0.15] of zero. *)
Theorem headMicroMovement_bounded (time : R) :
  Rabs (yaw (headMicroMovement time)) <= 0.8 /\
  Rabs (pitch (headMicroMovement time)) <= 0.5 /\
  Rabs (roll (headMicroMovement time)) <= 0.15.
Proof.
  unfold headMicroMovement. cbn [yaw pitch roll].
  pose proof (organicOscillation_within time 0.1).
  pose proof (organicOscillation_within time 0.17).
  pose proof (organicOscillation_within time 0.08).
  pose proof (organicOscillation_within time 0.13).
  pose proof (organicOscillation_within time 0.05).
  repeat split; apply Rabs_le; lra.
Qed.

End OscillatorBounds.

Section SmoothDampFacts.

Import Easing.

(** The decay factor of one step: [(1 + x) * exp] for [x = omega * dt]. *)
Lemma decay_factor (x : R) :
  0 < x ->
  0 < (1 + x) * (1 / (1 + x + 0.48 * x * x + 0.235 * x * x * x)) < 1.
Proof.
  intros Hx.
  assert (1 + x < 1 + x + 0.48 * x * x + 0.235 * x * x * x) as Hlt by nra.
  set (P := 1 + x + 0.48 * x * x + 0.235 * x * x * x) in *.
  assert (0 < P) as HP by lra.
  assert (0 < 1 / P) as Hq by (apply Rdiv_lt_0_compat; lra).
  assert (P * (1 / P) = 1) as Hone by (field; lra).
  split; nra.
Qed.

Lemma smoothDamp_integrate_rest (current target smoothTime deltaTime : R) :
  let x := 2 / Rmax 0.0001 smoothTime * deltaTime in
  smoothDamp_integrate current target 0 smoothTime deltaTime None =
  (target + (current - target)
            * ((1 + x) * (1 / (1 + x + 0.48 * x * x + 0.235 * x * x * x))),
   (0 - 2 / Rmax 0.0001 smoothTime
        * ((0 + 2 / Rmax 0.0001 smoothTime * (current - target)) * deltaTime))
   * (1 / (1 + x + 0.48 * x * x + 0.235 * x * x * x))).
Proof.
  cbv zeta. unfold smoothDamp_integrate. f_equal. ring.
Qed.

Lemma omega_dt_pos (smoothTime deltaTime : R) :
  deltaTime > 0 -> 0 < 2 / Rmax 0.0001 smoothTime * deltaTime.
Proof.
  intros Hd. pose proof (Rmax_l 0.0001 smoothTime).
  apply Rmult_lt_0_compat; [| lra]. apply Rdiv_lt_0_compat; lra.
Qed.

(** The value a step from rest returns: strictly between the start and the
    target. *)
Lemma smoothDamp_rest_between (current target smoothTime deltaTime : R) :
  deltaTime > 0 ->
  let output := (smoothDamp current target 0 smoothTime deltaTime None).1 in
  (current < target -> current < output < target) /\
  (current > target -> target < output < current).
Proof.
  intros Hd. cbv zeta. unfold smoothDamp.
  rewrite smoothDamp_integrate_rest. cbv zeta.
  pose proof (decay_factor _ (omega_dt_pos smoothTime deltaTime Hd)) as [Hr0 Hr1].
  set (r := (1 + _) * (1 / _)) in *.
  split; intros Hlt.
  - rewrite overshoots_left by done. rewrite bool_decide_eq_false_2 by nra.
    cbn [fst]. split; nra.
  - rewrite overshoots_right by lra. rewrite bool_decide_eq_true_2 by nra.
    cbn [negb fst]. split; nra.
Qed.

(** X4. From rest (zero velocity), with the default [maxSpeed] and a
    positive time step, one [smoothDamp] step moves strictly towards the
    target without reaching it: the result lies strictly between the start
    and the target, whatever the smoothing time. *)
Theorem smoothDamp_from_rest_approaches (current target smoothTime deltaTime : R) :
  deltaTime > 0 ->
  let output := (smoothDamp current target 0 smoothTime deltaTime None).1 in
  (current < target -> current < output < target) /\
  (current > target -> target < output < current).
Proof. apply smoothDamp_rest_between. Qed.

Lemma smoothDamp_from_rest_approaches_witness :
  let output := (smoothDamp 0 1 0 0.15 (1 / 60) None).1 in
  (0 < 1 -> 0 < output < 1) /\ (0 > 1 -> 1 < output < 0).
Proof. apply (smoothDamp_from_rest_approaches 0 1 0.15 (1 / 60)). lra. Defined.

(** A value resting on its target stays there with zero velocity. *)
Lemma smoothDamp_settled (target smoothTime deltaTime : R) :
  smoothDamp target target 0 smoothTime deltaTime None = (target, 0).
Proof.
  unfold smoothDamp. rewrite smoothDamp_integrate_rest. cbv zeta.
  rewrite overshoots_right by lra.
  rewrite bool_decide_eq_false_2 by (rewrite Rminus_diag, Rmult_0_l; lra).
  cbn [negb]. f_equal. unfold Rdiv. rewrite Rminus_diag. apply Rmult_0_l.
Qed.

(** X5. [smoothDamp] has the settled state as a fixed point: started on the
    target with zero velocity it returns the target and stores zero velocity,
    for every smoothing time and every positive time step (the velocity the
    overshoot branch stores is a quotient by the time step). *)
Theorem smoothDamp_fixed_point (target smoothTime deltaTime : R) :
  deltaTime > 0 ->
  smoothDamp target target 0 smoothTime deltaTime None = (target, 0).
Proof. intros _. apply smoothDamp_settled. Qed.

Lemma smoothDamp_fixed_point_witness :
  smoothDamp 1 1 0 0.15 (1 / 60) None = (1, 0).
Proof. apply (smoothDamp_fixed_point 1 0.15 (1 / 60)). lra. Defined.

End SmoothDampFacts.

Section CurveFacts.

Import Easing.

Lemma Rpower_2_0 : Rpower 2 0 = 1.
Proof. apply Rpower_O. lra. Qed.

Lemma Rpower_2_unit (y : R) : y <= 0 -> 0 < Rpower 2 y <= 1.
Proof.
  intros Hy. unfold Rpower. split; [apply exp_pos |].
  assert (0 < ln 2) as Hln by (pose proof ln_lt_2; lra).
  destruct (Req_dec y 0) as [-> | Hne].
  - rewrite Rmult_0_l, exp_0. lra.
  - left. rewrite <- exp_0. apply exp_increasing. nra.
Qed.

Lemma Rpower_unit_base (b y : R) : 0 < b < 1 -> 0 <= y -> 0 < Rpower b y <= 1.
Proof.
  intros [Hb0 Hb1] Hy. unfold Rpower. split; [apply exp_pos |].
  assert (ln b < 0) as Hln.
  { rewrite <- ln_1. apply ln_increasing; lra. }
  destruct (Req_dec y 0) as [-> | Hne].
  - rewrite Rmult_0_l, exp_0. lra.
  - left. rewrite <- exp_0. apply exp_increasing. nra.
Qed.

(** X6. Every easing curve of the library starts at [0] and ends at [1]:
    [f 0 = 0] and [f 1 = 1] for the linear, sine, quadratic, cubic,
    exponential, back, elastic and bounce curves. *)
Theorem easing_endpoints :
  Forall (fun f : R -> R => f 0 = 0 /\ f 1 = 1)
    [ linear; easeInSine; easeOutSine; easeInOutSine;
      easeInQuad; easeOutQuad; easeInOutQuad;
      easeInCubic; easeOutCubic; easeInOutCubic;
      easeInExpo; easeOutExpo; easeInOutExpo;
      easeInBack; easeOutBack; easeInOutBack;
      easeInElastic; easeOutElastic; easeOutBounce ].
Proof.
  pose proof PI_RGT_0 as Hpi.
  repeat (apply Forall_cons; split; [split |]); try exact (Forall_nil_2 _).
  - done.
  - done.
  - unfold easeInSine. replace (0 * PI / 2) with 0 by lra. rewrite cos_0. lra.
  - unfold easeInSine. replace (1 * PI / 2) with (PI / 2) by lra. rewrite cos_PI2. lra.
  - unfold easeOutSine. replace (0 * PI / 2) with 0 by lra. apply sin_0.
  - unfold easeOutSine. replace (1 * PI / 2) with (PI / 2) by lra. apply sin_PI2.
  - unfold easeInOutSine. rewrite Rmult_0_r, cos_0. lra.
  - unfold easeInOutSine. rewrite Rmult_1_r, cos_PI. lra.
  - unfold easeInQuad. lra.
  - unfold easeInQuad. lra.
  - unfold easeOutQuad. lra.
  - unfold easeOutQuad. lra.
  - unfold easeInOutQuad. rewrite decide_True by lra. lra.
  - unfold easeInOutQuad. rewrite decide_False by lra. lra.
  - unfold easeInCubic. lra.
  - unfold easeInCubic. lra.
  - unfold easeOutCubic. lra.
  - unfold easeOutCubic. lra.
  - unfold easeInOutCubic. rewrite decide_True by lra. lra.
  - unfold easeInOutCubic. rewrite decide_False by lra. lra.
  - unfold easeInExpo. by rewrite decide_True.
  - unfold easeInExpo. rewrite decide_False by lra.
    replace (10 * 1 - 10) with 0 by lra. apply Rpower_2_0.
  - unfold easeOutExpo. rewrite decide_False by lra.
    replace (-10 * 0) with 0 by lra. rewrite Rpower_2_0. lra.
  - unfold easeOutExpo. by rewrite decide_True.
  - unfold easeInOutExpo. by rewrite decide_True.
  - unfold easeInOutExpo. rewrite decide_False by lra. by rewrite decide_True.
  - unfold easeInBack. lra.
  - unfold easeInBack. lra.
  - unfold easeOutBack. lra.
  - unfold easeOutBack. lra.
  - unfold easeInOutBack. rewrite decide_True by lra. lra.
  - unfold easeInOutBack. rewrite decide_False by lra. lra.
  - unfold easeInElastic. by rewrite decide_True.
  - unfold easeInElastic. cbv zeta. rewrite decide_False by lra. by rewrite decide_True.
  - unfold easeOutElastic. by rewrite decide_True.
  - unfold easeOutElastic. cbv zeta. rewrite decide_False by lra. by rewrite decide_True.
  - unfold easeOutBounce. cbv zeta. rewrite decide_True by lra. lra.
  - unfold easeOutBounce. cbv zeta. rewrite !decide_False by lra. lra.
Qed.

(** X7. On [[0, 1]] the curves that are not meant to overshoot stay within
    [[0, 1]]: the linear, sine, quadratic, cubic, exponential and bounce
    curves. *)
Theorem easing_unit_range :
  Forall (fun f : R -> R => forall t, 0 <= t <= 1 -> 0 <= f t <= 1)
    [ linear; easeInSine; easeOutSine; easeInOutSine;
      easeInQuad; easeOutQuad; easeInOutQuad;
      easeInCubic; easeOutCubic; easeInOutCubic;
      easeInExpo; easeOutExpo; easeInOutExpo; easeOutBounce ].
Proof.
  pose proof PI_RGT_0 as Hpi.
  repeat (apply Forall_cons; split; [intros t [H0 H1] |]); try exact (Forall_nil_2 _).
  - done.
  - unfold easeInSine.
    pose proof (COS_bound (t * PI / 2)) as [_ Hc].
    assert (0 <= cos (t * PI / 2)) by (apply cos_ge_0; nra). lra.
  - unfold easeOutSine. split; [apply sin_ge_0; nra | apply SIN_bound].
  - unfold easeInOutSine. pose proof (COS_bound (PI * t)). lra.
  - unfold easeInQuad. nra.
  - unfold easeOutQuad. nra.
  - unfold easeInOutQuad. case_decide; nra.
  - unfold easeInCubic.
    assert (0 <= t * t <= 1) by nra. nra.
  - unfold easeOutCubic.
    assert (0 <= (1 - t) * (1 - t) <= 1) by nra. nra.
  - unfold easeInOutCubic. case_decide.
    + assert (0 <= t * t <= 0.25) by nra. nra.
    + assert (0 <= (-2 * t + 2) * (-2 * t + 2) <= 1) by nra. nra.
  - unfold easeInExpo. case_decide; [lra |].
    pose proof (Rpower_2_unit (10 * t - 10)). lra.
  - unfold easeOutExpo. case_decide; [lra |].
    pose proof (Rpower_2_unit (-10 * t)). lra.
  - unfold easeInOutExpo. repeat case_decide; try lra.
    + pose proof (Rpower_2_unit (20 * t - 10)). lra.
    + pose proof (Rpower_2_unit (-20 * t + 10)). lra.
  - unfold easeOutBounce. cbv zeta. repeat case_decide; nra.
Qed.

(** X8. [interpolate] clamps its parameter: with an easing that fixes [0]
    and [1] it returns [from] for every [t <= 0] and [to] for every
    [t >= 1]; with the linear easing the result always lies between [from]
    and [to]; and [interpolateVec3] is [interpolate] on each component. *)
Theorem interpolate_clamps (from to : R) (easing : R -> R) :
  easing 0 = 0 -> easing 1 = 1 ->
  (forall t, t <= 0 -> interpolate from to t easing = from) /\
  (forall t, t >= 1 -> interpolate from to t easing = to) /\
  (forall t, Rmin from to <= interpolate from to t linear <= Rmax from to) /\
  (forall (a b : Vec3) t,
     PoseInterpolation.interpolateVec3 a b t easing =
     vec3 (interpolate (at0 a) (at0 b) t easing) (interpolate (at1 a) (at1 b) t easing)
          (interpolate (at2 a) (at2 b) t easing)).
Proof.
  intros He0 He1. unfold interpolate. repeat split.
  - intros t Ht. rewrite Rmin_right, Rmax_left by lra. rewrite He0. lra.
  - intros t Ht. rewrite Rmin_left, Rmax_right by lra. rewrite He1. lra.
  - unfold linear.
    assert (0 <= Rmax 0 (Rmin 1 t) <= 1) as Hc.
    { split; [apply Rmax_l | apply Rmax_lub; [lra | apply Rmin_l]]. }
    unfold Rmin at 1. destruct (Rle_dec from to); nra.
  - unfold linear.
    assert (0 <= Rmax 0 (Rmin 1 t) <= 1) as Hc.
    { split; [apply Rmax_l | apply Rmax_lub; [lra | apply Rmin_l]]. }
    destruct (Rle_dec from to);
      [rewrite (Rmax_right from to) by lra | rewrite (Rmax_left from to) by lra]; nra.
Qed.

Lemma interpolate_clamps_witness :
  interpolate 10 20 (-3) linear = 10 /\ interpolate 10 20 7 linear = 20.
Proof.
  destruct (interpolate_clamps 10 20 linear eq_refl eq_refl) as (Hlo & Hhi & _).
  split; [apply Hlo | apply Hhi]; lra.
Defined.

(** X9. For a smoothing factor strictly between [0] and [1] and a
    non-negative time step, [exponentialSmooth] returns a value between the
    current value and the target, and the current value itself when the time
    step is zero. *)
Theorem exponentialSmooth_between (current target smoothing deltaTime : R) :
  0 < smoothing < 1 -> 0 <= deltaTime ->
  Rmin current target <= exponentialSmooth current target smoothing deltaTime
    <= Rmax current target /\
  exponentialSmooth current target smoothing 0 = current.
Proof.
  intros Hs Hd. unfold exponentialSmooth. cbv zeta.
  pose proof (Rpower_unit_base smoothing (deltaTime * 60) Hs ltac:(lra)) as [Hp0 Hp1].
  set (p := Rpower smoothing (deltaTime * 60)) in *.
  split.
  - unfold Rmin, Rmax. destruct (Rle_dec current target); split; nra.
  - rewrite Rmult_0_l, Rpower_O by lra. lra.
Qed.

Lemma exponentialSmooth_between_witness :
  exponentialSmooth 0 1 0.5 0 = 0.
Proof. apply (exponentialSmooth_between 0 1 0.5 (1 / 60)); lra. Defined.

(** X10. A spring resting on its target is in equilibrium: for every
    spring configuration with a mass other than zero and every time step,
    [updateSpring] returns the same state, and [isSpringSettled] accepts it
    for all positive thresholds. *)
Theorem spring_equilibrium (target deltaTime positionThreshold velocityThreshold : R)
    (config : SpringConfig) :
  mass config <> 0 -> 0 < positionThreshold -> 0 < velocityThreshold ->
  let rest := {| position := target; spring_velocity := 0 |} in
  updateSpring rest target config deltaTime = rest /\
  isSpringSettled (updateSpring rest target config deltaTime) target
    positionThreshold velocityThreshold = true.
Proof.
  intros Hmass Hp Hv. cbv zeta.
  assert (updateSpring {| position := target; spring_velocity := 0 |} target config deltaTime
          = {| position := target; spring_velocity := 0 |}) as Hfix.
  { unfold updateSpring. cbn [position spring_velocity]. f_equal.
    - unfold Rdiv. rewrite Rminus_diag, !Rmult_0_r, Rplus_0_r, !Rmult_0_l. lra.
    - unfold Rdiv. rewrite Rminus_diag, !Rmult_0_r, Rplus_0_r, !Rmult_0_l. lra. }
  rewrite Hfix. split; [done |].
  unfold isSpringSettled. cbn [position spring_velocity].
  rewrite Rminus_diag, Rabs_R0.
  by rewrite !bool_decide_eq_true_2.
Qed.

Lemma spring_equilibrium_witness :
  let rest := {| position := 1; spring_velocity := 0 |} in
  updateSpring rest 1 {| stiffness := 100; damping := 10; mass := 1 |} (1 / 60) = rest.
Proof.
  apply (spring_equilibrium 1 (1 / 60) 0.001 0.001
           {| stiffness := 100; damping := 10; mass := 1 |}); cbn; lra.
Defined.

End CurveFacts.

(** * Further properties of pose transitions *)

Section EvaluationFacts.

Import Easing PoseController PoseInterpolation.

Lemma foldl_insert_each_lookup (f : string -> Vec3) (l : list string)
    (acc : gmap string Vec3) (b : string) :
  foldl (fun (result : gmap string Vec3) bone => <[bone := f bone]> result) acc l !! b =
  if decide (b ∈ l) then Some (f b) else acc !! b.
Proof.
  revert acc. induction l as [|k l IH]; intros acc; [done |].
  cbn [foldl]. rewrite IH.
  destruct (decide (b ∈ l)) as [Hin|Hnin].
  - rewrite decide_True; [done | by right].
  - destruct (decide (k = b)) as [->|Hne].
    + rewrite decide_True by left. by rewrite lookup_insert_eq.
    + rewrite decide_False; [by rewrite lookup_insert_ne |].
      rewrite elem_of_cons. intros [Heq|Hin]; [by apply Hne | by apply Hnin].
Qed.

Lemma allBones_spec (tr : PoseTransition) (b : string) :
  b ∈ allBones tr <-> is_Some (fromPose tr !! b) \/ is_Some (toPose tr !! b).
Proof.
  unfold allBones. rewrite elem_of_remove_dups, elem_of_app.
  assert (forall m : gmap string Vec3, b ∈ (map_to_list m).*1 <-> is_Some (m !! b)) as Hkeys.
  { intros m. rewrite list_elem_of_fmap. split.
    - intros ([k v] & -> & Hin). apply elem_of_map_to_list in Hin. by eexists.
    - intros [v Hv]. exists (b, v). split; [done |]. by apply elem_of_map_to_list. }
  by rewrite !Hkeys.
Qed.

Lemma evaluatePoseTransition_lookup (tr : PoseTransition) (currentTime : R) (b : string) :
  pose (evaluatePoseTransition tr currentTime) !! b =
  if decide (is_Some (fromPose tr !! b) \/ is_Some (toPose tr !! b)) then
    let eased := easing tr (Rmin ((currentTime - startTime tr) / duration tr) 1) in
    let from := default (vec3 0 0 0) (fromPose tr !! b) in
    let to := default (vec3 0 0 0) (toPose tr !! b) in
    Some (vec3 (at0 from + (at0 to - at0 from) * eased)
               (at1 from + (at1 to - at1 from) * eased)
               (at2 from + (at2 to - at2 from) * eased))
  else None.
Proof.
  unfold evaluatePoseTransition. cbn [pose].
  rewrite (foldl_insert_each_lookup
    (fun bone =>
       vec3 (at0 (default (vec3 0 0 0) (fromPose tr !! bone))
             + (at0 (default (vec3 0 0 0) (toPose tr !! bone))
                - at0 (default (vec3 0 0 0) (fromPose tr !! bone)))
               * easing tr (Rmin ((currentTime - startTime tr) / duration tr) 1))
            (at1 (default (vec3 0 0 0) (fromPose tr !! bone))
             + (at1 (default (vec3 0 0 0) (toPose tr !! bone))
                - at1 (default (vec3 0 0 0) (fromPose tr !! bone)))
               * easing tr (Rmin ((currentTime - startTime tr) / duration tr) 1))
            (at2 (default (vec3 0 0 0) (fromPose tr !! bone))
             + (at2 (default (vec3 0 0 0) (toPose tr !! bone))
                - at2 (default (vec3 0 0 0) (fromPose tr !! bone)))
               * easing tr (Rmin ((currentTime - startTime tr) / duration tr) 1)))).
  destruct (decide (b ∈ allBones tr)) as [Hin|Hnin].
  - rewrite decide_True; [done | by apply allBones_spec].
  - rewrite decide_False; [done |]. intros H. by apply Hnin, allBones_spec.
Qed.

Lemma progress_complete (elapsed duration : R) :
  duration > 0 -> elapsed >= duration -> Rmin (elapsed / duration) 1 = 1.
Proof.
  intros Hd He. apply Rmin_right.
  apply Rmult_le_reg_r with duration; [lra |].
  unfold Rdiv. rewrite Rmult_assoc, Rinv_l by lra. lra.
Qed.

Lemma lerp_end (from to : Vec3) :
  vec3 (at0 from + (at0 to - at0 from) * 1) (at1 from + (at1 to - at1 from) * 1)
       (at2 from + (at2 to - at2 from) * 1) = to.
Proof. destruct to. cbn. f_equal; lra. Qed.

(** X11. Once the duration (positive) has elapsed, [evaluatePoseTransition]
    with an easing that ends at [1] reports completion and returns exactly
    the target pose on the bones the target pose names; a bone that only the
    starting pose names is driven to [[0, 0, 0]]; and the result has an entry
    exactly for the bones of either pose. *)
Theorem evaluatePoseTransition_complete (tr : PoseTransition) (currentTime : R) :
  duration tr > 0 -> currentTime - startTime tr >= duration tr -> easing tr 1 = 1 ->
  let result := evaluatePoseTransition tr currentTime in
  complete result = true /\
  (forall b to, toPose tr !! b = Some to -> pose result !! b = Some to) /\
  (forall b, is_Some (fromPose tr !! b) -> toPose tr !! b = None ->
     pose result !! b = Some (vec3 0 0 0)) /\
  (forall b, is_Some (pose result !! b) <->
     is_Some (fromPose tr !! b) \/ is_Some (toPose tr !! b)).
Proof.
  intros Hd He Hease. cbv zeta.
  repeat split.
  - unfold evaluatePoseTransition. cbn [complete].
    rewrite progress_complete by done. apply bool_decide_eq_true_2. lra.
  - intros b to Hto. rewrite evaluatePoseTransition_lookup.
    rewrite decide_True by (right; by eexists). cbv zeta.
    rewrite progress_complete, Hease, Hto by done. cbn [default from_option].
    by rewrite lerp_end.
  - intros b Hfrom Hto. rewrite evaluatePoseTransition_lookup.
    rewrite decide_True by by left. cbv zeta.
    rewrite progress_complete, Hease, Hto by done. cbn [default from_option].
    by rewrite lerp_end.
  - rewrite evaluatePoseTransition_lookup. case_decide; [done | by intros []].
  - intros H. rewrite evaluatePoseTransition_lookup. rewrite decide_True by done.
    by eexists.
Qed.

Lemma evaluatePoseTransition_complete_witness :
  let tr := {| fromPose := {["spine"%string := vec3 0 0 0]};
               toPose := {["spine"%string := vec3 10 0 0]};
               startTime := 0; duration := 0.4; easing := easeInOutCubic |} in
  complete (evaluatePoseTransition tr 1) = true.
Proof.
  intros tr. apply (evaluatePoseTransition_complete tr 1).
  - cbn. lra.
  - cbn. lra.
  - cbn [easing tr]. unfold easeInOutCubic. rewrite decide_False by lra. lra.
Defined.

(** X12. The pose transition step of the controller and
    [evaluatePoseTransition] agree: for a bone of the target pose that has a
    bone state, the target the controller writes is the helper's pose at the
    controller's elapsed time, converted to radians; and the controller drops
    the transition exactly when the helper reports completion. *)
Theorem updatePoseTransition_evaluates (s : State) (tr : PoseTransition) :
  poseTransition s = Some tr -> is_Some (the_humanoid s) ->
  let result := evaluatePoseTransition tr (elapsedTime s) in
  (forall b to state,
     toPose tr !! b = Some to -> boneStates s !! b = Some state ->
     exists v, pose result !! b = Some v /\
       target_of (updatePoseTransition s) b =
       Some (rot (degToRad (at0 v)) (degToRad (at1 v)) (degToRad (at2 v)))) /\
  (complete result = true <-> poseTransition (updatePoseTransition s) = None).
Proof.
  intros Htr [h Hh]. cbv zeta. split.
  - intros b to state Hto Hst. eexists. split.
    + rewrite evaluatePoseTransition_lookup.
      rewrite decide_True by (right; by eexists). reflexivity.
    + unfold updatePoseTransition, target_of. rewrite Htr, Hh.
      assert (forall s', boneStates s' = boneStates
                (set_boneStates
                   (write_targets (fromPose tr) (toPose tr)
                      (easing tr (Rmin ((elapsedTime s - startTime tr) / duration tr) 1))
                      (boneStates s)) s) ->
              target <$> boneStates s' !! b =
              Some (lerp_target (default (vec3 0 0 0) (fromPose tr !! b)) to
                      (easing tr (Rmin ((elapsedTime s - startTime tr) / duration tr) 1))))
        as Hwritten.
      { intros s' ->. cbn [boneStates set_boneStates].
        by rewrite write_targets_lookup, Hto, Hst. }
      rewrite Hto. cbn [default from_option].
      case_decide; by rewrite Hwritten.
  - unfold updatePoseTransition, evaluatePoseTransition. rewrite Htr, Hh. cbn [complete].
    case_decide as Hp.
    + by rewrite bool_decide_eq_true_2.
    + rewrite bool_decide_eq_false_2 by done. cbn [poseTransition set_boneStates].
      rewrite Htr. split; intros [=].
Qed.

Lemma updatePoseTransition_evaluates_witness :
  let s := applyPose lean_forward spine_controller in
  exists tr, poseTransition s = Some tr /\
    (complete (evaluatePoseTransition tr (elapsedTime s)) = true <->
     poseTransition (updatePoseTransition s) = None).
Proof.
  intros s. eexists. split; [reflexivity |].
  eapply (updatePoseTransition_evaluates s); [reflexivity | by eexists].
Defined.

(** X13. A pose transition ends on its target pose: when the duration
    (positive) has elapsed and the easing ends at [1], the transition step
    drops the transition and leaves, on every bone of the target pose that
    has a bone state, the target pose in radians as the target. *)
Theorem pose_transition_completes (s : State) (tr : PoseTransition) :
  poseTransition s = Some tr -> is_Some (the_humanoid s) ->
  duration tr > 0 -> elapsedTime s - startTime tr >= duration tr -> easing tr 1 = 1 ->
  poseTransition (updatePoseTransition s) = None /\
  forall b to state,
    toPose tr !! b = Some to -> boneStates s !! b = Some state ->
    target_of (updatePoseTransition s) b =
    Some (rot (degToRad (at0 to)) (degToRad (at1 to)) (degToRad (at2 to))).
Proof.
  intros Htr [h Hh] Hd He Hease.
  unfold updatePoseTransition, target_of. rewrite Htr, Hh.
  rewrite progress_complete by done. rewrite decide_True by lra.
  split; [done |]. intros b to state Hto Hst.
  cbn [boneStates set_poseTransition set_boneStates].
  rewrite write_targets_lookup, Hto, Hst, Hease. cbn.
  unfold lerp_target. f_equal. f_equal; f_equal; lra.
Qed.

Lemma easeInOutCubic_1 : easeInOutCubic 1 = 1.
Proof. unfold easeInOutCubic. rewrite decide_False by lra. lra. Qed.

Lemma pose_transition_completes_witness :
  let s := set_times 1 1 (applyPose lean_forward spine_controller) in
  poseTransition (updatePoseTransition s) = None /\
  target_of (updatePoseTransition s) "spine" =
  Some (rot (degToRad 10) (degToRad 0) (degToRad 0)).
Proof.
  intros s.
  assert (exists tr, poseTransition s = Some tr /\ startTime tr = 0 /\ duration tr = 0.4
                     /\ easing tr = easeInOutCubic
                     /\ toPose tr !! "spine"%string = Some (vec3 10 0 0))
    as (tr & Htr & Hstart & Hdur & Hease & Hto).
  { eexists. split; [reflexivity |]. repeat split. }
  destruct (pose_transition_completes s tr Htr) as [Hnone Htargets].
  - by eexists.
  - rewrite Hdur. lra.
  - rewrite Hstart, Hdur. cbn [s elapsedTime set_times]. lra.
  - rewrite Hease. apply easeInOutCubic_1.
  - split; [done |]. by apply (Htargets "spine"%string (vec3 10 0 0) spine_state).
Defined.

End EvaluationFacts.

(** * Further properties of the pose controller *)

Section KeyedLoops.

Context {A : Type}.

(** A loop over entries with distinct keys that, for a key bound in an
    identity table and present in the rig, writes the rig bone and the bone
    state of that key, and touches nothing otherwise. *)
Lemma keyed_pair_loop (M : gmap string string)
    (fh : string -> A -> BoneRotation)
    (fs : string -> A -> option BoneState -> option BoneState)
    (step : gmap string BoneRotation * gmap string BoneState -> string * A ->
            gmap string BoneRotation * gmap string BoneState) :
  (forall h st k a,
     step (h, st) (k, a) =
     if decide (is_Some (M !! k) /\ is_Some (h !! k))
     then (<[k := fh k a]> h, partial_alter (fs k a) k st)
     else (h, st)) ->
  forall l, NoDup l.*1 -> forall h st b,
    (foldl step (h, st) l).1 !! b =
      match (list_to_map l : gmap string A) !! b with
      | Some a =>
          if decide (is_Some (M !! b) /\ is_Some (h !! b)) then Some (fh b a) else h !! b
      | None => h !! b
      end /\
    (foldl step (h, st) l).2 !! b =
      match (list_to_map l : gmap string A) !! b with
      | Some a =>
          if decide (is_Some (M !! b) /\ is_Some (h !! b)) then fs b a (st !! b) else st !! b
      | None => st !! b
      end.
Proof.
  intros Hstep l. induction l as [|[k a] l IH]; intros Hnd h st b; [done |].
  apply NoDup_cons in Hnd as [Hk Hnd]. cbn [foldl].
  rewrite Hstep. cbn [list_to_map foldr uncurry].
  destruct (decide (k = b)) as [->|Hne].
  - rewrite lookup_insert_eq.
    case_decide as Hguard.
    + destruct (IH Hnd (<[b := fh b a]> h) (partial_alter (fs b a) b st) b) as [-> ->].
      rewrite (not_elem_of_list_to_map_1 l b Hk).
      by rewrite lookup_insert_eq, lookup_partial_alter_eq.
    + destruct (IH Hnd h st b) as [-> ->].
      by rewrite (not_elem_of_list_to_map_1 l b Hk).
  - rewrite (lookup_insert_ne _ k b) by done.
    case_decide as Hguard.
    + destruct (IH Hnd (<[k := fh k a]> h) (partial_alter (fs k a) k st) b) as [-> ->].
      by rewrite lookup_insert_ne, lookup_partial_alter_ne.
    + by destruct (IH Hnd h st b) as [-> ->].
Qed.

(** A loop that inserts, for each entry, a value computed from it. *)
Lemma foldl_insert_values_lookup {B : Type} (f : A -> B) (l : list (string * A)) :
  NoDup l.*1 -> forall (acc : gmap string B) (b : string),
    foldl (fun (acc : gmap string B) '(k, a) => <[k := f a]> acc) acc l !! b =
    match (list_to_map l : gmap string A) !! b with
    | Some a => Some (f a)
    | None => acc !! b
    end.
Proof.
  induction l as [|[k a] l IH]; intros Hnd acc b; [done |].
  apply NoDup_cons in Hnd as [Hk Hnd]. cbn [foldl list_to_map foldr uncurry].
  rewrite IH by done.
  destruct (decide (k = b)) as [->|Hne].
  - by rewrite lookup_insert_eq, (not_elem_of_list_to_map_1 l b Hk), lookup_insert_eq.
  - by rewrite !lookup_insert_ne.
Qed.

End KeyedLoops.

Section InitFacts.

Import Easing PoseController.

Lemma BONE_MAP_identity (boneName vrmBoneName : string) :
  BONE_MAP !! boneName = Some vrmBoneName -> vrmBoneName = boneName.
Proof.
  intros H. apply elem_of_list_to_map_2 in H.
  unfold BONE_MAP_entries in H. set_unfold in H.
  repeat destruct H as [H | H]; try done; by injection H as -> ->.
Qed.

Lemma BONE_MAP_guard (k : string) (h : gmap string BoneRotation) :
  is_Some (BONE_MAP !! k) /\ is_Some (h !! k) <->
  exists v, BONE_MAP !! k = Some v /\ is_Some (h !! v).
Proof.
  split.
  - intros [[v Hv] Hh]. exists v. split; [done |].
    by rewrite (BONE_MAP_identity _ _ Hv).
  - intros (v & Hv & Hh). rewrite (BONE_MAP_identity _ _ Hv) in Hh.
    split; [by eexists | done].
Qed.

Lemma getCurrentPose_lookup (s : State) (b : string) :
  getCurrentPose s !! b = current_degrees <$> boneStates s !! b.
Proof.
  unfold getCurrentPose.
  rewrite (foldl_insert_values_lookup current_degrees) by apply NoDup_fst_map_to_list.
  rewrite list_to_map_to_list. by destruct (boneStates s !! b).
Qed.

(** The loop of [initializeBoneStates]. *)
Lemma initializeBoneStates_loop (h : gmap string BoneRotation)
    (l : list (string * string)) :
  NoDup l.*1 -> forall (acc : gmap string BoneState) (b : string),
    foldl (fun (acc : gmap string BoneState) '(boneName, vrmBoneName) =>
             match h !! vrmBoneName with
             | Some bone =>
                 <[boneName := {| current := bone; target := bone;
                                  velocity := rot 0 0 0 |}]> acc
             | None => acc
             end) acc l !! b =
    match (list_to_map l : gmap string string) !! b with
    | Some vrmBoneName =>
        match h !! vrmBoneName with
        | Some bone => Some {| current := bone; target := bone; velocity := rot 0 0 0 |}
        | None => acc !! b
        end
    | None => acc !! b
    end.
Proof.
  induction l as [|[k v] l IH]; intros Hnd acc b; [done |].
  apply NoDup_cons in Hnd as [Hk Hnd].
  cbn [foldl list_to_map foldr uncurry fst snd].
  rewrite IH by done.
  destruct (decide (k = b)) as [->|Hne].
  - rewrite lookup_insert_eq, (not_elem_of_list_to_map_1 l b Hk).
    destruct (h !! v); [by rewrite lookup_insert_eq | done].
  - rewrite (lookup_insert_ne _ k b) by done.
    destruct (_ !! b) as [v'|]; [destruct (h !! v') |];
      try done; destruct (h !! v); try done; by rewrite lookup_insert_ne.
Qed.

Lemma BONE_MAP_entries_NoDup : NoDup BONE_MAP_entries.*1.
Proof. apply (bool_decide_unpack _). by vm_compute. Qed.

Lemma initializeBoneStates_lookup (s : State) (h : gmap string BoneRotation) (b : string) :
  the_humanoid s = Some h -> boneStates s = ∅ ->
  boneStates (initializeBoneStates s) !! b =
  if decide (is_Some (BONE_MAP !! b))
  then (fun bone => {| current := bone; target := bone; velocity := rot 0 0 0 |}) <$> h !! b
  else None.
Proof.
  intros Hh Hempty. unfold initializeBoneStates. rewrite Hh.
  cbn [boneStates set_boneStates].
  rewrite initializeBoneStates_loop by apply BONE_MAP_entries_NoDup.
  fold BONE_MAP. rewrite Hempty, lookup_empty.
  destruct (BONE_MAP !! b) as [v|] eqn:Hb.
  - rewrite (BONE_MAP_identity _ _ Hb). rewrite decide_True by by eexists.
    by destruct (h !! b).
  - rewrite decide_False; [done | by intros []].
Qed.

(** The loop of [applyPoseImmediate], bone by bone. *)
Lemma applyPoseImmediate_loop (pose : gmap string Vec3) (h : gmap string BoneRotation)
    (states : gmap string BoneState) (b : string) :
  let step := fun '(h, states) '(boneName, rotation) =>
    match BONE_MAP !! boneName with
    | None => (h, states)
    | Some vrmBoneName =>
        match (h : gmap string BoneRotation) !! vrmBoneName with
        | None => (h, states)
        | Some _ =>
            let r := rot (degToRad (at0 rotation)) (degToRad (at1 rotation))
                         (degToRad (at2 rotation)) in
            let h := <[vrmBoneName := r]> h in
            match (states : gmap string BoneState) !! boneName with
            | Some _ =>
                (h, <[boneName := {| current := r; target := r;
                                     velocity := rot 0 0 0 |}]> states)
            | None => (h, states)
            end
        end
    end in
  let radians := fun rotation : Vec3 =>
    rot (degToRad (at0 rotation)) (degToRad (at1 rotation)) (degToRad (at2 rotation)) in
  let result := foldl step (h, states) (map_to_list pose) in
  result.1 !! b =
    match pose !! b with
    | Some rotation =>
        if decide (is_Some (BONE_MAP !! b) /\ is_Some (h !! b))
        then Some (radians rotation) else h !! b
    | None => h !! b
    end /\
  result.2 !! b =
    match pose !! b with
    | Some rotation =>
        if decide (is_Some (BONE_MAP !! b) /\ is_Some (h !! b))
        then (fun _ => {| current := radians rotation; target := radians rotation;
                          velocity := rot 0 0 0 |}) <$> states !! b
        else states !! b
    | None => states !! b
    end.
Proof.
  cbv zeta.
  pose proof (keyed_pair_loop BONE_MAP
    (fun _ rotation =>
       rot (degToRad (at0 rotation)) (degToRad (at1 rotation)) (degToRad (at2 rotation)))
    (fun _ rotation o =>
       (fun _ => {| current := rot (degToRad (at0 rotation)) (degToRad (at1 rotation))
                                   (degToRad (at2 rotation));
                    target := rot (degToRad (at0 rotation)) (degToRad (at1 rotation))
                                  (degToRad (at2 rotation));
                    velocity := rot 0 0 0 |}) <$> o)) as Hloop.
  rewrite <- (list_to_map_to_list pose) at 2 4.
  apply Hloop; [| apply NoDup_fst_map_to_list].
  intros h0 st k a.
  destruct (BONE_MAP !! k) as [v|] eqn:Hk.
  - rewrite (BONE_MAP_identity _ _ Hk).
    destruct (h0 !! k) eqn:Hb.
    + rewrite decide_True by (split; by eexists).
      destruct (st !! k) eqn:Hs; f_equal; apply map_eq; intros j;
        (destruct (decide (k = j)) as [<-|Hne];
         [rewrite lookup_partial_alter_eq, ?lookup_insert_eq, Hs
         |rewrite lookup_partial_alter_ne, ?lookup_insert_ne by done]); done.
    + rewrite decide_False; [done |]. intros [_ []]. done.
  - rewrite decide_False; [done |]. intros [[] _]. done.
Qed.

End InitFacts.

Section InitTheorems.

Import Easing PoseController.

Lemma DEFAULT_RELAXED_POSE_tracked (b : string) (r : Vec3) :
  DEFAULT_RELAXED_POSE !! b = Some r -> is_Some (BONE_MAP !! b).
Proof.
  intros H. apply elem_of_list_to_map_2 in H. set_unfold in H.
  repeat destruct H as [H | H]; try done; injection H as -> _;
    eexists; vm_compute; reflexivity.
Qed.

Lemma initializeBoneStates_humanoid (s : State) :
  the_humanoid (initializeBoneStates s) = the_humanoid s.
Proof. unfold initializeBoneStates. by destruct (the_humanoid s) eqn:Hh. Qed.

Lemma initializeBoneStates_frame (s : State) :
  let s' := initializeBoneStates s in
  poseTransition s' = poseTransition s /\ elapsedTime s' = elapsedTime s /\
  motionTime s' = motionTime s /\ currentMotion s' = currentMotion s /\
  gestureAnimation s' = gestureAnimation s.
Proof. cbv zeta. unfold initializeBoneStates. by destruct (the_humanoid s). Qed.

(** The bone states and the rig that [init] leaves, bone by bone. *)
Lemma init_shape (v : VRM) (h : gmap string BoneRotation) (s : State) (b : string) :
  humanoid v = Some h ->
  let radians := fun rotation : Vec3 =>
    rot (degToRad (at0 rotation)) (degToRad (at1 rotation)) (degToRad (at2 rotation)) in
  boneStates (init v s) !! b =
    (if decide (is_Some (BONE_MAP !! b)) then
       (fun bone =>
          let r := from_option radians bone (DEFAULT_RELAXED_POSE !! b) in
          {| current := r; target := r; velocity := rot 0 0 0 |}) <$> h !! b
     else None) /\
  rig_rotation (init v s) b =
    match DEFAULT_RELAXED_POSE !! b with
    | Some rotation =>
        if decide (is_Some (BONE_MAP !! b) /\ is_Some (h !! b))
        then Some (radians rotation) else h !! b
    | None => h !! b
    end.
Proof.
  intros Hv. cbv zeta. unfold init.
  set (s4 := set_positionY 0 0 _).
  assert (the_humanoid s4 = Some h) as H4 by done.
  assert (the_humanoid (initializeBoneStates s4) = Some h) as H5
    by by rewrite initializeBoneStates_humanoid.
  pose proof (fun j => initializeBoneStates_lookup s4 h j H4 eq_refl) as Hstates.
  unfold applyPoseImmediate. rewrite H5.
  pose proof (applyPoseImmediate_loop DEFAULT_RELAXED_POSE h
                (boneStates (initializeBoneStates s4)) b) as Hloop.
  cbv zeta in Hloop.
  destruct (foldl _ _ _) as [h' st']. cbn [fst snd] in Hloop.
  destruct Hloop as [Hrig Hst].
  unfold rig_rotation.
  change (the_humanoid (set_basePose DEFAULT_RELAXED_POSE
            (set_boneStates st' (set_humanoid h' (initializeBoneStates s4)))))
    with (the_humanoid (set_humanoid h' (initializeBoneStates s4))).
  rewrite (the_humanoid_set_humanoid h h' _ H5).
  cbn [boneStates set_basePose set_boneStates mbind option_bind].
  split; [| done].
  rewrite Hst, Hstates.
  destruct (DEFAULT_RELAXED_POSE !! b) as [rotation|] eqn:Hd; cbn [from_option]; [| done].
  pose proof (DEFAULT_RELAXED_POSE_tracked _ _ Hd) as Htracked.
  destruct (h !! b) as [bone|] eqn:Hb.
  - by rewrite !decide_True by (try split; eauto).
  - rewrite (decide_False (P := _ /\ _)) by (by intros [_ []]).
    by repeat case_decide.
Qed.

Lemma degrees_of_radians (rotation : Vec3) (state : BoneState) :
  current state = rot (degToRad (at0 rotation)) (degToRad (at1 rotation))
                      (degToRad (at2 rotation)) ->
  current_degrees state = rotation.
Proof.
  intros Hc. unfold current_degrees. rewrite Hc. unfold degToRad. cbn [rot_x rot_y rot_z].
  pose proof PI_RGT_0. destruct rotation. cbn. f_equal; field; lra.
Qed.

Lemma init_facts (v : VRM) (h : gmap string BoneRotation) (s : State) :
  humanoid v = Some h ->
  let s' := init v s in
  (forall b, is_Some (boneStates s' !! b) <-> is_Some (BONE_MAP !! b) /\ is_Some (h !! b)) /\
  (forall b state, boneStates s' !! b = Some state -> at_rest state) /\
  rig_in_sync s' /\
  poseTransition s' = None /\ elapsedTime s' = 0 /\ motionTime s' = 0 /\
  basePose s' = DEFAULT_RELAXED_POSE /\
  currentMotion s' = currentMotion s /\ gestureAnimation s' = gestureAnimation s.
Proof.
  intros Hv. cbv zeta.
  pose proof (fun b => init_shape v h s b Hv) as Hshape. cbv zeta in Hshape.
  split; [| split; [| split]].
  - intros b. destruct (Hshape b) as [-> _].
    case_decide as Hb.
    + rewrite fmap_is_Some. tauto.
    + split; [by intros [] | tauto].
  - intros b state. destruct (Hshape b) as [-> _].
    case_decide; [| done]. destruct (h !! b); [| done].
    intros [= <-]. by split.
  - intros b state vrmBoneName Hst Hmap _.
    rewrite (BONE_MAP_identity _ _ Hmap).
    destruct (Hshape b) as [Hstates ->]. rewrite Hstates in Hst.
    rewrite decide_True in Hst by by eexists.
    destruct (h !! b) as [bone|] eqn:Hb; [| done].
    injection Hst as <-. cbn [current].
    destruct (DEFAULT_RELAXED_POSE !! b); cbn [from_option]; [| done].
    rewrite decide_True; [done | split; by eexists].
  - unfold init, applyPoseImmediate.
    set (s5 := initializeBoneStates _).
    assert (the_humanoid s5 = Some h) as H5
      by (unfold s5; by rewrite initializeBoneStates_humanoid).
    assert (poseTransition s5 = None /\ elapsedTime s5 = 0 /\ motionTime s5 = 0
            /\ currentMotion s5 = currentMotion s
            /\ gestureAnimation s5 = gestureAnimation s) as (Ht & He & Hm & Hc & Hg).
    { unfold s5. by destruct (initializeBoneStates_frame
                               (set_positionY 0 0
                                  (set_poseTransition None
                                     (set_boneStates ∅
                                        (set_times 0 0 (set_vrm (Some v) s))))))
                  as (-> & -> & -> & -> & ->). }
    rewrite H5. destruct (foldl _ _ _) as [h' st'].
    assert (vrm s5 <> None) as Hvrm.
    { intros Hnone. unfold the_humanoid in H5. by rewrite Hnone in H5. }
    unfold set_humanoid. destruct (vrm s5); [| done].
    by repeat split.
Qed.

(** X14. [init] on a rig with a humanoid tracks exactly the bones of
    [BONE_MAP] that the rig has, each resting on its target with zero
    velocity and shown by the rig as its state's current rotation; it starts
    the clocks at zero with no pose transition and the relaxed pose as base
    pose, and leaves the motion and the gesture of the controller as they
    were. *)
Theorem init_establishes (v : VRM) (h : gmap string BoneRotation) (s : State) :
  humanoid v = Some h ->
  let s' := init v s in
  (forall b, is_Some (boneStates s' !! b) <-> is_Some (BONE_MAP !! b) /\ is_Some (h !! b)) /\
  (forall b state, boneStates s' !! b = Some state -> at_rest state) /\
  rig_in_sync s' /\
  poseTransition s' = None /\ elapsedTime s' = 0 /\ motionTime s' = 0 /\
  basePose s' = DEFAULT_RELAXED_POSE /\
  currentMotion s' = currentMotion s /\ gestureAnimation s' = gestureAnimation s.
Proof. apply init_facts. Qed.

Lemma init_establishes_witness :
  rig_in_sync (init spine_rig fresh).
Proof.
  apply (init_establishes spine_rig {["spine"%string := rot 0 0 0]} fresh eq_refl).
Defined.

(** X15. Degrees survive [init]: for every bone of the relaxed pose that the
    rig has, [getCurrentPose] after [init] returns the rotation of the
    relaxed pose, and the rig holds it in radians; a rig bone the relaxed
    pose does not name keeps its rotation. *)
Theorem init_pose_round_trip (v : VRM) (h : gmap string BoneRotation) (s : State) :
  humanoid v = Some h ->
  (forall b rotation,
     DEFAULT_RELAXED_POSE !! b = Some rotation -> is_Some (h !! b) ->
     getCurrentPose (init v s) !! b = Some rotation /\
     rig_rotation (init v s) b =
     Some (rot (degToRad (at0 rotation)) (degToRad (at1 rotation))
               (degToRad (at2 rotation)))) /\
  (forall b, DEFAULT_RELAXED_POSE !! b = None -> rig_rotation (init v s) b = h !! b).
Proof.
  intros Hv. split.
  - intros b rotation Hd [bone Hb].
    pose proof (DEFAULT_RELAXED_POSE_tracked _ _ Hd) as Htracked.
    destruct (init_shape v h s b Hv) as [Hst Hrig]. cbv zeta in Hst, Hrig.
    rewrite getCurrentPose_lookup, Hst, Hrig, Hd, Hb.
    rewrite !decide_True by (try split; by eauto). cbn.
    split; [| done]. f_equal. by apply degrees_of_radians.
  - intros b Hd. destruct (init_shape v h s b Hv) as [_ ->]. by rewrite Hd.
Qed.

Lemma init_pose_round_trip_witness :
  getCurrentPose (init spine_rig fresh) !! "spine"%string = Some (vec3 2 0 0).
Proof.
  apply (init_pose_round_trip spine_rig {["spine"%string := rot 0 0 0]} fresh eq_refl).
  - by vm_compute.
  - by eexists.
Defined.

End InitTheorems.

Section TickFacts.

Import Easing PoseController.

(** The damping step bone by bone: a tracked bone bound in [BONE_MAP] and
    present in the rig takes one [dampBone] step and the rig shows its new
    current rotation; every other bone state and rig bone stays. *)
Lemma applyBoneRotations_fold (delta : R) (s : State) (h : gmap string BoneRotation) :
  the_humanoid s = Some h ->
  exists h' st',
    applyBoneRotations delta s = set_boneStates st' (set_humanoid h' s) /\
    (forall b, st' !! b =
       (fun state =>
          if decide (is_Some (BONE_MAP !! b) /\ is_Some (h !! b))
          then dampBone (smoothTime s) delta state else state) <$> boneStates s !! b) /\
    (forall b, h' !! b =
       match boneStates s !! b with
       | Some state =>
           if decide (is_Some (BONE_MAP !! b) /\ is_Some (h !! b))
           then Some (current (dampBone (smoothTime s) delta state)) else h !! b
       | None => h !! b
       end).
Proof.
  intros Hh. unfold applyBoneRotations. rewrite Hh.
  pose proof (keyed_pair_loop BONE_MAP
    (fun _ state => current (dampBone (smoothTime s) delta state))
    (fun _ state _ => Some (dampBone (smoothTime s) delta state))) as Hloop.
  specialize (Hloop
    (fun '(h, states) '(boneName, state) =>
       match BONE_MAP !! boneName with
       | None => (h, states)
       | Some vrmBoneName =>
           match (h : gmap string BoneRotation) !! vrmBoneName with
           | None => (h, states)
           | Some _ =>
               let state := dampBone (smoothTime s) delta state in
               (<[vrmBoneName := current state]> h,
                <[boneName := state]> (states : gmap string BoneState))
           end
       end)).
  match type of Hloop with (?P -> _) => assert P as Hstep end.
  { intros h0 st k a.
    destruct (BONE_MAP !! k) as [v|] eqn:Hk.
    - rewrite (BONE_MAP_identity _ _ Hk).
      destruct (h0 !! k) eqn:Hb.
      + by rewrite decide_True by (split; by eexists).
      + rewrite decide_False; [done |]. by intros [_ []].
    - rewrite decide_False; [done |]. by intros [[] _]. }
  pose proof (fun b => Hloop Hstep (map_to_list (boneStates s))
                         (NoDup_fst_map_to_list _) h (boneStates s) b) as Hboth.
  clear Hloop Hstep.
  destruct (foldl _ _ _) as [h' st']. cbn [fst snd] in Hboth.
  exists h', st'. split; [done |]. split; intros b.
  - destruct (Hboth b) as [_ ->]. rewrite list_to_map_to_list.
    destruct (boneStates s !! b) as [state|] eqn:Hb; rewrite ?Hb; [| done].
    cbn [fmap option_fmap option_map]. by destruct (decide _).
  - destruct (Hboth b) as [-> _]. by rewrite list_to_map_to_list.
Qed.

Lemma applyBoneRotations_shape (delta : R) (s : State) (h : gmap string BoneRotation)
    (b : string) :
  the_humanoid s = Some h ->
  boneStates (applyBoneRotations delta s) !! b =
    (fun state =>
       if decide (is_Some (BONE_MAP !! b) /\ is_Some (h !! b))
       then dampBone (smoothTime s) delta state else state) <$> boneStates s !! b /\
  rig_rotation (applyBoneRotations delta s) b =
    match boneStates s !! b with
    | Some state =>
        if decide (is_Some (BONE_MAP !! b) /\ is_Some (h !! b))
        then Some (current (dampBone (smoothTime s) delta state)) else h !! b
    | None => h !! b
    end.
Proof.
  intros Hh.
  destruct (applyBoneRotations_fold delta s h Hh) as (h' & st' & -> & Hst & Hrig).
  unfold rig_rotation.
  change (the_humanoid (set_boneStates st' (set_humanoid h' s)))
    with (the_humanoid (set_humanoid h' s)).
  rewrite (the_humanoid_set_humanoid h h' s Hh).
  cbn [boneStates set_boneStates mbind option_bind].
  by rewrite Hst, Hrig.
Qed.

Lemma applyBoneRotations_sync (delta : R) (s : State) :
  rig_in_sync (applyBoneRotations delta s).
Proof.
  intros b state v Hst Hmap Hrig. rewrite (BONE_MAP_identity _ _ Hmap) in *.
  destruct (the_humanoid s) as [h|] eqn:Hh.
  - destruct (applyBoneRotations_shape delta s h b Hh) as [Hs Hr].
    rewrite Hs in Hst. rewrite Hr in Hrig |- *.
    destruct (boneStates s !! b) as [st0|]; [| by inversion Hst].
    cbn [fmap option_fmap option_map] in Hst. apply (inj Some) in Hst.
    destruct (decide _) as [Hguard|Hguard].
    + by rewrite <- Hst.
    + exfalso. apply Hguard. split; [by eexists | done].
  - unfold applyBoneRotations in Hrig. rewrite Hh in Hrig.
    unfold rig_rotation in Hrig. rewrite Hh in Hrig. by destruct Hrig.
Qed.

Lemma update_idle_normal (delta : R) (s : State) :
  gestureAnimation s = None ->
  update delta s = Normal (state_of (update delta s)).
Proof.
  intros Hg. unfold update.
  destruct (the_humanoid s); [| done].
  set (s0 := set_times _ _ s).
  destruct (updatePoseTransition_frame s0) as (Hg1 & _).
  by rewrite updateGestureAnimation_idle by (rewrite Hg1; exact Hg).
Qed.

(** X16. After every tick that returns, the rig shows the bone states: each
    tracked bone bound in [BONE_MAP] that the rig has is rotated exactly as
    its state's current rotation. *)
Theorem update_keeps_rig_in_sync (delta : R) (s s' : State) :
  update delta s = Normal s' -> is_Some (the_humanoid s) -> rig_in_sync s'.
Proof.
  intros Hupd Hh. rewrite update_unfold in Hupd by done.
  destruct (tick_prefix delta s) as [s1|s1]; cbn [and_then] in Hupd; [| done].
  injection Hupd as <-. apply applyBoneRotations_sync.
Qed.

Lemma update_keeps_rig_in_sync_witness :
  rig_in_sync (state_of (update (1 / 60) spine_controller)).
Proof.
  apply (update_keeps_rig_in_sync (1 / 60) spine_controller).
  - by apply update_idle_normal.
  - by eexists.
Defined.

Lemma dampBone_at_rest (st delta : R) (state : BoneState) :
  at_rest state -> dampBone st delta state = state.
Proof.
  intros [Hc Hv]. destruct state as [[cx cy cz] [tx ty tz] vel].
  cbn in Hc, Hv. injection Hc as -> -> ->. subst vel.
  unfold dampBone. cbn [current target velocity rot_x rot_y rot_z].
  by rewrite !smoothDamp_settled.
Qed.

Lemma updateBodyMotion_still (delta : R) (s : State) :
  from_option (fun m => intensity m = 0) True (currentMotion s) ->
  updateBodyMotion delta s = s.
Proof.
  intros Hm. unfold updateBodyMotion.
  destruct (currentMotion s) as [m|]; [| done]. cbn in Hm.
  destruct (the_humanoid s); [| done].
  by rewrite (bool_decide_eq_true_2 _ Hm).
Qed.

Lemma state_rebuild (s : State) (h : gmap string BoneRotation) :
  the_humanoid s = Some h -> set_boneStates (boneStates s) (set_humanoid h s) = s.
Proof.
  unfold the_humanoid, set_humanoid. destruct s as [[[hum sc]|] ? ? ? ? ? ? ? ? ? ? ? ?];
    cbn; [| done]. by intros ->.
Qed.

Lemma applyBoneRotations_settled (delta : R) (s : State) :
  (forall b state, boneStates s !! b = Some state -> at_rest state) ->
  rig_in_sync s -> applyBoneRotations delta s = s.
Proof.
  intros Hrest Hsync.
  destruct (the_humanoid s) as [h|] eqn:Hh;
    [| by unfold applyBoneRotations; rewrite Hh].
  destruct (applyBoneRotations_fold delta s h Hh) as (h' & st' & -> & Hst & Hrig).
  assert (st' = boneStates s) as ->.
  { apply map_eq. intros b. rewrite Hst.
    destruct (boneStates s !! b) as [state|] eqn:Hb; [| done]. cbn.
    case_decide; [| done]. by rewrite dampBone_at_rest by eauto. }
  assert (h' = h) as ->.
  { apply map_eq. intros b. rewrite Hrig.
    destruct (boneStates s !! b) as [state|] eqn:Hb; [| done].
    case_decide as Hguard; [| done]. destruct Hguard as [[v Hv] Hsome].
    rewrite dampBone_at_rest by eauto.
    pose proof (Hsync b state v Hb Hv) as Hshown.
    rewrite (BONE_MAP_identity _ _ Hv) in Hshown.
    unfold rig_rotation in Hshown. rewrite Hh in Hshown. cbn in Hshown.
    symmetry. by apply Hshown. }
  by apply state_rebuild.
Qed.

(** X17. A settled controller is stable: with a rig, no pose transition, no
    gesture, no motion (or a motion of intensity zero), every bone resting on
    its target and the rig showing the bone states, a tick of positive length
    only advances the two clocks. *)
Theorem update_settled_is_stable (delta : R) (s : State) :
  delta > 0 ->
  is_Some (the_humanoid s) ->
  poseTransition s = None -> gestureAnimation s = None ->
  from_option (fun m => intensity m = 0) True (currentMotion s) ->
  (forall b state, boneStates s !! b = Some state -> at_rest state) ->
  rig_in_sync s ->
  update delta s = Normal (set_times (motionTime s + delta) (elapsedTime s + delta) s).
Proof.
  intros _ Hh Htr Hg Hm Hrest Hsync.
  rewrite update_unfold by done. unfold tick_prefix.
  set (s0 := set_times _ _ s).
  assert (updatePoseTransition s0 = s0) as ->.
  { unfold updatePoseTransition.
    change (poseTransition s0) with (poseTransition s). by rewrite Htr. }
  rewrite updateGestureAnimation_idle by done. cbn [and_then].
  rewrite updateBodyMotion_still by done.
  by rewrite applyBoneRotations_settled.
Qed.

Lemma update_settled_is_stable_witness :
  let s := init spine_rig fresh in
  update (1 / 60) s = Normal (set_times (motionTime s + 1 / 60) (elapsedTime s + 1 / 60) s).
Proof.
  intros s.
  pose proof (init_facts spine_rig {["spine"%string := rot 0 0 0]} fresh eq_refl)
    as (_ & Hrest & Hsync & Htr & _ & _ & _ & Hc & Hg).
  apply (update_settled_is_stable (1 / 60) s).
  - lra.
  - eexists. reflexivity.
  - exact Htr.
  - exact Hg.
  - unfold s. rewrite Hc. exact I.
  - exact Hrest.
  - exact Hsync.
Defined.

End TickFacts.

Section SetupFacts.

Import Easing PoseController.

Lemma same_setup_refl (s : State) : same_setup s s.
Proof. by repeat split. Qed.

Lemma same_setup_trans (s1 s2 s3 : State) :
  same_setup s1 s2 -> same_setup s2 s3 -> same_setup s1 s3.
Proof.
  intros (? & ? & ? & ? & ? & H12) (? & ? & ? & ? & ? & H23).
  repeat split; try congruence.
  - intros Hb. by apply H23, H12.
  - intros Hb. by apply H12, H23.
Qed.

Lemma same_setup_targets (states : gmap string BoneState) (s : State) :
  (forall b, is_Some (states !! b) <-> is_Some (boneStates s !! b)) ->
  same_setup (set_boneStates states s) s.
Proof. intros H. by repeat split; try apply H. Qed.

Lemma write_targets_tracked (fromMap toMap : gmap string Vec3) (t : R)
    (states : gmap string BoneState) (b : string) :
  is_Some (write_targets fromMap toMap t states !! b) <-> is_Some (states !! b).
Proof.
  rewrite write_targets_lookup. destruct (toMap !! b); [| done].
  by rewrite fmap_is_Some.
Qed.

Lemma updatePoseTransition_setup (s : State) : same_setup (updatePoseTransition s) s.
Proof.
  unfold updatePoseTransition.
  destruct (poseTransition s) as [tr|]; [| apply same_setup_refl].
  destruct (the_humanoid s); [| apply same_setup_refl].
  set (states := write_targets _ _ _ _).
  assert (same_setup (set_boneStates states s) s) as Hset
    by (apply same_setup_targets; intros b; apply write_targets_tracked).
  case_decide; [| done].
  destruct Hset as (? & ? & ? & ? & ? & Htracked).
  repeat split; try done; apply Htracked.
Qed.

Lemma interpolateKeyframes_setup (g : BodyGesture) (progress : R) (s : State) :
  same_setup (state_of (interpolateKeyframes g progress s)) s.
Proof.
  unfold interpolateKeyframes.
  destruct (find_bracket progress (keyframes g)) as [[p n]|].
  - apply same_setup_targets. intros b. apply write_targets_tracked.
  - destruct (keyframes g !! 1%nat); destruct (keyframes g !! 0%nat);
      try apply same_setup_refl;
      apply same_setup_targets; intros b; apply write_targets_tracked.
Qed.

Lemma updateGestureAnimation_setup (s : State) :
  same_setup (state_of (updateGestureAnimation s)) s /\
  elapsedTime (state_of (updateGestureAnimation s)) = elapsedTime s /\
  motionTime (state_of (updateGestureAnimation s)) = motionTime s.
Proof.
  unfold updateGestureAnimation.
  destruct (gestureAnimation s) as [ga|]; [| by split; [apply same_setup_refl |]].
  destruct (the_humanoid s); [| by split; [apply same_setup_refl |]].
  destruct (isPlaying ga); cbn [negb]; [| by split; [apply same_setup_refl |]].
  assert (forall p s0, elapsedTime (state_of (interpolateKeyframes (gesture ga) p s0))
                       = elapsedTime s0
                       /\ motionTime (state_of (interpolateKeyframes (gesture ga) p s0))
                          = motionTime s0) as Htimes.
  { intros p s0. unfold interpolateKeyframes.
    destruct (find_bracket p (keyframes (gesture ga))) as [[? ?]|]; [done |].
    by destruct (keyframes (gesture ga) !! 1%nat); destruct (keyframes (gesture ga) !! 0%nat). }
  case_decide; [destruct (loop (gesture ga)) |].
  - set (s0 := set_gestureAnimation _ s).
    split; [| apply (Htimes 0 s0)].
    eapply same_setup_trans; [apply interpolateKeyframes_setup |]. by repeat split.
  - by repeat split.
  - split; [apply interpolateKeyframes_setup | apply Htimes].
Qed.

Lemma applyOffsets_setup (offsets : gmap string Vec3) (s : State) :
  same_setup (applyOffsets offsets s) s.
Proof.
  assert (forall b, is_Some (boneStates (applyOffsets offsets s) !! b)
                    <-> is_Some (boneStates s !! b)) as Htracked.
  { intros b. destruct (poseTransition s) eqn:Htr.
    - by rewrite applyOffsets_boneStates_pending by by eexists.
    - rewrite applyOffsets_lookup by done.
      destruct (offsets !! b); [| done]. cbv zeta. by rewrite fmap_is_Some. }
  repeat split; try done; apply Htracked.
Qed.

Lemma dampPositionY_setup (targetY st delta : R) (s : State) :
  same_setup (dampPositionY targetY st delta s) s /\
  elapsedTime (dampPositionY targetY st delta s) = elapsedTime s /\
  motionTime (dampPositionY targetY st delta s) = motionTime s.
Proof.
  unfold dampPositionY. destruct (vrm s); [| by repeat split].
  destruct (smoothDamp _ _ _ _ _ _). by repeat split.
Qed.

Lemma updateBodyMotion_setup (delta : R) (s : State) :
  same_setup (updateBodyMotion delta s) s /\
  elapsedTime (updateBodyMotion delta s) = elapsedTime s /\
  motionTime (updateBodyMotion delta s) = motionTime s.
Proof.
  unfold updateBodyMotion.
  destruct (currentMotion s) as [m|]; [| by repeat split].
  destruct (the_humanoid s); [| by repeat split].
  destruct (_ || _); [by repeat split |].
  destruct (gesture_playing s); [by repeat split |].
  unfold updateBouncePosition, updateFloatPosition.
  destruct (type m) eqn:Hty; unfold motionOffsets; rewrite ?Hty;
    try (split; [apply applyOffsets_setup | done]);
    destruct (_ ← vrm s; _); try (by repeat split); apply dampPositionY_setup.
Qed.

Lemma applyBoneRotations_setup (delta : R) (s : State) :
  same_setup (applyBoneRotations delta s) s /\
  elapsedTime (applyBoneRotations delta s) = elapsedTime s /\
  motionTime (applyBoneRotations delta s) = motionTime s.
Proof.
  destruct (the_humanoid s) as [h|] eqn:Hh.
  - destruct (applyBoneRotations_fold delta s h Hh) as (h' & st' & -> & Hst & _).
    unfold set_humanoid. destruct (vrm s).
    + repeat split; try done; cbn [boneStates set_boneStates set_vrm];
        rewrite Hst, fmap_is_Some; done.
    + repeat split; try done; cbn [boneStates set_boneStates];
        rewrite Hst, fmap_is_Some; done.
  - unfold applyBoneRotations. rewrite Hh. by repeat split.
Qed.

(** X18. Whatever a tick does, and whether it returns or raises, it leaves
    the base pose, the current motion, the smoothing and transition settings
    and the base position as they were, it neither adds nor drops a tracked
    bone, and on a controller with a rig it advances both clocks by exactly
    the time step. *)
Theorem update_preserves_setup (delta : R) (s : State) :
  let s' := state_of (update delta s) in
  same_setup s' s /\
  (is_Some (the_humanoid s) ->
   elapsedTime s' = elapsedTime s + delta /\ motionTime s' = motionTime s + delta) /\
  (the_humanoid s = None -> s' = s).
Proof.
  cbv zeta. unfold update.
  destruct (the_humanoid s) as [h|] eqn:Hh;
    [| split; [apply same_setup_refl | split; [by intros [] | done]]].
  set (s0 := set_times _ _ s).
  assert (same_setup s0 s) as H0 by by repeat split.
  pose proof (updatePoseTransition_setup s0) as H1.
  destruct (updatePoseTransition_frame s0) as (_ & He1 & _ & _ & Hm1).
  destruct (updateGestureAnimation_setup (updatePoseTransition s0)) as (H2 & He2 & Hm2).
  assert (same_setup (state_of (updateGestureAnimation (updatePoseTransition s0))) s) as H012.
  { eapply same_setup_trans; [exact H2 |]. eapply same_setup_trans; [exact H1 | exact H0]. }
  destruct (updateGestureAnimation (updatePoseTransition s0)) as [s2|s2];
    cbn [and_then state_of] in *.
  - destruct (updateBodyMotion_setup delta s2) as (H3 & He3 & Hm3).
    destruct (applyBoneRotations_setup delta (updateBodyMotion delta s2)) as (H4 & He4 & Hm4).
    split; [| split; [| done]].
    + eapply same_setup_trans; [exact H4 |]. eapply same_setup_trans; [exact H3 | exact H012].
    + intros _. rewrite He4, He3, He2, He1, Hm4, Hm3, Hm2, Hm1. done.
  - split; [done |]. split; [| done]. intros _. by rewrite He2, He1, Hm2, Hm1.
Qed.

End SetupFacts.

Section MotionFacts.

Import Easing PoseController.

Lemma applyOffsets_idempotent (offsets : gmap string Vec3) (s : State) :
  boneStates (applyOffsets offsets (applyOffsets offsets s)) =
  boneStates (applyOffsets offsets s).
Proof.
  destruct (poseTransition s) as [tr|] eqn:Htr.
  - rewrite applyOffsets_boneStates_pending; [done |].
    change (poseTransition (applyOffsets offsets s)) with (poseTransition s).
    by eexists.
  - apply map_eq. intros b.
    rewrite applyOffsets_lookup by done.
    change (basePose (applyOffsets offsets s)) with (basePose s).
    rewrite applyOffsets_lookup by done.
    destruct (offsets !! b); [| done]. cbv zeta.
    by destruct (boneStates s !! b).
Qed.

(** On two states with the same motion, gesture, rig presence and motion
    clock, the motion step either leaves the bone states of both alone or
    applies the same offsets to both. *)
Lemma updateBodyMotion_cases (delta : R) (s t : State) :
  currentMotion t = currentMotion s -> the_humanoid t = the_humanoid s ->
  gestureAnimation t = gestureAnimation s -> motionTime t = motionTime s ->
  (boneStates (updateBodyMotion delta s) = boneStates s /\
   boneStates (updateBodyMotion delta t) = boneStates t) \/
  exists offsets,
    updateBodyMotion delta s = applyOffsets offsets s /\
    updateBodyMotion delta t = applyOffsets offsets t.
Proof.
  intros Hc Hh Hg Hm. unfold updateBodyMotion, gesture_playing.
  rewrite Hc, Hh, Hg, Hm.
  destruct (currentMotion s) as [m|]; [| by left].
  destruct (the_humanoid s); [| by left].
  destruct (_ || _); [by left |].
  destruct (from_option isPlaying false (gestureAnimation s)); [by left |].
  unfold updateBouncePosition, updateFloatPosition.
  destruct (type m) eqn:Hty;
    first
      [ left; split;
        (destruct (_ ← vrm _; _); [| done];
         match goal with
         | |- context [dampPositionY ?a ?b ?c ?s0] =>
             by destruct (dampPositionY_frame a b c s0) as (_ & _ & -> & _)
         end)
      | destruct (motionOffsets m _ _) as [offsets|] eqn:Hoff; [| by left];
        right; by exists offsets ].
Qed.

(** X19. Motion offsets do not accumulate: running the motion step twice in
    the same state of the clocks leaves the bone states exactly as running it
    once, because every target it writes is base pose plus offset and never
    builds on the target of the previous call. *)
Theorem updateBodyMotion_does_not_accumulate (delta : R) (s : State) :
  boneStates (updateBodyMotion delta (updateBodyMotion delta s)) =
  boneStates (updateBodyMotion delta s).
Proof.
  destruct (updateBodyMotion_frame delta s) as (_ & Hg & Hh & _).
  destruct (updateBodyMotion_setup delta s) as ((_ & Hc & _) & _ & Hm).
  destruct (updateBodyMotion_cases delta s (updateBodyMotion delta s) Hc Hh Hg Hm)
    as [[_ Hsame] | (offsets & Hupd & Hagain)]; [done |].
  rewrite Hagain, Hupd. apply applyOffsets_idempotent.
Qed.

(** X20. A controller without a rig, before [init] or after [dispose],
    ignores ticks and poses: on a disposed controller [update], [applyPose]
    and [applyHandGesture] change nothing, a second [dispose] changes
    nothing, [getCurrentPose] is empty and the base pose is the relaxed pose
    again; and a tick on a new controller changes nothing. *)
Theorem disposed_controller_is_inert (delta : R) (pose : PosePreset) (g : HandGesture)
    (s : State) :
  let d := dispose s in
  update delta d = Normal d /\ applyPose pose d = d /\ applyHandGesture g d = d /\
  dispose d = d /\ getCurrentPose d = ∅ /\ basePose d = DEFAULT_RELAXED_POSE /\
  update delta createPoseController = Normal createPoseController.
Proof. by repeat split. Qed.

End MotionFacts.

(** * Further properties of the gesture player *)

Section KeyframeFacts.

Import Easing PoseController.

Lemma find_bracket_cons (p : R) (k k' : Keyframe) (rest : list Keyframe) :
  find_bracket p (k :: k' :: rest) =
  if bool_decide (p >= time k) && bool_decide (p < time k')
  then Some (k, k') else find_bracket p (k' :: rest).
Proof. done. Qed.

Lemma bracket_test (p : R) (k k' : Keyframe) :
  bool_decide (p >= time k) && bool_decide (p < time k') = true <->
  time k <= p < time k'.
Proof.
  rewrite andb_true_iff, !bool_decide_eq_true. split; intros []; split; lra.
Qed.

Lemma find_bracket_Some (p : R) (kfs : list Keyframe) (a b : Keyframe) :
  find_bracket p kfs = Some (a, b) ->
  exists i, kfs !! i = Some a /\ kfs !! S i = Some b /\ time a <= p < time b /\
    forall j a' b', (j < i)%nat -> kfs !! j = Some a' -> kfs !! S j = Some b' ->
      ~ time a' <= p < time b'.
Proof.
  induction kfs as [|k [|k' rest] IH]; [done | done |].
  rewrite find_bracket_cons.
  destruct (bool_decide _ && bool_decide _) eqn:Htest.
  - intros [= <- <-]. exists 0%nat.
    split; [done |]. split; [done |]. split; [by apply bracket_test |].
    intros j a' b' Hj. lia.
  - intros Hrest. destruct (IH Hrest) as (i & Ha & Hb & Hin & Hfirst).
    exists (S i). split; [done |]. split; [done |]. split; [done |].
    intros [|j] a' b' Hj Ha' Hb'.
    + cbn in Ha', Hb'. injection Ha' as <-. injection Hb' as <-.
      intros Hbr. apply bracket_test in Hbr. congruence.
    + apply (Hfirst j a' b'); [lia | done | done].
Qed.

Lemma find_bracket_None (p : R) (kfs : list Keyframe) :
  find_bracket p kfs = None ->
  forall j a' b', kfs !! j = Some a' -> kfs !! S j = Some b' -> ~ time a' <= p < time b'.
Proof.
  induction kfs as [|k [|k' rest] IH]; [done | |].
  - intros _ [|j] a' b'; [done |]. by destruct j.
  - rewrite find_bracket_cons.
    destruct (bool_decide _ && bool_decide _) eqn:Htest; [done |].
    intros Hrest [|j] a' b' Ha' Hb'.
    + cbn in Ha', Hb'. injection Ha' as <-. injection Hb' as <-.
      intros Hbr. apply bracket_test in Hbr. congruence.
    + by apply (IH Hrest j a' b').
Qed.

Lemma find_bracket_exists (p : R) (kfs : list Keyframe) (first final : Keyframe) :
  head kfs = Some first -> last kfs = Some final -> time first <= p < time final ->
  is_Some (find_bracket p kfs).
Proof.
  revert first. induction kfs as [|k [|k' rest] IH]; intros first; [done | |].
  - cbn. intros [= <-] [= <-]. lra.
  - intros [= <-] Hlast Hp. rewrite find_bracket_cons.
    destruct (bool_decide _ && bool_decide _) eqn:Htest; [by eexists |].
    apply (IH k'); [done | done |].
    destruct (Rlt_le_dec p (time k')) as [Hlt|Hge]; [| lra].
    exfalso. assert (bool_decide (p >= time k) && bool_decide (p < time k') = true)
      by (apply bracket_test; lra). congruence.
Qed.

(** X21. The keyframe search returns the first adjacent pair of keyframes
    whose times enclose the progress ([time a <= progress < time b]); it
    returns nothing only when no adjacent pair does; and it always finds a
    pair when the progress lies between the time of the first keyframe and
    that of the last. *)
Theorem find_bracket_correct (progress : R) (keyframes : list Keyframe) :
  (forall a b, find_bracket progress keyframes = Some (a, b) ->
     exists i, keyframes !! i = Some a /\ keyframes !! S i = Some b /\
       time a <= progress < time b /\
       forall j a' b', (j < i)%nat ->
         keyframes !! j = Some a' -> keyframes !! S j = Some b' ->
         ~ time a' <= progress < time b') /\
  (find_bracket progress keyframes = None ->
   forall j a' b', keyframes !! j = Some a' -> keyframes !! S j = Some b' ->
     ~ time a' <= progress < time b') /\
  (forall first final,
     head keyframes = Some first -> last keyframes = Some final ->
     time first <= progress < time final ->
     is_Some (find_bracket progress keyframes)).
Proof.
  split; [apply find_bracket_Some |].
  split; [apply find_bracket_None | apply find_bracket_exists].
Qed.

Lemma easeInOutSine_unit (t : R) : 0 <= easeInOutSine t <= 1.
Proof. unfold easeInOutSine. pose proof (COS_bound (PI * t)). lra. Qed.

(** The two keyframes the player interpolates between. *)
Lemma interpolateKeyframes_shape (g : BodyGesture) (progress : R) (s s' : State) :
  interpolateKeyframes g progress s = Normal s' ->
  exists prevKeyframe nextKeyframe t,
    prevKeyframe ∈ keyframes g /\ nextKeyframe ∈ keyframes g /\ 0 <= t <= 1 /\
    s' = set_boneStates
           (write_targets (kf_bones prevKeyframe) (kf_bones nextKeyframe) t (boneStates s)) s.
Proof.
  unfold interpolateKeyframes.
  destruct (find_bracket progress (keyframes g)) as [[p n]|] eqn:Hfind.
  - intros [= <-].
    destruct (find_bracket_Some _ _ _ _ Hfind) as (i & Hp & Hn & _).
    eexists p, n, _. split; [by eapply list_elem_of_lookup_2 |].
    split; [by eapply list_elem_of_lookup_2 |].
    split; [apply easeInOutSine_unit | done].
  - destruct (keyframes g !! 0%nat) as [k0|] eqn:H0.
    + destruct (keyframes g !! 1%nat) as [k1|] eqn:H1; intros [= <-].
      * eexists k0, k1, _. split; [by eapply list_elem_of_lookup_2 |].
        split; [by eapply list_elem_of_lookup_2 |].
        split; [apply easeInOutSine_unit | done].
      * eexists k0, k0, _. split; [by eapply list_elem_of_lookup_2 |].
        split; [by eapply list_elem_of_lookup_2 |].
        split; [apply easeInOutSine_unit | done].
    + by destruct (keyframes g !! 1%nat).
Qed.



End KeyframeFacts.

(** * Further properties of hand gestures *)

Section HandFacts.

Import Easing PoseController.

Lemma fingerConfig_cases (side : Side) (f : string) (bones : list string) (isThumb : bool) :
  fingerConfig side f = Some (bones, isThumb) ->
  (f, (bones, isThumb)) ∈ fingerBones side.
Proof. apply elem_of_list_to_map_2. Qed.

Lemma fingerConfig_joints (side : Side) (f : string) (bones : list string) (isThumb : bool)
    (j : string) :
  fingerConfig side f = Some (bones, isThumb) -> j ∈ bones -> j ∈ finger_joints side.
Proof.
  intros Hf Hj. apply fingerConfig_cases in Hf.
  apply list_elem_of_In, in_flat_map. exists (f, (bones, isThumb)).
  split; [by apply list_elem_of_In | by apply list_elem_of_In].
Qed.

Lemma fingerConfig_NoDup (side : Side) (f : string) (bones : list string) (isThumb : bool) :
  fingerConfig side f = Some (bones, isThumb) -> NoDup bones.
Proof.
  intros Hf. apply fingerConfig_cases in Hf.
  destruct side; unfold fingerBones in Hf; set_unfold in Hf;
    repeat destruct Hf as [Hf | Hf]; try done; injection Hf as _ -> _;
    apply (bool_decide_unpack _); by vm_compute.
Qed.

Lemma fingerConfig_disjoint (side : Side) (f f' : string) (bones bones' : list string)
    (isThumb isThumb' : bool) (j : string) :
  fingerConfig side f = Some (bones, isThumb) ->
  fingerConfig side f' = Some (bones', isThumb') ->
  j ∈ bones -> j ∈ bones' -> f = f'.
Proof.
  intros Hf Hf' Hj Hj'. apply fingerConfig_cases in Hf, Hf'.
  destruct side; unfold fingerBones in Hf, Hf'; set_unfold in Hf; set_unfold in Hf';
    repeat destruct Hf as [Hf | Hf]; try done; injection Hf as -> -> ->;
    repeat destruct Hf' as [Hf' | Hf']; try done; injection Hf' as -> -> ->;
    try done; exfalso; cbn in Hj, Hj'; set_unfold in Hj; set_unfold in Hj';
    repeat destruct Hj as [Hj | Hj]; try done; subst j;
    repeat destruct Hj' as [Hj' | Hj']; done.
Qed.

Lemma hands_disjoint (j : string) :
  j ∈ finger_joints SideLeft -> j ∈ finger_joints SideRight -> False.
Proof.
  intros Hl Hr. cbn in Hl, Hr. set_unfold in Hl. set_unfold in Hr.
  repeat destruct Hl as [Hl | Hl]; try done; subst j;
    repeat destruct Hr as [Hr | Hr]; done.
Qed.

(** The joint loop of one finger, joint by joint. *)
Lemma applyFinger_loop (side : Side) (isThumb : bool) (curl : R)
    (l : list (nat * string)) (j : string) :
  NoDup l.*2 -> forall h : gmap string BoneRotation,
    foldl (fun (h : gmap string BoneRotation) '(i, boneName) =>
             match h !! boneName with
             | Some bone =>
                 let jointCurl :=
                   curl * (PI / 2) * default 0 (curlDistribution isThumb !! i) * 2.5 in
                 <[boneName := curlJoint side isThumb i jointCurl bone]> h
             | None => h
             end) h l !! j =
    match list_find (fun entry => entry.2 = j) l with
    | Some (_, (i, _)) => curlJoint side isThumb i (jointCurl isThumb i curl) <$> h !! j
    | None => h !! j
    end.
Proof.
  induction l as [|[i b] l IH]; intros Hnd h; [done |].
  apply NoDup_cons in Hnd as [Hb Hnd]. cbn [foldl list_find]. cbn [fst snd] in *.
  rewrite IH by done.
  destruct (decide (b = j)) as [->|Hne].
  - destruct (list_find _ l) as [[n [i' b']]|] eqn:Hfind.
    + apply list_find_Some in Hfind as (Hin & Heq & _). cbn in Heq. subst b'.
      exfalso. apply Hb. apply list_elem_of_fmap. exists (i', j).
      split; [done | by eapply list_elem_of_lookup_2].
    + cbn. destruct (h !! j) eqn:Hj; [by rewrite lookup_insert_eq | by rewrite Hj].
  - assert ((match h !! b with
             | Some bone =>
                 <[b := curlJoint side isThumb i
                          (curl * (PI / 2) * default 0 (curlDistribution isThumb !! i) * 2.5)
                          bone]> h
             | None => h
             end) !! j = h !! j) as ->
      by (destruct (h !! b); [by rewrite lookup_insert_ne | done]).
    destruct (list_find _ l) as [[n [i' b']]|]; cbn; done.
Qed.

Lemma imap_names (bones : list string) :
  (imap (fun i boneName => (i, boneName)) bones).*2 = bones.
Proof.
  apply list_eq. intros n. rewrite list_lookup_fmap, list_lookup_imap.
  by destruct (bones !! n).
Qed.

Lemma applyFinger_lookup (side : Side) (bones : list string) (isThumb : bool) (curl : R)
    (h : gmap string BoneRotation) (j : string) :
  NoDup bones ->
  applyFinger side bones isThumb curl h !! j =
  match list_find (fun boneName => boneName = j) bones with
  | Some (i, _) => curlJoint side isThumb i (jointCurl isThumb i curl) <$> h !! j
  | None => h !! j
  end.
Proof.
  intros Hnd. unfold applyFinger. cbv zeta.
  rewrite applyFinger_loop by by rewrite imap_names.
  assert (list_find (fun entry : nat * string => entry.2 = j)
            (imap (fun i boneName => (i, boneName)) bones)
          = (fun '(i, boneName) => (i, (i, boneName)))
              <$> list_find (fun boneName => boneName = j) bones) as ->.
  { clear Hnd.
    assert (forall k,
      list_find (fun entry : nat * string => entry.2 = j)
        (imap (fun i boneName => (k + i, boneName)%nat) bones)
      = (fun '(i, boneName) => (i, ((k + i)%nat, boneName)))
          <$> list_find (fun boneName => boneName = j) bones) as Hgen.
    { induction bones as [|b bones IH]; intros k; [done |].
      cbn [imap list_find]. cbn [snd].
      destruct (decide (b = j)); cbn; [by rewrite Nat.add_0_r |].
      rewrite (imap_ext _ (fun i boneName => (S k + i, boneName)%nat))
        by (intros i x _; cbn; f_equal; lia).
      rewrite IH. destruct (list_find _ bones) as [[m b']|]; cbn; [| done].
      do 3 f_equal. lia. }
    apply (Hgen 0%nat). }
  by destruct (list_find _ bones) as [[i b]|].
Qed.

End HandFacts.

Section HandTheorems.

Import Easing PoseController.

Lemma applyFinger_outside (side : Side) (bones : list string) (isThumb : bool) (curl : R)
    (h : gmap string BoneRotation) (j : string) :
  j ∉ bones -> applyFinger side bones isThumb curl h !! j = h !! j.
Proof.
  intros Hj. unfold applyFinger.
  apply (foldl_invariant (fun acc : gmap string BoneRotation => acc !! j = h !! j)); [| done].
  intros acc [i boneName] Hin Hacc.
  destruct (acc !! boneName) eqn:Hb; [| done].
  rewrite lookup_insert_ne; [done |]. intros ->. apply Hj.
  apply list_elem_of_lookup in Hin as [n Hn]. rewrite list_lookup_imap in Hn.
  destruct (bones !! n) eqn:Hbn; [| done]. cbn in Hn. injection Hn as _ ->.
  by eapply list_elem_of_lookup_2.
Qed.

Lemma applyFinger_present (side : Side) (bones : list string) (isThumb : bool) (curl : R)
    (h : gmap string BoneRotation) (j : string) :
  is_Some (applyFinger side bones isThumb curl h !! j) <-> is_Some (h !! j).
Proof.
  unfold applyFinger.
  apply (foldl_invariant
           (fun acc : gmap string BoneRotation => is_Some (acc !! j) <-> is_Some (h !! j)));
    [| done].
  intros acc [i boneName] _ Hacc.
  destruct (acc !! boneName) eqn:Hb; [| done].
  destruct (decide (boneName = j)) as [->|Hne].
  - rewrite lookup_insert_eq. rewrite <- Hacc, Hb. split; by eexists.
  - by rewrite lookup_insert_ne.
Qed.

(** The loop of [applyFingerPose] over the entries of [fingers]. *)
Lemma fingers_loop_outside (side : Side) (l : list (string * option R))
    (h : gmap string BoneRotation) (j : string) :
  (forall f bones isThumb,
     f ∈ l.*1 -> fingerConfig side f = Some (bones, isThumb) -> j ∉ bones) ->
  foldl (fun (h : gmap string BoneRotation) '(fingerName, curl) =>
           match curl with
           | None => h
           | Some curl =>
               match (list_to_map (fingerBones side)
                        : gmap string (list string * bool)) !! fingerName with
               | None => h
               | Some (bones, isThumb) => applyFinger side bones isThumb curl h
               end
           end) h l !! j = h !! j.
Proof.
  intros Hout.
  apply (foldl_invariant (fun acc : gmap string BoneRotation => acc !! j = h !! j)); [| done].
  intros acc [f [curl|]] Hin Hacc; [| done].
  destruct (_ !! f) as [[bones isThumb]|] eqn:Hf; [| done].
  rewrite applyFinger_outside; [done |].
  apply (Hout f bones isThumb); [| done].
  apply list_elem_of_fmap. by exists (f, Some curl).
Qed.

Lemma fingers_loop_present (side : Side) (l : list (string * option R))
    (h : gmap string BoneRotation) (j : string) :
  is_Some (foldl (fun (h : gmap string BoneRotation) '(fingerName, curl) =>
           match curl with
           | None => h
           | Some curl =>
               match (list_to_map (fingerBones side)
                        : gmap string (list string * bool)) !! fingerName with
               | None => h
               | Some (bones, isThumb) => applyFinger side bones isThumb curl h
               end
           end) h l !! j) <-> is_Some (h !! j).
Proof.
  apply (foldl_invariant
           (fun acc : gmap string BoneRotation => is_Some (acc !! j) <-> is_Some (h !! j)));
    [| done].
  intros acc [f [curl|]] _ Hacc; [| done].
  destruct (_ !! f) as [[bones isThumb]|]; [| done].
  by rewrite applyFinger_present.
Qed.

Lemma fingers_loop_joint (side : Side) (f : string) (curl : R) (bones : list string)
    (isThumb : bool) (i : nat) (j : string) (l : list (string * option R)) :
  NoDup l.*1 -> (f, Some curl) ∈ l ->
  fingerConfig side f = Some (bones, isThumb) -> bones !! i = Some j ->
  forall h : gmap string BoneRotation,
    foldl (fun (h : gmap string BoneRotation) '(fingerName, curl) =>
             match curl with
             | None => h
             | Some curl =>
                 match (list_to_map (fingerBones side)
                          : gmap string (list string * bool)) !! fingerName with
                 | None => h
                 | Some (bones, isThumb) => applyFinger side bones isThumb curl h
                 end
             end) h l !! j =
    curlJoint side isThumb i (jointCurl isThumb i curl) <$> h !! j.
Proof.
  intros Hnd Hin Hf Hj.
  assert (j ∈ bones) as Hjb by by eapply list_elem_of_lookup_2.
  pose proof (fingerConfig_NoDup _ _ _ _ Hf) as Hbones.
  assert (list_find (fun boneName => boneName = j) bones = Some (i, j)) as Hfind.
  { apply list_find_Some. split; [done |]. split; [done |].
    intros n y Hn Hlt ->. pose proof (NoDup_lookup _ _ _ _ Hbones Hn Hj). lia. }
  induction l as [|[f0 c0] l IH]; intros h; [by apply elem_of_nil in Hin |].
  apply NoDup_cons in Hnd as [Hf0 Hnd]. cbn [foldl].
  apply elem_of_cons in Hin as [Heq | Hin].
  - injection Heq as <- <-. fold (fingerConfig side f). rewrite Hf.
    rewrite fingers_loop_outside.
    + by rewrite applyFinger_lookup, Hfind.
    + intros f' bones' isThumb' Hf'in Hf' Hj'.
      assert (f = f') as <- by by eapply fingerConfig_disjoint.
      by apply Hf0.
  - rewrite IH by done.
    destruct c0 as [c0|]; [| done].
    fold (fingerConfig side f0).
    destruct (fingerConfig side f0) as [[bones0 isThumb0]|] eqn:Hf0c; [| done].
    rewrite applyFinger_outside; [done |].
    intros Hj0. assert (f = f0) as <- by by eapply fingerConfig_disjoint.
    apply Hf0. apply list_elem_of_fmap. by exists (f, Some curl).
Qed.

Lemma set_humanoid_only_rig (h' : gmap string BoneRotation) (s : State) :
  set_vrm (vrm s) (set_humanoid h' s) = s.
Proof. unfold set_humanoid. by destruct s as [[?|] ? ? ? ? ? ? ? ? ? ? ? ?]. Qed.

Lemma applyFingerPose_rig (side : Side) (fingers : list (string * option R)) (s : State) :
  set_vrm (vrm s) (applyFingerPose side fingers s) = s /\
  (forall j, j ∉ finger_joints side ->
     rig_rotation (applyFingerPose side fingers s) j = rig_rotation s j) /\
  (forall j, is_Some (rig_rotation (applyFingerPose side fingers s) j)
             <-> is_Some (rig_rotation s j)).
Proof.
  unfold applyFingerPose, rig_rotation.
  destruct (the_humanoid s) as [h|] eqn:Hh.
  - split; [apply set_humanoid_only_rig |].
    rewrite (the_humanoid_set_humanoid h _ s Hh). cbn [mbind option_bind].
    split; intros j.
    + intros Hj. apply fingers_loop_outside.
      intros f bones isThumb _ Hf Hin. apply Hj. by eapply fingerConfig_joints.
    + apply fingers_loop_present.
  - rewrite Hh. by destruct s.
Qed.

(** X23. A hand gesture moves fingers only: [applyHandGesture] changes
    nothing of the controller but the rig, changes no rig bone outside the
    finger joints of the hands its selector covers (so a right-hand gesture
    leaves the left hand alone), and neither adds nor removes a rig bone. *)
Theorem applyHandGesture_moves_fingers_only (g : HandGesture) (s : State) :
  let s' := applyHandGesture g s in
  set_vrm (vrm s) s' = s /\
  (forall j, j ∉ selected_joints (hand g) -> rig_rotation s' j = rig_rotation s j) /\
  (forall j, is_Some (rig_rotation s' j) <-> is_Some (rig_rotation s j)).
Proof.
  cbv zeta. unfold applyHandGesture.
  destruct (the_humanoid s) eqn:Hh; [| by destruct s].
  destruct (hand g); cbn [selected_joints].
  - apply applyFingerPose_rig.
  - apply applyFingerPose_rig.
  - destruct (applyFingerPose_rig SideLeft (fingers g) s) as (Hl1 & Hl2 & Hl3).
    destruct (applyFingerPose_rig SideRight (fingers g)
                (applyFingerPose SideLeft (fingers g) s)) as (Hr1 & Hr2 & Hr3).
    split; [| split].
    + rewrite <- Hl1 at 3. rewrite <- Hr1 at 2.
      assert (vrm (set_vrm (vrm s) (applyFingerPose SideLeft (fingers g) s)) = vrm s)
        as Hv by done.
      by destruct (applyFingerPose SideRight _ _), (applyFingerPose SideLeft _ _).
    + intros j Hj. rewrite elem_of_app in Hj.
      rewrite Hr2, Hl2; [done | tauto | tauto].
    + intros j. by rewrite Hr3, Hl3.
Qed.

Lemma selects_joints (h : HandSelector) (side : Side) (j : string) :
  selects h side -> j ∈ finger_joints side -> j ∈ selected_joints h.
Proof.
  destruct h, side; cbn [selects selected_joints]; try done;
    rewrite elem_of_app; tauto.
Qed.

(** X24. A hand gesture sets each finger joint from the curl alone: for a
    gesture whose finger entries have distinct names, a finger with curl [c]
    on a hand the selector covers gets, on its joint number [i] when the rig
    has it, the rotation [curlJoint] assigns for the angle
    [c * (pi / 2) * weight i * 2.5]; on the three non-thumb joints that is
    the x rotation, so an open hand ([c = 0]) has x rotation [0] there. *)
Theorem applyHandGesture_sets_curl (g : HandGesture) (s : State) (side : Side)
    (f : string) (curl : R) (bones : list string) (isThumb : bool) (i : nat) (j : string) :
  NoDup (fingers g).*1 -> (f, Some curl) ∈ fingers g -> selects (hand g) side ->
  fingerConfig side f = Some (bones, isThumb) -> bones !! i = Some j ->
  rig_rotation (applyHandGesture g s) j =
    curlJoint side isThumb i (jointCurl isThumb i curl) <$> rig_rotation s j /\
  (isThumb = false ->
   rot_x <$> rig_rotation (applyHandGesture g s) j =
     (fun _ => curl * (PI / 2) * default 0 (curlDistribution false !! i) * 2.5)
       <$> rig_rotation s j) /\
  (isThumb = false -> curl = 0 ->
   rot_x <$> rig_rotation (applyHandGesture g s) j = (fun _ => 0) <$> rig_rotation s j).
Proof.
  intros Hnd Hin Hsel Hf Hj.
  assert (j ∈ finger_joints side) as Hjoint.
  { apply (fingerConfig_joints side f bones isThumb j Hf). by eapply list_elem_of_lookup_2. }
  assert (forall s0, rig_rotation (applyFingerPose side (fingers g) s0) j =
                     curlJoint side isThumb i (jointCurl isThumb i curl)
                       <$> rig_rotation s0 j) as Hside.
  { intros s0. unfold applyFingerPose, rig_rotation.
    destruct (the_humanoid s0) as [h|] eqn:Hh; [| by rewrite Hh].
    rewrite (the_humanoid_set_humanoid h _ s0 Hh). cbn [mbind option_bind].
    by apply (fingers_loop_joint side f curl bones). }
  assert (rig_rotation (applyHandGesture g s) j =
          curlJoint side isThumb i (jointCurl isThumb i curl) <$> rig_rotation s j) as Hmain.
  { unfold applyHandGesture.
    destruct (the_humanoid s) eqn:Hh;
      [| by unfold rig_rotation; rewrite Hh].
    destruct (hand g), side; cbn [selects] in Hsel; try done; try apply Hside.
    - destruct (applyFingerPose_rig SideRight (fingers g)
                  (applyFingerPose SideLeft (fingers g) s)) as (_ & -> & _);
        [apply Hside |].
      intros Hr. by apply (hands_disjoint j).
    - rewrite Hside.
      destruct (applyFingerPose_rig SideLeft (fingers g) s) as (_ & -> & _); [done |].
      intros Hl. by apply (hands_disjoint j). }
  split; [done |]. split.
  - intros ->. rewrite Hmain. unfold jointCurl.
    by destruct (rig_rotation s j).
  - intros -> ->. rewrite Hmain. unfold jointCurl.
    destruct (rig_rotation s j); cbn; [| done]. f_equal. lra.
Qed.

Lemma applyHandGesture_sets_curl_witness :
  rot_x <$> rig_rotation (applyHandGesture fist finger_controller) "leftIndexProximal" =
  (fun _ => 1 * (PI / 2) * default 0 (curlDistribution false !! 0%nat) * 2.5)
    <$> rig_rotation finger_controller "leftIndexProximal".
Proof.
  refine (proj1 (proj2 (applyHandGesture_sets_curl fist finger_controller SideLeft
            "index" 1 ["leftIndexProximal"; "leftIndexIntermediate"; "leftIndexDistal"]%string
            false 0 "leftIndexProximal" _ _ I _ eq_refl)) eq_refl).
  - apply (bool_decide_unpack _). by vm_compute.
  - cbn. set_solver.
  - by vm_compute.
Defined.

End HandTheorems.

(** ** The mouth layer: fallback order, attack and rest *)

Section MouthTickFacts.

Import Easing SpeechMouthLayer.

Lemma setFirstTarget_first (value : R) (mesh : gmap string R) (i : nat) (a : string) :
  mouthTargets !! i = Some a -> is_Some (mesh !! a) ->
  (forall n b, (n < i)%nat -> mouthTargets !! n = Some b -> mesh !! b = None) ->
  setFirstTarget value mesh = <[a := value]> mesh.
Proof.
  intros Ha Hpresent Hbefore. unfold setFirstTarget.
  assert (list_find (fun targetName => is_Some (mesh !! targetName)) mouthTargets
          = Some (i, a)) as ->; [| done].
  apply list_find_Some. split; [done |]. split; [done |].
  intros n b Hb Hlt [x Hx]. by rewrite (Hbefore n b Hlt Hb) in Hx.
Qed.

Lemma setFirstTarget_none (value : R) (mesh : gmap string R) :
  (forall a, a ∈ mouthTargets -> mesh !! a = None) -> setFirstTarget value mesh = mesh.
Proof.
  intros Hnone. unfold setFirstTarget.
  destruct (list_find _ mouthTargets) as [[i a]|] eqn:Hfind; [| done].
  apply list_find_Some in Hfind as (Ha & [x Hx] & _).
  apply list_elem_of_lookup_2 in Ha. by rewrite (Hnone a Ha) in Hx.
Qed.

(** X25. The morph-target fallback runs only when [setValue] raises on the
    configured channel.  With the channel present no mesh is touched.  With
    the channel absent and a manager whose [setValue] returns silently, as
    three-vrm's does, nothing is written at all: the rig is unchanged and the
    fallback is dead code.  With the channel absent and a manager that
    raises, the manager's weights stay as they are and every mesh gets the
    clamped value on the first of [mouth_open, mouthOpen, aa, A, vrc.v_aa] it
    has, and on that one only; a mesh with none of them is left unchanged. *)
Theorem mouth_fallback_first_alias (cfg : MouthAnimationConfig) (value : R) (v : FaceVRM)
    (w : gmap string R) :
  expressionManager v = Some w ->
  let written := Rmax 0 (Rmin 1 value) in
  let v' := applyMouthValue cfg value v in
  (is_Some (w !! morphTargetName cfg) -> meshes v' = meshes v) /\
  (w !! morphTargetName cfg = None -> setValueRaises v = false -> v' = v) /\
  (w !! morphTargetName cfg = None -> setValueRaises v = true ->
     expressionManager v' = Some w /\
     forall k mesh, meshes v !! k = Some mesh ->
       (forall i a, mouthTargets !! i = Some a -> is_Some (mesh !! a) ->
          (forall n b, (n < i)%nat -> mouthTargets !! n = Some b -> mesh !! b = None) ->
          meshes v' !! k = Some (<[a := written]> mesh)) /\
       ((forall a, a ∈ mouthTargets -> mesh !! a = None) -> meshes v' !! k = Some mesh)).
Proof.
  intros Hw. cbv zeta. unfold applyMouthValue, setValue. rewrite Hw.
  split; [| split].
  - intros [old ->]. done.
  - intros Hnone Hsilent. rewrite Hnone, Hsilent.
    destruct v as [manager raises ms]. cbn in *. by subst.
  - intros -> ->. unfold applyMorphTargetFallback. cbn [expressionManager meshes].
    split; [done |]. intros k mesh Hk. rewrite list_lookup_fmap, Hk. cbn. split.
    + intros i a Ha Hpresent Hbefore. f_equal. by eapply setFirstTarget_first.
    + intros Hnone. f_equal. by apply setFirstTarget_none.
Qed.

Lemma mouth_fallback_first_alias_witness :
  let cfg := {| morphTargetName := "aa"; smoothing := 0.15; threshold := 0.02;
                maxOpen := 1; sensitivity := 2 |} in
  let mesh : gmap string R := {[ "mouthOpen"%string := 0; "aa"%string := 0 ]} in
  let silent := {| expressionManager := Some ∅; setValueRaises := false;
                   meshes := [mesh] |} in
  let raising := {| expressionManager := Some ∅; setValueRaises := true;
                    meshes := [mesh] |} in
  applyMouthValue cfg 0.7 silent = silent /\
  meshes (applyMouthValue cfg 0.7 raising) !! 0%nat
  = Some (<["mouthOpen"%string := Rmax 0 (Rmin 1 0.7)]> mesh).
Proof.
  intros cfg mesh silent raising. split.
  - exact (proj1 (proj2 (mouth_fallback_first_alias cfg 0.7 silent ∅ eq_refl))
             eq_refl eq_refl).
  - refine (proj1 (proj2 (proj2 (proj2 (mouth_fallback_first_alias cfg 0.7 raising ∅
              eq_refl)) eq_refl eq_refl) 0%nat mesh eq_refl)
              1%nat "mouthOpen"%string eq_refl _ _).
    + apply (bool_decide_unpack _). by vm_compute.
    + intros n b Hlt Hb. destruct n as [|n]; [| lia].
      injection Hb as <-. by vm_compute.
Defined.

(** One tick of the enabled layer: the damping step it takes and the value
    it hands to the rig. *)
Lemma update_damps (delta : R) (ctx : AnimationContext) (s : State) (v : FaceVRM) :
  vrm s = Some v -> enabled s = true ->
  let s' := update delta ctx s in
  let tv := targetValue (config s) ctx in
  (exists smoothTime,
     (currentValue s', velocity s') =
     smoothDamp (currentValue s) tv (velocity s) smoothTime delta None) /\
  vrm s' = Some (applyMouthValue (config s) (easedValue (currentValue s')) v) /\
  config s' = config s /\ enabled s' = true.
Proof.
  intros Hv He. cbv zeta. unfold update. rewrite Hv, He. cbn [negb].
  set (tv := targetValue (config s) ctx).
  destruct (ctx_isPlaying ctx && bool_decide (ctx_amplitude ctx > threshold (config s))
            && bool_decide (tv > peakValue s)).
  all: set (st := if decide (tv > currentValue s) then _ else _).
  all: destruct (smoothDamp (currentValue s) tv (velocity s) st delta None) as [c vel] eqn:Hsd.
  all: cbn [currentValue velocity vrm config enabled].
  all: split; [by exists st | done].
Qed.

Lemma targetValue_range (cfg : MouthAnimationConfig) (ctx : AnimationContext) :
  0 <= sensitivity cfg -> 0 <= maxOpen cfg ->
  0 <= targetValue cfg ctx <= maxOpen cfg.
Proof.
  intros Hs Hm. unfold targetValue.
  destruct (ctx_isPlaying ctx && bool_decide (ctx_amplitude ctx > threshold cfg)); [| lra].
  cbv zeta. set (p := Rpower _ 0.8).
  assert (0 < p) as Hp by apply exp_pos.
  split; [| apply Rmin_r].
  apply Rmin_glb; [nra | done].
Qed.

Lemma targetValue_silent (cfg : MouthAnimationConfig) (ctx : AnimationContext) :
  ctx_isPlaying ctx = false \/ ctx_amplitude ctx <= threshold cfg ->
  targetValue cfg ctx = 0.
Proof.
  intros Hsilent. unfold targetValue.
  destruct (ctx_isPlaying ctx) eqn:Hp; cbn [andb]; [| done].
  destruct Hsilent as [|Hle]; [done |].
  by rewrite bool_decide_eq_false_2 by lra.
Qed.

Lemma targetValue_speaking (cfg : MouthAnimationConfig) (ctx : AnimationContext) :
  ctx_isPlaying ctx = true -> ctx_amplitude ctx > threshold cfg ->
  0 < sensitivity cfg -> 0 < maxOpen cfg ->
  0 < targetValue cfg ctx.
Proof.
  intros Hp Ha Hs Hm. unfold targetValue.
  rewrite Hp, bool_decide_eq_true_2 by done. cbn [andb]. cbv zeta.
  set (p := Rpower _ 0.8).
  assert (0 < p) as Hpos by apply exp_pos.
  apply Rmin_glb_lt; [nra | done].
Qed.

(** X26. The mouth opens towards a target within the configured limits: with
    a threshold below [1] (so that the power is taken of a positive base), a
    positive sensitivity and a positive [maxOpen],
    while audio plays above the threshold the target is positive and at most
    [maxOpen]; and a layer whose value rests below the target (zero velocity)
    moves, in a tick of positive length, strictly towards the target without
    reaching it, so it stays below [maxOpen]. *)
Theorem mouth_opens_towards_target (delta : R) (ctx : AnimationContext) (s : State)
    (v : FaceVRM) :
  vrm s = Some v -> enabled s = true ->
  threshold (config s) < 1 -> 0 < sensitivity (config s) -> 0 < maxOpen (config s) ->
  ctx_isPlaying ctx = true -> ctx_amplitude ctx > threshold (config s) ->
  velocity s = 0 -> currentValue s < targetValue (config s) ctx -> delta > 0 ->
  let s' := update delta ctx s in
  0 < targetValue (config s) ctx <= maxOpen (config s) /\
  currentValue s < currentValue s' < targetValue (config s) ctx.
Proof.
  intros Hv He Hth Hs Hm Hp Ha Hvel Hbelow Hd. cbv zeta.
  split.
  - split; [by apply targetValue_speaking |].
    apply targetValue_range; lra.
  - destruct (update_damps delta ctx s v Hv He) as ([smoothTime Hstep] & _).
    rewrite Hvel in Hstep.
    destruct (smoothDamp_rest_between (currentValue s) (targetValue (config s) ctx)
                smoothTime delta Hd) as [Hup _].
    rewrite <- Hstep in Hup. by apply Hup.
Qed.

Lemma mouth_opens_towards_target_witness :
  let cfg := {| morphTargetName := "aa"; smoothing := 0.15; threshold := 0.02;
                maxOpen := 1; sensitivity := 2 |} in
  let s := {| vrm := Some {| expressionManager := Some {["aa"%string := 0]};
                             setValueRaises := false; meshes := [] |};
              enabled := true; currentValue := 0; velocity := 0; peakValue := 0;
              peakDecay := 0; config := cfg |} in
  let ctx := {| ctx_amplitude := 0.5; ctx_isPlaying := true |} in
  0 < targetValue cfg ctx <= 1 /\
  0 < currentValue (update (1 / 60) ctx s) < targetValue cfg ctx.
Proof.
  intros cfg s ctx.
  assert (0 < targetValue cfg ctx) as Hpos.
  { apply targetValue_speaking; cbn; [done | lra | lra | lra]. }
  apply (mouth_opens_towards_target (1 / 60) ctx s _ eq_refl eq_refl); cbn;
    [lra | lra | lra | done | lra | done | exact Hpos | lra].
Defined.

(** X27. Silence keeps a closed mouth closed: when nothing plays, or the
    amplitude does not exceed the threshold, a layer resting at [0] stays at
    value [0] with velocity [0] after a tick of any positive length, and the
    value it hands to the rig is [0]. *)
Theorem silent_mouth_stays_closed (delta : R) (ctx : AnimationContext) (s : State)
    (v : FaceVRM) :
  delta > 0 -> vrm s = Some v -> enabled s = true ->
  ctx_isPlaying ctx = false \/ ctx_amplitude ctx <= threshold (config s) ->
  currentValue s = 0 -> velocity s = 0 ->
  let s' := update delta ctx s in
  currentValue s' = 0 /\ velocity s' = 0 /\
  vrm s' = Some (applyMouthValue (config s) 0 v) /\
  forall w, expressionManager v = Some w -> is_Some (w !! morphTargetName (config s)) ->
    (v' ← vrm s'; w' ← expressionManager v'; w' !! morphTargetName (config s)) = Some 0.
Proof.
  intros _ Hv He Hsilent Hc Hvel. cbv zeta.
  destruct (update_damps delta ctx s v Hv He) as ([smoothTime Hstep] & Hrig & _).
  rewrite (targetValue_silent _ _ Hsilent), Hc, Hvel, smoothDamp_settled in Hstep.
  injection Hstep as Hc' Hvel'.
  assert (easedValue 0 = 0) as Heased.
  { unfold easedValue, easeOutQuad. rewrite decide_True by lra. lra. }
  rewrite Hc', Heased in Hrig.
  repeat split; [done | done | done |].
  intros w Hw [old Hold]. rewrite Hrig. cbn.
  unfold applyMouthValue, setValue. rewrite Hw, Hold. cbn.
  rewrite lookup_insert_eq. f_equal.
  rewrite Rmin_right by lra. apply Rmax_left. lra.
Qed.

Lemma silent_mouth_stays_closed_witness :
  let cfg := {| morphTargetName := "aa"; smoothing := 0.15; threshold := 0.02;
                maxOpen := 1; sensitivity := 2 |} in
  let s := {| vrm := Some {| expressionManager := Some {["aa"%string := 0.4]};
                             setValueRaises := false; meshes := [] |};
              enabled := true; currentValue := 0; velocity := 0; peakValue := 0;
              peakDecay := 0; config := cfg |} in
  let ctx := {| ctx_amplitude := 0.01; ctx_isPlaying := true |} in
  currentValue (update (1 / 60) ctx s) = 0 /\ velocity (update (1 / 60) ctx s) = 0.
Proof.
  intros cfg s ctx.
  assert (1 / 60 > 0) as Hd by lra.
  destruct (silent_mouth_stays_closed (1 / 60) ctx s _ Hd eq_refl eq_refl)
    as (Hc & Hvel & _); [right; cbn; lra | done | done | by split].
Defined.

End MouthTickFacts.

(** ** The idle layer: one tick of the blink *)

Section BlinkFacts.

Import Easing SpeechMouthLayer IdleBodyLayer.

(** With the combined channel present the first [setValue] succeeds and is
    the only call. *)
Lemma setBlink_blink (v : FaceVRM) (value : R) (w : gmap string R) :
  is_Some (w !! "blink"%string) -> setBlink v value w = <["blink"%string := value]> w.
Proof. intros [old Hold]. unfold setBlink, setValue. by rewrite Hold. Qed.

Lemma blinkValue_unit (p : R) : 0 <= p < 1 -> 0 <= blinkValue p <= 1.
Proof.
  intros Hp. unfold blinkValue, easeInQuad, easeOutQuad.
  case_decide; split; nra.
Qed.

(** X28. No blink before its time: while no blink is running and the
    advanced clock is still before [nextBlinkTime], a tick of the enabled
    layer only advances the clock; the rig, the schedule and the blink
    progress are untouched. *)
Theorem no_blink_before_time (delta random : R) (s : State) (v : FaceVRM) :
  vrm s = Some v -> enabled s = true ->
  isBlinking s = false -> elapsed s + delta < nextBlinkTime s ->
  update delta random s =
  {| vrm := vrm s; enabled := enabled s; elapsed := elapsed s + delta;
     nextBlinkTime := nextBlinkTime s; blinkProgress := blinkProgress s;
     isBlinking := false |}.
Proof.
  intros Hv He Hb Hlt. unfold update. rewrite Hv, He. cbn [negb].
  unfold updateBlink. cbn [vrm enabled elapsed nextBlinkTime blinkProgress isBlinking].
  rewrite Hb. cbn [mbind option_bind].
  destruct (expressionManager v); cbn [mbind option_bind]; [| done].
  rewrite bool_decide_eq_false_2 by lra. done.
Qed.

Lemma no_blink_before_time_witness :
  let v := {| expressionManager := Some {["blink"%string := 0]};
              setValueRaises := false; meshes := [] |} in
  let s := {| vrm := Some v; enabled := true; elapsed := 0; nextBlinkTime := 3;
              blinkProgress := 0; isBlinking := false |} in
  update (1 / 60) 0.5 s =
  {| vrm := Some v; enabled := true; elapsed := 0 + 1 / 60; nextBlinkTime := 3;
     blinkProgress := 0; isBlinking := false |}.
Proof.
  intros v s.
  apply (no_blink_before_time (1 / 60) 0.5 s v eq_refl eq_refl eq_refl). cbn. lra.
Defined.

(** X29. On a rig whose expression manager has the combined [blink]
    channel, a tick of a running or due blink keeps the blink weight in
    [[0, 1]] and ends the blink cleanly: with a non-negative time step and
    progress and a random draw in [[0, 1)], the clock advances by the step;
    while the blink goes on its progress is below [1] and the [blink] channel
    holds the curve value, which lies in [[0, 1]]; a blink that ends leaves
    weight [0] on the channel and the next one is scheduled 2 to 6 seconds
    after the current time. *)
Theorem blink_tick (delta random : R) (s : State) (v : FaceVRM) (w : gmap string R) :
  vrm s = Some v -> enabled s = true -> expressionManager v = Some w ->
  is_Some (w !! "blink"%string) ->
  0 <= delta -> 0 <= blinkProgress s -> 0 <= random < 1 ->
  isBlinking s = true \/ elapsed s + delta >= nextBlinkTime s ->
  let s' := update delta random s in
  elapsed s' = elapsed s + delta /\
  (isBlinking s' = true ->
     0 <= blinkProgress s' < 1 /\
     0 <= blinkValue (blinkProgress s') <= 1 /\
     blink_weight s' = Some (blinkValue (blinkProgress s'))) /\
  (isBlinking s' = false ->
     1 <= blinkProgress s' /\
     blink_weight s' = Some 0 /\
     elapsed s' + 2 <= nextBlinkTime s' < elapsed s' + 6).
Proof.
  intros Hv He Hw Hblink Hd Hp Hr Hdue. cbv zeta.
  unfold update. rewrite Hv, He. cbn [negb].
  unfold updateBlink. cbn [vrm enabled elapsed nextBlinkTime blinkProgress isBlinking].
  cbn [mbind option_bind]. rewrite Hw. cbn [mbind option_bind].
  set (started := negb (isBlinking s) && bool_decide (elapsed s + delta >= nextBlinkTime s)).
  assert (exists p0, 0 <= p0 /\
            (if started then (true, 0) else (isBlinking s, blinkProgress s)) = (true, p0))
    as (p0 & Hp0 & ->).
  { unfold started. destruct (isBlinking s) eqn:Hb; cbn [negb andb].
    - by exists (blinkProgress s).
    - destruct Hdue as [|Hdue]; [done |].
      rewrite bool_decide_eq_true_2 by done. exists 0. split; [lra | done]. }
  cbv zeta.
  assert (0 <= delta / 0.15) as Hstep by (unfold Rdiv; nra).
  set (p := p0 + delta / 0.15) in *.
  assert (0 <= p) as Hpos by (unfold p; lra).
  rewrite (setBlink_blink v (blinkValue p) w Hblink).
  case_bool_decide as Hfinished;
    cbn [elapsed isBlinking blinkProgress nextBlinkTime negb]; (split; [done |]);
    (split; intros Hb; try done).
  - split; [lra |]. split.
    + unfold blink_weight. cbn. rewrite setBlink_blink.
      * by rewrite lookup_insert_eq.
      * rewrite lookup_insert_eq. by eexists.
    + unfold getNextBlinkTime. cbn [elapsed]. destruct Hr. split; lra.
  - split; [lra |]. split; [apply blinkValue_unit; lra |].
    unfold blink_weight. cbn. by rewrite lookup_insert_eq.
Qed.

Lemma blink_tick_witness :
  let v := {| expressionManager := Some {["blink"%string := 0]};
              setValueRaises := false; meshes := [] |} in
  let s := {| vrm := Some v; enabled := true; elapsed := 2.99; nextBlinkTime := 3;
              blinkProgress := 0; isBlinking := false |} in
  elapsed (update (1 / 60) 0.5 s) = 2.99 + 1 / 60.
Proof.
  intros v s.
  apply (blink_tick (1 / 60) 0.5 s v _ eq_refl eq_refl eq_refl);
    [exists 0; by vm_compute | cbn; lra | cbn; lra | cbn; lra | right; cbn; lra].
Defined.

End BlinkFacts.

(** ** applyPoseToVRM: which bones a preset reaches *)

Section PresetFacts.

Import Poses.

Lemma boneMapping_identity (boneName vrmBoneName : string) :
  boneMapping !! boneName = Some vrmBoneName -> vrmBoneName = boneName.
Proof.
  intros H. apply elem_of_list_to_map_2 in H.
  unfold boneMapping_entries in H. set_unfold in H.
  repeat destruct H as [H | H]; try done; by injection H as -> ->.
Qed.

Lemma applyPoseToVRM_loop (l : list (string * Vec3)) :
  NoDup l.*1 -> forall (h : gmap string BoneRotation) (b : string),
    foldl (fun (h : gmap string BoneRotation) '(boneName, rotation) =>
             match boneMapping !! boneName with
             | None => h
             | Some vrmBoneName =>
                 match h !! vrmBoneName with
                 | Some _ =>
                     <[vrmBoneName := rot (degToRad (at0 rotation))
                                          (degToRad (at1 rotation))
                                          (degToRad (at2 rotation))]> h
                 | None => h
                 end
             end) h l !! b =
    match (list_to_map l : gmap string Vec3) !! b with
    | Some rotation =>
        if decide (is_Some (boneMapping !! b) /\ is_Some (h !! b))
        then Some (rot (degToRad (at0 rotation)) (degToRad (at1 rotation))
                       (degToRad (at2 rotation)))
        else h !! b
    | None => h !! b
    end.
Proof.
  induction l as [|[k a] l IH]; intros Hnd h b; [done |].
  apply NoDup_cons in Hnd as [Hk Hnd]. cbn [foldl list_to_map foldr uncurry].
  rewrite IH by done.
  destruct (boneMapping !! k) as [vrmBoneName|] eqn:Hmap.
  - apply boneMapping_identity in Hmap as Hid. subst vrmBoneName.
    destruct (h !! k) as [old|] eqn:Hold.
    + destruct (decide (k = b)) as [->|Hne].
      * rewrite (not_elem_of_list_to_map_1 l b Hk), !lookup_insert_eq.
        rewrite decide_True; [done |]. by rewrite Hmap, Hold.
      * by rewrite !lookup_insert_ne by done.
    + destruct (decide (k = b)) as [->|Hne].
      * rewrite (not_elem_of_list_to_map_1 l b Hk), lookup_insert_eq.
        rewrite decide_False; [done |]. rewrite Hold. by intros [_ [? ?]].
      * by rewrite lookup_insert_ne by done.
  - destruct (decide (k = b)) as [->|Hne].
    + rewrite (not_elem_of_list_to_map_1 l b Hk), lookup_insert_eq.
      rewrite decide_False; [done |]. rewrite Hmap. by intros [[? ?] _].
    + by rewrite lookup_insert_ne by done.
Qed.

(** X30. [applyPoseToVRM] reaches exactly the bones that the preset lists,
    that its own twelve-name table knows and that the rig has: each of them
    gets the preset's angles converted from degrees to radians; every other
    rig bone keeps its rotation (so a preset's hips, hand or foot entry,
    which [BONE_MAP] of the pose controller knows, is ignored here), no bone
    is added to the rig, and the scene is untouched. *)
Theorem applyPoseToVRM_reaches (vrm : VRM) (pose : PosePreset)
    (h : gmap string BoneRotation) :
  humanoid vrm = Some h ->
  exists h', applyPoseToVRM vrm pose = {| humanoid := Some h'; scene := scene vrm |} /\
    (forall b rotation,
       bones pose !! b = Some rotation -> b ∈ boneMapping_entries.*1 -> is_Some (h !! b) ->
       h' !! b = Some (rot (degToRad (at0 rotation)) (degToRad (at1 rotation))
                           (degToRad (at2 rotation)))) /\
    (forall b, bones pose !! b = None \/ b ∉ boneMapping_entries.*1 -> h' !! b = h !! b) /\
    (forall b, is_Some (h' !! b) <-> is_Some (h !! b)).
Proof.
  intros Hh. unfold applyPoseToVRM. rewrite Hh. eexists. split; [reflexivity |].
  assert (forall b, is_Some (boneMapping !! b) <-> b ∈ boneMapping_entries.*1) as Hdom.
  { intros b. unfold boneMapping. rewrite <- elem_of_dom, dom_list_to_map_L.
    by rewrite elem_of_list_to_set. }
  split; [| split]; intros b.
  - intros rotation Hb Hmapped Hrig.
    rewrite applyPoseToVRM_loop by apply NoDup_fst_map_to_list.
    rewrite list_to_map_to_list, Hb. rewrite decide_True; [done |].
    split; [by apply Hdom | done].
  - intros Hout. rewrite applyPoseToVRM_loop by apply NoDup_fst_map_to_list.
    rewrite list_to_map_to_list.
    destruct (bones pose !! b) as [rotation|] eqn:Hb; [| done].
    destruct Hout as [| Hout]; [done |].
    rewrite decide_False; [done |]. intros [Hm _]. by apply Hout, Hdom.
  - rewrite applyPoseToVRM_loop by apply NoDup_fst_map_to_list.
    rewrite list_to_map_to_list.
    destruct (bones pose !! b) as [rotation|]; [| done].
    case_decide as Hguard; [| done]. split; [intros _; apply Hguard | by eexists].
Qed.

Lemma applyPoseToVRM_reaches_witness :
  let h : gmap string BoneRotation :=
    {[ "head"%string := rot 0 0 0; "hips"%string := rot 0 0 0 ]} in
  let pose := {| pose_id := "look"; bones := {[ "head"%string := vec3 10 0 0;
                                                "hips"%string := vec3 0 0 5 ]} |} in
  exists h', applyPoseToVRM {| humanoid := Some h; scene := None |} pose
             = {| humanoid := Some h'; scene := None |} /\
    h' !! "head"%string = Some (rot (degToRad 10) (degToRad 0) (degToRad 0)) /\
    h' !! "hips"%string = Some (rot 0 0 0).
Proof.
  intros h pose.
  destruct (applyPoseToVRM_reaches {| humanoid := Some h; scene := None |} pose h eq_refl)
    as (h' & Heq & Hset & Hkeep & _).
  exists h'. split; [exact Heq |]. split.
  - apply (Hset "head"%string (vec3 10 0 0)).
    + by vm_compute.
    + apply (bool_decide_unpack _). by vm_compute.
    + exists (rot 0 0 0). by vm_compute.
  - rewrite (Hkeep "hips"%string); [by vm_compute |].
    right. apply (bool_decide_unpack _). by vm_compute.
Defined.

End PresetFacts.

(** ** After a gesture: which bones the motion takes back *)

Section GestureResume.

Import Easing PoseController.

(** C5 (amended). When the progress of a playing gesture has reached [1] at
    a tick: a looping gesture is restarted at the current time and the
    keyframes of that tick are interpolated at progress [0] (for a gesture
    whose first two keyframes enclose [0], every tracked bone of the second
    gets the blend of the two at the eased position of [0]); a gesture that
    does not loop is cleared and leaves every bone state as it was, and it
    stays cleared over the following ticks.  While no pose transition is
    pending, the rest of that tick ([ended]) and the next tick ([next]) then
    write base pose plus offset to the bones the current motion has an
    offset for, and to no other bone: a bone of the gesture outside the
    motion's offsets keeps the last target the gesture gave it. *)
Theorem gesture_progress_boundary (s : State) (ga : GestureAnimation) :
  gestureAnimation s = Some ga -> is_Some (the_humanoid s) -> isPlaying ga = true ->
  gesture_progress s ga >= 1 ->
  (loop (gesture ga) = true ->
   let restarted :=
     set_gestureAnimation
       (Some {| gesture := gesture ga; ga_startTime := elapsedTime s * 1000;
                isPlaying := true |}) s in
   updateGestureAnimation s = interpolateKeyframes (gesture ga) 0 restarted /\
   (forall ga', gestureAnimation restarted = Some ga' ->
      gesture_progress restarted ga' = 0) /\
   (forall k0 k1 rest boneName toRotation state,
      keyframes (gesture ga) = k0 :: k1 :: rest -> time k0 <= 0 < time k1 ->
      kf_bones k1 !! boneName = Some toRotation -> boneStates s !! boneName = Some state ->
      target_of (state_of (updateGestureAnimation s)) boneName =
      Some (lerp_target (default (vec3 0 0 0) (kf_bones k0 !! boneName)) toRotation
              (easeInOutSine ((0 - time k0) / (time k1 - time k0)))))) /\
  (loop (gesture ga) = false ->
   let cleared := set_gestureAnimation None s in
   updateGestureAnimation s = Normal cleared /\
   gestureAnimation cleared = None /\ boneStates cleared = boneStates s /\
   (forall delta, gestureAnimation (state_of (update delta cleared)) = None)) /\
  (loop (gesture ga) = false -> poseTransition s = None ->
   forall delta delta' boneName,
     let cleared := set_gestureAnimation None s in
     let ended := applyBoneRotations delta (updateBodyMotion delta cleared) in
     let resumed :=
       set_times (motionTime ended + delta') (elapsedTime ended + delta') ended in
     let next := state_of (update delta' ended) in
     gestureAnimation ended = None /\ gestureAnimation next = None /\
     target_of ended boneName = resumed_target cleared boneName <$> target_of s boneName /\
     target_of next boneName = resumed_target resumed boneName <$> target_of ended boneName /\
     (tick_offsets cleared !! boneName = None -> tick_offsets resumed !! boneName = None ->
      target_of next boneName = target_of s boneName)).
Proof.
  intros Hg Hh Hp Hprogress.
  pose proof (updateGestureAnimation_playing s ga Hg Hh Hp) as Hupd.
  rewrite decide_True in Hupd by done.
  split; [| split].
  - intros Hloop. cbv zeta. split; [| split].
    + rewrite Hupd, Hloop, Hp. done.
    + intros ga' [= <-]. unfold gesture_progress.
      cbn [elapsedTime set_gestureAnimation ga_startTime].
      unfold Rdiv. rewrite Rminus_diag. apply Rmult_0_l.
    + intros k0 k1 rest boneName toRotation state Hkf Htimes Hto Hst.
      rewrite Hupd, Hloop. unfold interpolateKeyframes. rewrite Hkf.
      rewrite find_bracket_cons, (proj2 (bracket_test 0 k0 k1)) by lra.
      cbv zeta. rewrite decide_True by lra. cbn [state_of].
      unfold target_of. cbn [boneStates set_boneStates set_gestureAnimation].
      by rewrite write_targets_lookup, Hto, Hst.
  - intros Hloop. cbv zeta. repeat split.
    + by rewrite Hupd, Hloop.
    + intros delta. by apply update_keeps_gesture_cleared.
  - intros Hloop Htr delta delta' boneName. cbv zeta.
    set (cleared := set_gestureAnimation None s).
    set (ended := applyBoneRotations delta (updateBodyMotion delta cleared)).
    destruct (applyBoneRotations_frame delta (updateBodyMotion delta cleared))
      as (Htr1 & Hg1 & _ & Htargets & _).
    destruct (updateBodyMotion_frame delta cleared) as (Htr0 & Hg0 & _).
    assert (gestureAnimation ended = None) as Hgone
      by (unfold ended; rewrite Hg1, Hg0; done).
    assert (poseTransition ended = None) as Hnone
      by (unfold ended; rewrite Htr1, Htr0; exact Htr).
    assert (target_of ended boneName
            = resumed_target cleared boneName <$> target_of s boneName) as Hended.
    { unfold ended. rewrite Htargets. by rewrite updateBodyMotion_targets. }
    pose proof (update_targets_idle delta' ended boneName Hgone Hnone) as Hnext.
    split; [exact Hgone |].
    split; [by apply update_keeps_gesture_cleared |].
    split; [exact Hended |]. split; [exact Hnext |].
    intros Hout Hout'. rewrite Hnext, Hended. unfold resumed_target.
    rewrite Hout, Hout'. unfold target_of. by destruct (boneStates s !! boneName).
Qed.

Lemma gesture_progress_boundary_witness :
  let s := set_times 0.6 0.6 (playBodyGesture nod spine_controller) in
  updateGestureAnimation s = Normal (set_gestureAnimation None s).
Proof.
  intros s.
  refine (proj1 (proj1 (proj2 (gesture_progress_boundary s
            {| gesture := nod; ga_startTime := 0 * 1000; isPlaying := true |}
            eq_refl _ eq_refl _)) eq_refl)).
  - by eexists.
  - unfold gesture_progress. cbn [elapsedTime set_times s ga_startTime gesture
      gesture_duration nod]. lra.
Defined.

Lemma head_controller_start :
  head_controller =
  {| vrm := Some {| humanoid :=
                      Some {["head"%string := rot (degToRad 0) (degToRad 0) (degToRad 0)]};
                    scene := None |};
     basePose := DEFAULT_RELAXED_POSE;
     boneStates :=
       {["head"%string :=
           {| current := rot (degToRad 0) (degToRad 0) (degToRad 0);
              target := rot (degToRad 0) (degToRad 0) (degToRad 0);
              velocity := rot 0 0 0 |}]};
     poseTransition := None; currentMotion := Some breathingSubtle;
     gestureAnimation := Some {| gesture := nod; ga_startTime := 0 * 1000; isPlaying := true |};
     motionTime := 0; elapsedTime := 0; basePosition := vec3 0 0 0;
     currentPositionY := 0; positionVelocityY := 0;
     transitionDuration := 0.4; smoothTime := 0.15 |}.
Proof. by vm_compute. Qed.

Lemma applyBoneRotations_humanoid (delta : R) (s : State) :
  is_Some (the_humanoid s) -> is_Some (the_humanoid (applyBoneRotations delta s)).
Proof.
  intros [h Hh].
  destruct (applyBoneRotations_fold delta s h Hh) as (h' & st' & -> & _).
  exists h'.
  change (the_humanoid (set_boneStates st' (set_humanoid h' s)))
    with (the_humanoid (set_humanoid h' s)).
  by apply (the_humanoid_set_humanoid h).
Qed.

(** A tick in which the gesture goes on (no pose transition pending). *)
Lemma update_gesture_running (delta : R) (s s1 : State) (ga : GestureAnimation) :
  is_Some (the_humanoid s) -> poseTransition s = None ->
  gestureAnimation s = Some ga -> isPlaying ga = true ->
  let s0 := set_times (motionTime s + delta) (elapsedTime s + delta) s in
  gesture_progress s0 ga < 1 ->
  interpolateKeyframes (gesture ga) (gesture_progress s0 ga) s0 = Normal s1 ->
  let s' := state_of (update delta s) in
  is_Some (the_humanoid s') /\ poseTransition s' = None /\ gestureAnimation s' = Some ga /\
  elapsedTime s' = elapsedTime s + delta /\ currentMotion s' = currentMotion s /\
  basePose s' = basePose s /\
  (forall b, target_of s' b = target_of s1 b).
Proof.
  intros Hh Htr Hg Hp s0 Hlt Hint. cbv zeta.
  rewrite update_unfold by done. unfold tick_prefix. fold s0.
  assert (updatePoseTransition s0 = s0) as ->.
  { unfold updatePoseTransition.
    change (poseTransition s0) with (poseTransition s). by rewrite Htr. }
  rewrite (updateGestureAnimation_playing s0 ga Hg Hh Hp).
  rewrite decide_False by lra. rewrite Hint. cbn [and_then state_of].
  destruct (interpolateKeyframes_shape _ _ _ _ Hint) as (p & n & t & _ & _ & _ & Hs1).
  assert (gestureAnimation s1 = Some ga /\ poseTransition s1 = None /\
          the_humanoid s1 = the_humanoid s /\ elapsedTime s1 = elapsedTime s + delta /\
          currentMotion s1 = currentMotion s /\ basePose s1 = basePose s)
    as (Hg1 & Htr1 & Hh1 & He1 & Hm1 & Hb1) by (by rewrite Hs1).
  rewrite updateBodyMotion_gesture_guard
    by (unfold gesture_playing; rewrite Hg1; exact Hp).
  destruct (applyBoneRotations_frame delta s1) as (-> & -> & -> & Htargets & _).
  destruct (applyBoneRotations_setup delta s1) as ((_ & -> & _) & -> & _).
  repeat split; try done.
  apply applyBoneRotations_humanoid. by rewrite Hh1.
Qed.

(** The tick in which a gesture that does not loop ends. *)
Lemma update_gesture_clears (delta : R) (s : State) (ga : GestureAnimation) :
  is_Some (the_humanoid s) -> poseTransition s = None ->
  gestureAnimation s = Some ga -> isPlaying ga = true -> loop (gesture ga) = false ->
  let s0 := set_times (motionTime s + delta) (elapsedTime s + delta) s in
  gesture_progress s0 ga >= 1 ->
  let s' := state_of (update delta s) in
  gestureAnimation s' = None /\ poseTransition s' = None /\
  currentMotion s' = currentMotion s /\ basePose s' = basePose s /\
  (forall b, target_of s' b =
             resumed_target (set_gestureAnimation None s0) b <$> target_of s b).
Proof.
  intros Hh Htr Hg Hp Hloop s0 Hge. cbv zeta.
  rewrite update_unfold by done. unfold tick_prefix. fold s0.
  assert (updatePoseTransition s0 = s0) as ->.
  { unfold updatePoseTransition.
    change (poseTransition s0) with (poseTransition s). by rewrite Htr. }
  rewrite (updateGestureAnimation_playing s0 ga Hg Hh Hp).
  rewrite decide_True by done. rewrite Hloop. cbn [and_then state_of].
  set (cleared := set_gestureAnimation None s0).
  destruct (applyBoneRotations_frame delta (updateBodyMotion delta cleared))
    as (-> & -> & -> & Htargets & _).
  destruct (applyBoneRotations_setup delta (updateBodyMotion delta cleared))
    as ((_ & -> & _) & _).
  destruct (updateBodyMotion_frame delta cleared) as (-> & -> & _ & ->).
  destruct (updateBodyMotion_setup delta cleared) as ((_ & -> & _) & _).
  repeat split; try done.
  intros b. rewrite Htargets. by rewrite updateBodyMotion_targets.
Qed.

Lemma target_of_tracked (s : State) (b : string) (r : BoneRotation) :
  target_of s b = Some r -> is_Some (boneStates s !! b).
Proof. unfold target_of. destruct (boneStates s !! b); [by eexists | done]. Qed.

(** The breathing motion has no offset for the head. *)
Lemma breathing_spares_head (s : State) (m : BodyMotion) :
  currentMotion s = Some m -> type m = MBreathing ->
  tick_offsets s !! "head"%string = None.
Proof.
  intros Hm Hty. unfold tick_offsets. rewrite Hm.
  destruct (the_humanoid s); [| done].
  destruct (_ || _); [done |].
  destruct (gesture_playing s); [done |].
  unfold motionOffsets. rewrite Hty. cbn [default from_option].
  unfold Datatypes.id, calculateBreathingOffsets.
  by rewrite !lookup_insert_ne.
Qed.

(** The nod between its first two keyframes. *)
Lemma nod_first_bracket (progress : R) (s : State) :
  0 <= progress < 0.3 ->
  interpolateKeyframes nod progress s =
  Normal (set_boneStates
            (write_targets {["head"%string := vec3 0 0 0]} {["head"%string := vec3 15 0 0]}
               (easeInOutSine ((progress - 0) / (0.3 - 0))) (boneStates s)) s).
Proof.
  intros Hp. unfold interpolateKeyframes. cbn [keyframes nod].
  rewrite find_bracket_cons.
  rewrite (proj2 (bracket_test progress _ _)) by (cbn [time]; lra).
  cbn [time kf_bones]. by rewrite decide_True by lra.
Qed.

Lemma easeInOutSine_half : easeInOutSine 0.5 = 0.5.
Proof.
  unfold easeInOutSine.
  replace (PI * 0.5) with (PI / 2) by lra. rewrite cos_PI2. lra.
Qed.

(** The controller 0.09 s into the nod: the gesture has put the head at
    7.5 degrees. *)
Lemma nodding_facts :
  is_Some (the_humanoid nodding) /\ poseTransition nodding = None /\
  gestureAnimation nodding
    = Some {| gesture := nod; ga_startTime := 0 * 1000; isPlaying := true |} /\
  elapsedTime nodding = 0 + 0.09 /\ currentMotion nodding = Some breathingSubtle /\
  basePose nodding = DEFAULT_RELAXED_POSE /\
  target_of nodding "head" = Some (rot (degToRad 7.5) (degToRad 0) (degToRad 0)).
Proof.
  unfold nodding. rewrite head_controller_start.
  set (start := {| vrm := _; basePose := _ |}).
  set (ga := {| gesture := nod; ga_startTime := 0 * 1000; isPlaying := true |}).
  set (s0 := set_times (motionTime start + 0.09) (elapsedTime start + 0.09) start).
  assert (gesture_progress s0 ga = 0.15) as Hprogress.
  { unfold gesture_progress. cbn. lra. }
  assert (interpolateKeyframes (gesture ga) (gesture_progress s0 ga) s0 =
          Normal (set_boneStates
                    (write_targets {["head"%string := vec3 0 0 0]}
                       {["head"%string := vec3 15 0 0]}
                       (easeInOutSine ((0.15 - 0) / (0.3 - 0))) (boneStates s0)) s0))
    as Hint by (rewrite Hprogress; apply nod_first_bracket; lra).
  assert (is_Some (the_humanoid start)) as Hstart by by eexists.
  assert (gesture_progress s0 ga < 1) as Hlt by (rewrite Hprogress; lra).
  destruct (update_gesture_running 0.09 start _ ga Hstart eq_refl eq_refl eq_refl Hlt Hint)
    as (Hh & Htr & Hg & He & Hm & Hb & Ht).
  repeat split; try done.
  - rewrite Ht. unfold target_of. cbn [boneStates set_boneStates].
    rewrite write_targets_lookup.
    replace ((0.15 - 0) / (0.3 - 0)) with 0.5 by lra. rewrite easeInOutSine_half.
    rewrite !lookup_singleton_eq. cbn. rewrite lookup_singleton_eq. cbn.
    unfold lerp_target. cbn [at0 at1 at2].
    f_equal. f_equal; f_equal; lra.
Qed.

(** Once the gesture is cleared, a head target other than the base pose
    stays under the breathing motion, against the literal claim. *)
Lemma head_not_resumed (delta : R) (ended : State) (r : BoneRotation) :
  gestureAnimation ended = None -> poseTransition ended = None ->
  currentMotion ended = Some breathingSubtle -> basePose ended = DEFAULT_RELAXED_POSE ->
  target_of ended "head" = Some r -> rot_x r <> 0 ->
  target_of (state_of (update delta ended)) "head" = Some r /\
  ~ resumes_after_gesture nod delta ended.
Proof.
  intros Hg Htr Hm Hb Ht Hr.
  assert (tick_offsets (set_times (motionTime ended + delta) (elapsedTime ended + delta)
                          ended) !! "head"%string = None) as Hspared
    by by apply (breathing_spares_head _ breathingSubtle).
  assert (target_of (state_of (update delta ended)) "head" = Some r) as Hnext.
  { rewrite (update_targets_idle delta ended "head" Hg Htr).
    unfold resumed_target. by rewrite Hspared, Ht. }
  split; [exact Hnext |].
  intros Hresumes.
  specialize (Hresumes {| time := 0.3; kf_bones := {["head"%string := vec3 15 0 0]} |}
                "head"%string).
  cbv zeta in Hresumes.
  rewrite Hnext, Hspared in Hresumes.
  unfold base_plus in Hresumes. cbn [basePose set_times] in Hresumes.
  rewrite Hb in Hresumes.
  assert (DEFAULT_RELAXED_POSE !! "head"%string = Some (vec3 0 0 0)) as Hbase
    by by vm_compute.
  rewrite Hbase in Hresumes. cbn [default from_option at0 at1 at2] in Hresumes.
  assert (Some r = Some (rot (degToRad (0 + 0)) (degToRad (0 + 0)) (degToRad (0 + 0))))
    as Heq.
  { apply Hresumes.
    - cbn [keyframes nod]. right. by left.
    - cbn [kf_bones]. rewrite lookup_singleton_eq. by eexists.
    - exact (target_of_tracked _ _ _ Ht). }
  apply (inj Some) in Heq. apply Hr. rewrite Heq. cbn [rot_x]. unfold degToRad. lra.
Qed.

(** The literal claim fails on the nod under the subtle breathing motion:
    after [init] on a rig with a head, [setBodyMotion(breathingSubtle)],
    [playBodyGesture(nod)] and a tick of 0.09 s the gesture has put the head
    target at 7.5 degrees; a tick of 0.6 s then ends the gesture (progress
    1.15) and clears it; but the breathing motion has no offset for the
    head, so after the next tick the head target is still 7.5 degrees and
    not the 0 degrees of the base pose. *)
Lemma gesture_bone_not_resumed :
  gestureAnimation (state_of (update 0.6 nodding)) = None /\
  target_of (state_of (update (1 / 60) (state_of (update 0.6 nodding)))) "head"
    = Some (rot (degToRad 7.5) (degToRad 0) (degToRad 0)) /\
  ~ resumes_after_gesture nod (1 / 60) (state_of (update 0.6 nodding)).
Proof.
  destruct nodding_facts as (Hh & Htr & Hg & He & Hm & Hb & Ht).
  assert (gesture_progress
            (set_times (motionTime nodding + 0.6) (elapsedTime nodding + 0.6) nodding)
            {| gesture := nod; ga_startTime := 0 * 1000; isPlaying := true |} >= 1)
    as Hprogress.
  { unfold gesture_progress.
    cbn [elapsedTime set_times ga_startTime gesture gesture_duration nod].
    rewrite He. lra. }
  destruct (update_gesture_clears 0.6 nodding _ Hh Htr Hg eq_refl eq_refl Hprogress)
    as (Hg2 & Htr2 & Hm2 & Hb2 & Ht2).
  assert (target_of (state_of (update 0.6 nodding)) "head"
          = Some (rot (degToRad 7.5) (degToRad 0) (degToRad 0))) as Hended.
  { rewrite Ht2, Ht. unfold resumed_target.
    by rewrite (breathing_spares_head _ breathingSubtle). }
  split; [exact Hg2 |].
  apply (head_not_resumed (1 / 60) _ _ Hg2 Htr2).
  - by rewrite Hm2.
  - by rewrite Hb2.
  - exact Hended.
  - cbn [rot_x]. unfold degToRad. pose proof PI_RGT_0. lra.
Qed.

End GestureResume.
